(** * Shape overlay filter: detection scheduler, matcher gate and compositor

    A shallow embedding of [src/shape_overlay_filter.cpp].

    - Machine integers are [Z] with the conversions written out
      ([to_uint8], [to_uint32], [to_uint64], [to_int]).  Arithmetic on
      [int] is left in [Z]: where it would overflow the C++ program has no
      defined behaviour.
    - [float] and [double] values are IEEE 754 binary32 / binary64 numbers
      in the representation of [SpecFloat]; every arithmetic operation is
      rounded to nearest-even once, as the C++ expression evaluates it
      without contraction.
    - Pixel buffers are [list Z] (one byte per element) addressed by byte
      offset, with the row stride kept explicit.
    - OpenCV (imread, cvtColor, resize, matchTemplate, minMaxLoc) is an
      interface ([OpenCV]); the filter is written against it.
    - The mutex of the C++ struct is not modelled: every entry point runs
      to completion on the whole state.  The callback releases the mutex
      between its snapshot and its write-back; an update that runs in
      that gap is outside the model, so the properties are about calls
      that do not overlap, or about one call and the state it read.
    - The host's settings object is seen through its typed getters
      ([obs_data_t]); behind them it is a pair of finite maps, the values
      the user has set and the registered defaults ([obs_data]).  The
      property sheet is the list of its controls.
    - The compositor is embedded a second time with every buffer access
      checked against the bounds ([blend_overlay_bgra_checked]), to state
      that the unchecked one never leaves the buffers. *)

From Stdlib Require Import ZArith List Bool Lia.
From Stdlib Require Import Floats.SpecFloat.
From stdpp Require Import base list strings gmap.

Open Scope Z_scope.

(* ===================================================================== *)
(** ** Machine integers *)
(* ===================================================================== *)

Definition to_uint8 (z : Z) : Z := z mod 256.
Definition to_uint32 (z : Z) : Z := z mod 2 ^ 32.
Definition to_uint64 (z : Z) : Z := z mod 2 ^ 64.
(** [static_cast<int>] of a wider or unsigned value: two's complement. *)
Definition to_int (z : Z) : Z := (z + 2 ^ 31) mod 2 ^ 32 - 2 ^ 31.

(* ===================================================================== *)
(** ** IEEE 754 binary32 ([float]) and binary64 ([double]) *)
(* ===================================================================== *)

Module IEEE.

Definition float := spec_float.
Definition double := spec_float.

Definition f32_mul : float -> float -> float := SFmul 24 128.
Definition f32_add : float -> float -> float := SFadd 24 128.
Definition f32_ltb : float -> float -> bool := SFltb.

Definition f64_div : double -> double -> double := SFdiv 53 1024.

(** [x >= y]: false as soon as one side is NaN. *)
Definition geb (x y : spec_float) : bool :=
  match SFcompare x y with
  | Some Gt | Some Eq => true
  | _ => false
  end.

(** Integer to floating point (exact below 2^24, resp. 2^53). *)
Definition f32_of_Z (n : Z) : float := binary_normalize 24 128 n 0 false.
Definition f64_of_Z (n : Z) : double := binary_normalize 53 1024 n 0 false.

(** [static_cast<float>(double)]: round to the nearest binary32. *)
Definition f64_to_f32 (x : double) : float :=
  match x with
  | S754_finite s m e => binary_round 24 128 s m e
  | _ => x
  end.

(** Promotion of a [float] operand to [double]: exact. *)
Definition f32_to_f64 (x : float) : double :=
  match x with
  | S754_finite s m e => binary_round 53 1024 s m e
  | _ => x
  end.

(** [static_cast<int>(float)]: truncation toward zero.  A NaN, an
    infinity or a value outside the range of [int] has no defined
    result in C++; the model returns the x86 "integer indefinite"
    value [INT_MIN] there. *)
Definition f32_to_int (x : float) : Z :=
  match x with
  | S754_zero _ => 0
  | S754_finite s m e =>
      let mag := match e with
                 | Z0 => Zpos m
                 | Zpos _ => Z.shiftl (Zpos m) e
                 | Zneg p => Z.shiftr (Zpos m) (Zpos p)
                 end in
      let v := if s then - mag else mag in
      if (- 2 ^ 31 <=? v) && (v <? 2 ^ 31) then v else - 2 ^ 31
  | _ => - 2 ^ 31
  end.

Definition f32_zero : float := S754_zero false.             (* 0.0f *)
Definition f32_half : float := S754_finite false 8388608 (-24).  (* 0.5f *)
Definition f32_one : float := S754_finite false 8388608 (-23).   (* 1.0f *)
Definition f32_0_8 : float := S754_finite false 13421773 (-24).  (* 0.8f *)
Definition f64_100 : double := f64_of_Z 100.                  (* 100.0 *)

(** [std::clamp(v, lo, hi)] is [(v < lo) ? lo : (hi < v) ? hi : v]. *)
Definition clamp (v lo hi : float) : float :=
  if f32_ltb v lo then lo else if f32_ltb hi v then hi else v.

Definition is_nan (x : spec_float) : bool :=
  match x with S754_nan => true | _ => false end.

End IEEE.
Import IEEE.

(* ===================================================================== *)
(** ** Images ([cv::Mat]) and the OpenCV interface *)
(* ===================================================================== *)

(** A dense 2-D [cv::Mat] of 8-bit elements: [mat_step] is the distance in
    bytes between two rows, [mat_data] the bytes from the first row on.
    The default-constructed [cv::Mat()] (null data pointer) is the 0 x 0
    matrix. *)
Record Mat := mkMat {
  mat_rows : Z;
  mat_cols : Z;
  mat_channels : Z;
  mat_step : Z;
  mat_data : list Z
}.

Definition Mat_default : Mat := mkMat 0 0 1 0 [].

(** [cv::Mat::empty()]: no element. *)
Definition Mat_empty (m : Mat) : bool := (mat_rows m * mat_cols m =? 0).

Inductive ImreadModes := IMREAD_GRAYSCALE | IMREAD_UNCHANGED.
Inductive ColorConversionCodes :=
  COLOR_BGR2BGRA | COLOR_GRAY2BGRA | COLOR_BGRA2GRAY.

Record Point := mkPoint { pt_x : Z; pt_y : Z }.

(** What [cv::minMaxLoc] writes through its four output pointers. *)
Record MinMax := mkMinMax {
  min_val : double;
  max_val : double;
  min_loc : Point;
  max_loc : Point
}.

(** The OpenCV entry points the filter calls.  [cv_surface] is the
    correlation surface written by [cv::matchTemplate]. *)
Class OpenCV := {
  cv_imread : string -> ImreadModes -> Mat;
  cv_cvtColor : Mat -> ColorConversionCodes -> Mat;
  cv_resize_area : Mat -> Z -> Z -> Mat;   (* dsize = (width, height), INTER_AREA *)
  cv_surface : Type;
  cv_matchTemplate_ccoeff_normed : Mat -> Mat -> cv_surface;
  cv_minMaxLoc : cv_surface -> MinMax
}.

(* ===================================================================== *)
(** ** The host's frame and settings objects *)
(* ===================================================================== *)

Inductive video_format :=
  | VIDEO_FORMAT_NONE
  | VIDEO_FORMAT_I420
  | VIDEO_FORMAT_NV12
  | VIDEO_FORMAT_YVYU
  | VIDEO_FORMAT_YUY2
  | VIDEO_FORMAT_UYVY
  | VIDEO_FORMAT_RGBA
  | VIDEO_FORMAT_BGRA
  | VIDEO_FORMAT_BGRX
  | VIDEO_FORMAT_Y800
  | VIDEO_FORMAT_I444.

Definition video_format_eqb (a b : video_format) : bool :=
  match a, b with
  | VIDEO_FORMAT_NONE, VIDEO_FORMAT_NONE
  | VIDEO_FORMAT_I420, VIDEO_FORMAT_I420
  | VIDEO_FORMAT_NV12, VIDEO_FORMAT_NV12
  | VIDEO_FORMAT_YVYU, VIDEO_FORMAT_YVYU
  | VIDEO_FORMAT_YUY2, VIDEO_FORMAT_YUY2
  | VIDEO_FORMAT_UYVY, VIDEO_FORMAT_UYVY
  | VIDEO_FORMAT_RGBA, VIDEO_FORMAT_RGBA
  | VIDEO_FORMAT_BGRA, VIDEO_FORMAT_BGRA
  | VIDEO_FORMAT_BGRX, VIDEO_FORMAT_BGRX
  | VIDEO_FORMAT_Y800, VIDEO_FORMAT_Y800
  | VIDEO_FORMAT_I444, VIDEO_FORMAT_I444 => true
  | _, _ => false
  end.

(** The fields of [obs_source_frame] the filter reads: plane 0 of [data]
    and [linesize], the dimensions and the format. *)
Record obs_source_frame := mkFrame {
  frame_data : list Z;        (* data[0] *)
  frame_linesize : Z;         (* linesize[0], uint32_t *)
  frame_width : Z;            (* uint32_t *)
  frame_height : Z;           (* uint32_t *)
  frame_format : video_format
}.

(** [obs_data_t], seen through its typed getters. *)
Record obs_data_t := mkObsData {
  obs_data_get_string : string -> string;
  obs_data_get_double : string -> double;
  obs_data_get_int : string -> Z;       (* long long *)
  obs_data_get_bool : string -> bool
}.

(* ===================================================================== *)
(** ** The filter instance *)
(* ===================================================================== *)

Record shape_overlay_filter_data := mkFilter {
  template_path : string;
  overlay_path : string;

  template_gray : Mat;
  overlay_bgra : Mat;
  overlay_draw : Mat;

  threshold : float;
  interval_ms : Z;            (* uint32_t *)
  opacity : float;
  offset_x : Z;
  offset_y : Z;
  scale_overlay : bool;
  only_when_matched : bool;

  last_detect_ts : Z;         (* uint64_t *)
  last_x : Z;
  last_y : Z;
  last_score : float;
  last_valid : bool;
  warned_format : bool
}.

(** The member initialisers of the struct. *)
Definition filter_new : shape_overlay_filter_data :=
  {| template_path := ""; overlay_path := "";
     template_gray := Mat_default; overlay_bgra := Mat_default;
     overlay_draw := Mat_default;
     threshold := f32_0_8; interval_ms := 100; opacity := f32_one;
     offset_x := 0; offset_y := 0;
     scale_overlay := true; only_when_matched := true;
     last_detect_ts := 0; last_x := 0; last_y := 0;
     last_score := f32_zero; last_valid := false;
     warned_format := false |}.

(** What a call leaves behind besides its return value: the warning
    written with [blog], and the calls to the matcher and to the
    compositor. *)
Inductive event :=
  | LogWarning (fmt : video_format)
  | DetectTemplate
  | BlendOverlay.

Definition is_warning (e : event) : bool :=
  match e with LogWarning _ => true | _ => false end.
Definition is_detect (e : event) : bool :=
  match e with DetectTemplate => true | _ => false end.

Definition count_events (p : event -> bool) (log : list event) : nat :=
  length (filter (fun e => p e = true) log).

(* ===================================================================== *)
(** ** Byte buffers *)
(* ===================================================================== *)

(** [buf[i]] and [buf[i] = v] at a byte offset.  An access past the end of
    the buffer is undefined in C++; here a read gives 0 and a write is
    dropped. *)
Definition load (buf : list Z) (i : Z) : Z := default 0 (buf !! Z.to_nat i).
Definition store (buf : list Z) (i : Z) (v : Z) : list Z := <[Z.to_nat i := v]> buf.

(* ===================================================================== *)
(** ** Compositor: [blend_overlay_bgra] *)
(* ===================================================================== *)

(** [static_cast<int>(static_cast<float>(src_px[3]) * opacity + 0.5f)] *)
Definition scaled_alpha (a : Z) (opacity : float) : Z :=
  f32_to_int (f32_add (f32_mul (f32_of_Z a) opacity) f32_half).

(** [static_cast<uint8_t>((s * src_alpha + d * inv_alpha + 127) / 255)];
    [/] on [int] truncates toward zero. *)
Definition blend_channel (s d src_alpha inv_alpha : Z) : Z :=
  to_uint8 ((s * src_alpha + d * inv_alpha + 127) ÷ 255).

(** The body of the inner loop: [src_px] and [dst_px] are the byte offsets
    of the overlay pixel in [src] and of the frame pixel in [dst]. *)
Definition blend_px (src : list Z) (src_px : Z) (opacity : float)
    (dst : list Z) (dst_px : Z) : list Z :=
  let src_alpha := scaled_alpha (load src (src_px + 3)) opacity in
  if src_alpha <=? 0 then dst
  else
    let inv_alpha := 255 - src_alpha in
    let dst := store dst (dst_px + 0)
      (blend_channel (load src (src_px + 0)) (load dst (dst_px + 0)) src_alpha inv_alpha) in
    let dst := store dst (dst_px + 1)
      (blend_channel (load src (src_px + 1)) (load dst (dst_px + 1)) src_alpha inv_alpha) in
    let dst := store dst (dst_px + 2)
      (blend_channel (load src (src_px + 2)) (load dst (dst_px + 2)) src_alpha inv_alpha) in
    store dst (dst_px + 3) 255.

(** The inner loop
    [for (ox = overlay_x0, fx = start_x; fx < end_x; ++fx, ++ox)],
    with [n] the number of iterations left. *)
Fixpoint blend_cols (n : nat) (src : list Z) (src_row dst_row : Z)
    (opacity : float) (ox fx : Z) (dst : list Z) : list Z :=
  match n with
  | O => dst
  | S n' =>
      let src_px := src_row + ox * 4 in
      let dst_px := dst_row + fx * 4 in
      blend_cols n' src src_row dst_row opacity (ox + 1) (fx + 1)
        (blend_px src src_px opacity dst dst_px)
  end.

(** The outer loop
    [for (oy = overlay_y0, fy = start_y; fy < end_y; ++fy, ++oy)]. *)
Fixpoint blend_rows (n : nat) (overlay : Mat) (dst_linesize : Z)
    (opacity : float) (overlay_x0 start_x end_x : Z) (oy fy : Z)
    (dst : list Z) : list Z :=
  match n with
  | O => dst
  | S n' =>
      let src_row := oy * mat_step overlay in          (* overlay.ptr<uint8_t>(oy) *)
      let dst_row := fy * dst_linesize in
      blend_rows n' overlay dst_linesize opacity overlay_x0 start_x end_x
        (oy + 1) (fy + 1)
        (blend_cols (Z.to_nat (end_x - start_x)) (mat_data overlay)
           src_row dst_row opacity overlay_x0 start_x dst)
  end.

Definition blend_overlay_bgra (dst : list Z) (dst_linesize : Z)
    (frame_w frame_h : Z) (overlay : Mat) (dst_x dst_y : Z)
    (opacity : float) : list Z :=
  if Mat_empty overlay then dst
  else
    let overlay_w := mat_cols overlay in
    let overlay_h := mat_rows overlay in
    let start_x := Z.max 0 dst_x in
    let start_y := Z.max 0 dst_y in
    let end_x := Z.min frame_w (dst_x + overlay_w) in
    let end_y := Z.min frame_h (dst_y + overlay_h) in
    if (start_x >=? end_x) || (start_y >=? end_y) then dst
    else
      let overlay_x0 := start_x - dst_x in
      let overlay_y0 := start_y - dst_y in
      blend_rows (Z.to_nat (end_y - start_y)) overlay dst_linesize opacity
        overlay_x0 start_x end_x overlay_y0 start_y dst.

(* ===================================================================== *)
(** ** Compositor with checked accesses *)
(* ===================================================================== *)

(** [blend_overlay_bgra] once more, with every access to a buffer
    checked against its bounds: [None] stands for a read or a write
    outside the buffer, which C++ leaves undefined. *)

Definition load_checked (buf : list Z) (i : Z) : option Z :=
  if 0 <=? i then buf !! Z.to_nat i else None.

Definition store_checked (buf : list Z) (i : Z) (v : Z) : option (list Z) :=
  if (0 <=? i) && (i <? Z.of_nat (length buf))
  then Some (<[Z.to_nat i := v]> buf) else None.

Definition blend_px_checked (src : list Z) (src_px : Z) (opacity : float)
    (dst : list Z) (dst_px : Z) : option (list Z) :=
  a ← load_checked src (src_px + 3);
  let src_alpha := scaled_alpha a opacity in
  if src_alpha <=? 0 then Some dst
  else
    let inv_alpha := 255 - src_alpha in
    s0 ← load_checked src (src_px + 0);
    d0 ← load_checked dst (dst_px + 0);
    dst ← store_checked dst (dst_px + 0) (blend_channel s0 d0 src_alpha inv_alpha);
    s1 ← load_checked src (src_px + 1);
    d1 ← load_checked dst (dst_px + 1);
    dst ← store_checked dst (dst_px + 1) (blend_channel s1 d1 src_alpha inv_alpha);
    s2 ← load_checked src (src_px + 2);
    d2 ← load_checked dst (dst_px + 2);
    dst ← store_checked dst (dst_px + 2) (blend_channel s2 d2 src_alpha inv_alpha);
    store_checked dst (dst_px + 3) 255.

Fixpoint blend_cols_checked (n : nat) (src : list Z) (src_row dst_row : Z)
    (opacity : float) (ox fx : Z) (dst : list Z) : option (list Z) :=
  match n with
  | O => Some dst
  | S n' =>
      let src_px := src_row + ox * 4 in
      let dst_px := dst_row + fx * 4 in
      dst ← blend_px_checked src src_px opacity dst dst_px;
      blend_cols_checked n' src src_row dst_row opacity (ox + 1) (fx + 1) dst
  end.

Fixpoint blend_rows_checked (n : nat) (overlay : Mat) (dst_linesize : Z)
    (opacity : float) (overlay_x0 start_x end_x : Z) (oy fy : Z)
    (dst : list Z) : option (list Z) :=
  match n with
  | O => Some dst
  | S n' =>
      let src_row := oy * mat_step overlay in
      let dst_row := fy * dst_linesize in
      dst ← blend_cols_checked (Z.to_nat (end_x - start_x)) (mat_data overlay)
               src_row dst_row opacity overlay_x0 start_x dst;
      blend_rows_checked n' overlay dst_linesize opacity overlay_x0 start_x end_x
        (oy + 1) (fy + 1) dst
  end.

Definition blend_overlay_bgra_checked (dst : list Z) (dst_linesize : Z)
    (frame_w frame_h : Z) (overlay : Mat) (dst_x dst_y : Z)
    (opacity : float) : option (list Z) :=
  if Mat_empty overlay then Some dst
  else
    let overlay_w := mat_cols overlay in
    let overlay_h := mat_rows overlay in
    let start_x := Z.max 0 dst_x in
    let start_y := Z.max 0 dst_y in
    let end_x := Z.min frame_w (dst_x + overlay_w) in
    let end_y := Z.min frame_h (dst_y + overlay_h) in
    if (start_x >=? end_x) || (start_y >=? end_y) then Some dst
    else
      let overlay_x0 := start_x - dst_x in
      let overlay_y0 := start_y - dst_y in
      blend_rows_checked (Z.to_nat (end_y - start_y)) overlay dst_linesize opacity
        overlay_x0 start_x end_x overlay_y0 start_y dst.

(* ===================================================================== *)
(** ** Matcher: [detect_template] *)
(* ===================================================================== *)

(** The three output pointers: [None] is a null pointer, [Some v] a
    pointer to a cell that currently holds [v]. *)
Record outputs := mkOutputs {
  out_x : option Z;
  out_y : option Z;
  out_score : option float
}.

(** [if (p) *p = v;] *)
Definition assign {A : Type} (p : option A) (v : A) : option A :=
  match p with
  | Some _ => Some v
  | None => None
  end.

Section Filter.

Context `{cv : OpenCV}.

Definition detect_template (frame_gray templ_gray : Mat) (threshold : float)
    (outs : outputs) : bool * outputs :=
  if Mat_empty frame_gray || Mat_empty templ_gray then (false, outs)
  else if (mat_cols templ_gray >? mat_cols frame_gray)
          || (mat_rows templ_gray >? mat_rows frame_gray) then (false, outs)
  else
    let result := cv_matchTemplate_ccoeff_normed frame_gray templ_gray in
    let mm := cv_minMaxLoc result in
    let outs := mkOutputs (out_x outs) (out_y outs)
                  (assign (out_score outs) (f64_to_f32 (max_val mm))) in
    if geb (max_val mm) (f32_to_f64 threshold) then
      (true, mkOutputs (assign (out_x outs) (pt_x (max_loc mm)))
                       (assign (out_y outs) (pt_y (max_loc mm)))
                       (out_score outs))
    else (false, outs).

(* =================================================================== *)
(** ** Image store: loading and [shape_overlay_filter_update] *)
(* =================================================================== *)

Definition load_template_gray (path : string) : Mat :=
  if String.eqb path "" then Mat_default
  else cv_imread path IMREAD_GRAYSCALE.

Definition load_overlay_bgra (path : string) : Mat :=
  if String.eqb path "" then Mat_default
  else
    let img := cv_imread path IMREAD_UNCHANGED in
    if Mat_empty img then img
    else if mat_channels img =? 4 then img
    else if mat_channels img =? 3 then cv_cvtColor img COLOR_BGR2BGRA
    else if mat_channels img =? 1 then cv_cvtColor img COLOR_GRAY2BGRA
    else Mat_default.

Definition shape_overlay_filter_update (filter : shape_overlay_filter_data)
    (settings : obs_data_t) : shape_overlay_filter_data :=
  let template_path' := obs_data_get_string settings "template_path" in
  let overlay_path' := obs_data_get_string settings "overlay_path" in
  let threshold' := f64_to_f32 (obs_data_get_double settings "threshold") in
  let interval_ms' := to_uint32 (obs_data_get_int settings "interval_ms") in
  let opacity' :=
    f64_to_f32 (f64_div (obs_data_get_double settings "opacity") f64_100) in
  let offset_x' := to_int (obs_data_get_int settings "offset_x") in
  let offset_y' := to_int (obs_data_get_int settings "offset_y") in
  let scale_overlay' := obs_data_get_bool settings "scale_overlay" in
  let only_when_matched' := obs_data_get_bool settings "only_when_matched" in
  let opacity' := clamp opacity' f32_zero f32_one in
  let threshold' := clamp threshold' f32_zero f32_one in
  let template_gray' := load_template_gray template_path' in
  let overlay_bgra' := load_overlay_bgra overlay_path' in
  let overlay_draw' :=
    if negb (Mat_empty overlay_bgra') && scale_overlay'
       && negb (Mat_empty template_gray')
    then cv_resize_area overlay_bgra'
           (mat_cols template_gray') (mat_rows template_gray')
    else overlay_bgra' in
  {| template_path := template_path'; overlay_path := overlay_path';
     template_gray := template_gray'; overlay_bgra := overlay_bgra';
     overlay_draw := overlay_draw';
     threshold := threshold'; interval_ms := interval_ms';
     opacity := opacity';
     offset_x := offset_x'; offset_y := offset_y';
     scale_overlay := scale_overlay';
     only_when_matched := only_when_matched';
     last_detect_ts := last_detect_ts filter;
     last_x := last_x filter; last_y := last_y filter;
     last_score := last_score filter;
     last_valid := false;
     warned_format := warned_format filter |}.

Definition shape_overlay_filter_create (settings : obs_data_t)
    : shape_overlay_filter_data :=
  shape_overlay_filter_update filter_new settings.

(* =================================================================== *)
(** ** Frame pipeline: [shape_overlay_filter_video] *)
(* =================================================================== *)

Definition set_warned_format (filter : shape_overlay_filter_data)
    : shape_overlay_filter_data :=
  {| template_path := template_path filter; overlay_path := overlay_path filter;
     template_gray := template_gray filter; overlay_bgra := overlay_bgra filter;
     overlay_draw := overlay_draw filter;
     threshold := threshold filter; interval_ms := interval_ms filter;
     opacity := opacity filter;
     offset_x := offset_x filter; offset_y := offset_y filter;
     scale_overlay := scale_overlay filter;
     only_when_matched := only_when_matched filter;
     last_detect_ts := last_detect_ts filter;
     last_x := last_x filter; last_y := last_y filter;
     last_score := last_score filter;
     last_valid := last_valid filter;
     warned_format := true |}.

(** The write-back under the second lock. *)
Definition set_detection (filter : shape_overlay_filter_data)
    (ts x y : Z) (valid : bool) (score : float) : shape_overlay_filter_data :=
  {| template_path := template_path filter; overlay_path := overlay_path filter;
     template_gray := template_gray filter; overlay_bgra := overlay_bgra filter;
     overlay_draw := overlay_draw filter;
     threshold := threshold filter; interval_ms := interval_ms filter;
     opacity := opacity filter;
     offset_x := offset_x filter; offset_y := offset_y filter;
     scale_overlay := scale_overlay filter;
     only_when_matched := only_when_matched filter;
     last_detect_ts := ts;
     last_x := x; last_y := y;
     last_score := score;
     last_valid := valid;
     warned_format := warned_format filter |}.

(** The locals [last_detect_ts, last_x, last_y, last_valid, last_score]
    of [shape_overlay_filter_video]. *)
Record detection := mkDetection {
  d_ts : Z;
  d_x : Z;
  d_y : Z;
  d_valid : bool;
  d_score : float
}.

Definition snapshot (filter : shape_overlay_filter_data) : detection :=
  mkDetection (last_detect_ts filter) (last_x filter) (last_y filter)
    (last_valid filter) (last_score filter).

(** [interval_ms == 0 || now - last_detect_ts >= interval_ns], on
    [uint64_t]. *)
Definition should_detect (interval_ms now last_detect_ts : Z) : bool :=
  let interval_ns := to_uint64 (to_uint64 interval_ms * 1000000) in
  (interval_ms =? 0) || (to_uint64 (now - last_detect_ts) >=? interval_ns).

(** The body of [if (should_detect) { ... }]: the new values of the
    locals. *)
Definition detect_step (filter : shape_overlay_filter_data)
    (frame : obs_source_frame) (now : Z) (d : detection) : detection :=
  let frame_bgra := mkMat (to_int (frame_height frame)) (to_int (frame_width frame))
                      4 (frame_linesize frame) (frame_data frame) in
  let frame_gray := cv_cvtColor frame_bgra COLOR_BGRA2GRAY in
  let '(matched, outs) :=
    detect_template frame_gray (template_gray filter) (threshold filter)
      (mkOutputs (Some 0) (Some 0) (Some f32_zero)) in
  let score := default f32_zero (out_score outs) in
  let found_x := default 0 (out_x outs) in
  let found_y := default 0 (out_y outs) in
  let last_score := score in
  if matched then mkDetection now found_x found_y true last_score
  else if only_when_matched filter then mkDetection now (d_x d) (d_y d) false last_score
  else mkDetection now (d_x d) (d_y d) (d_valid d) last_score.

(** One call of the [filter_video] callback.  [frame = None] is the null
    pointer; [now] is the value [os_gettime_ns()] returns during the
    call.  The result is the returned frame pointer (the same frame
    object, its plane 0 possibly rewritten), the instance afterwards and
    the events of the call. *)
Definition shape_overlay_filter_video (filter : shape_overlay_filter_data)
    (frame : option obs_source_frame) (now : Z)
    : option obs_source_frame * shape_overlay_filter_data * list event :=
  match frame with
  | None => (None, filter, [])
  | Some fr =>
      if negb (video_format_eqb (frame_format fr) VIDEO_FORMAT_BGRA)
         && negb (video_format_eqb (frame_format fr) VIDEO_FORMAT_BGRX)
      then
        if negb (warned_format filter)
        then (Some fr, set_warned_format filter, [LogWarning (frame_format fr)])
        else (Some fr, filter, [])
      else if Mat_empty (template_gray filter) || Mat_empty (overlay_draw filter)
      then (Some fr, filter, [])
      else
        let d0 := snapshot filter in
        let due := should_detect (interval_ms filter) now (d_ts d0) in
        let d := if due then detect_step filter fr now d0 else d0 in
        let log := if due then [DetectTemplate] else [] in
        let filter' :=
          if due (* state_updated *)
          then set_detection filter (d_ts d) (d_x d) (d_y d) (d_valid d) (d_score d)
          else filter in
        if negb (d_valid d) then (Some fr, filter', log)
        else
          let draw_x := d_x d + offset_x filter in
          let draw_y := d_y d + offset_y filter in
          let data' :=
            blend_overlay_bgra (frame_data fr) (frame_linesize fr)
              (to_int (frame_width fr)) (to_int (frame_height fr))
              (overlay_draw filter) draw_x draw_y (opacity filter) in
          (Some (mkFrame data' (frame_linesize fr) (frame_width fr)
                   (frame_height fr) (frame_format fr)),
           filter', log ++ [BlendOverlay])
  end.

(** The calls the host makes on one instance, each run to its end before
    the next starts. *)
Inductive call :=
  | CallUpdate (settings : obs_data_t)
  | CallVideo (frame : option obs_source_frame) (now : Z).

Fixpoint run (filter : shape_overlay_filter_data) (calls : list call)
    : shape_overlay_filter_data * list event :=
  match calls with
  | [] => (filter, [])
  | CallUpdate settings :: rest =>
      run (shape_overlay_filter_update filter settings) rest
  | CallVideo frame now :: rest =>
      let '(_, filter', log) := shape_overlay_filter_video filter frame now in
      let '(filter'', log') := run filter' rest in
      (filter'', log ++ log')
  end.

End Filter.

(* ===================================================================== *)
(** ** The host's settings store and property sheet *)
(* ===================================================================== *)

(** [static_cast<long long>(double)]: truncation toward zero; outside
    the range of [long long] (and for NaN) the x86 "integer indefinite"
    value. *)
Definition f64_to_int64 (x : double) : Z :=
  match x with
  | S754_zero _ => 0
  | S754_finite s m e =>
      let mag := match e with
                 | Z0 => Zpos m
                 | Zpos _ => Z.shiftl (Zpos m) e
                 | Zneg p => Z.shiftr (Zpos m) (Zpos p)
                 end in
      let v := if s then - mag else mag in
      if (- 2 ^ 63 <=? v) && (v <? 2 ^ 63) then v else - 2 ^ 63
  | _ => - 2 ^ 63
  end.

(** A value held under a key of an [obs_data_t]. *)
Inductive obs_data_item :=
  | OBS_DATA_STRING (s : string)
  | OBS_DATA_INT (n : Z)            (* OBS_DATA_NUMBER, integer *)
  | OBS_DATA_DOUBLE (d : double)    (* OBS_DATA_NUMBER, floating point *)
  | OBS_DATA_BOOLEAN (b : bool).

(** The settings object behind the getters: for each key the value the
    user has set and the default registered for it.  A getter reads the
    user's value if there is one, the default otherwise; a missing key
    or a value of another kind reads as the zero of the getter's type,
    and the two kinds of number convert into each other. *)
Record obs_data := mkObsStore {
  od_values : gmap string obs_data_item;
  od_defaults : gmap string obs_data_item
}.

Definition obs_data_create : obs_data := mkObsStore ∅ ∅.

Definition get_item (data : obs_data) (name : string) : option obs_data_item :=
  match od_values data !! name with
  | Some v => Some v
  | None => od_defaults data !! name
  end.

Definition item_string (item : option obs_data_item) : string :=
  match item with Some (OBS_DATA_STRING s) => s | _ => "" end.
Definition item_double (item : option obs_data_item) : double :=
  match item with
  | Some (OBS_DATA_DOUBLE d) => d
  | Some (OBS_DATA_INT n) => f64_of_Z n
  | _ => S754_zero false
  end.
Definition item_int (item : option obs_data_item) : Z :=
  match item with
  | Some (OBS_DATA_INT n) => n
  | Some (OBS_DATA_DOUBLE d) => f64_to_int64 d
  | _ => 0
  end.
Definition item_bool (item : option obs_data_item) : bool :=
  match item with Some (OBS_DATA_BOOLEAN b) => b | _ => false end.

(** The typed getters of a settings object. *)
Definition getters (data : obs_data) : obs_data_t :=
  {| obs_data_get_string := fun name => item_string (get_item data name);
     obs_data_get_double := fun name => item_double (get_item data name);
     obs_data_get_int := fun name => item_int (get_item data name);
     obs_data_get_bool := fun name => item_bool (get_item data name) |}.

Definition obs_data_set_default_double (data : obs_data) (name : string)
    (val : double) : obs_data :=
  mkObsStore (od_values data) (<[name := OBS_DATA_DOUBLE val]> (od_defaults data)).
Definition obs_data_set_default_int (data : obs_data) (name : string)
    (val : Z) : obs_data :=
  mkObsStore (od_values data) (<[name := OBS_DATA_INT val]> (od_defaults data)).
Definition obs_data_set_default_bool (data : obs_data) (name : string)
    (val : bool) : obs_data :=
  mkObsStore (od_values data) (<[name := OBS_DATA_BOOLEAN val]> (od_defaults data)).

Definition f64_0_8 : double := f64_div (f64_of_Z 8) (f64_of_Z 10).   (* 0.8 *)
Definition f64_0_01 : double := f64_div (f64_of_Z 1) (f64_of_Z 100). (* 0.01 *)
Definition f64_one : double := f64_of_Z 1.                           (* 1.0 *)

Definition shape_overlay_filter_defaults (settings : obs_data) : obs_data :=
  let settings := obs_data_set_default_double settings "threshold" f64_0_8 in
  let settings := obs_data_set_default_int settings "interval_ms" 100 in
  let settings := obs_data_set_default_double settings "opacity" f64_100 in
  let settings := obs_data_set_default_int settings "offset_x" 0 in
  let settings := obs_data_set_default_int settings "offset_y" 0 in
  let settings := obs_data_set_default_bool settings "scale_overlay" true in
  obs_data_set_default_bool settings "only_when_matched" true.

Inductive obs_path_type := OBS_PATH_FILE | OBS_PATH_FILE_SAVE | OBS_PATH_DIRECTORY.

(** One control of the property sheet, as the [obs_properties_add_*]
    call describes it. *)
Inductive obs_property :=
  | PropPath (name description : string) (type : obs_path_type)
      (filter : string) (default_path : option string)
  | PropFloatSlider (name description : string) (min max step : double)
  | PropInt (name description : string) (min max step : Z)
  | PropBool (name description : string).

Definition obs_properties_t := list obs_property.

Definition obs_properties_create : obs_properties_t := [].
Definition obs_properties_add_path (props : obs_properties_t)
    (name description : string) (type : obs_path_type) (filter : string)
    (default_path : option string) : obs_properties_t :=
  props ++ [PropPath name description type filter default_path].
Definition obs_properties_add_float_slider (props : obs_properties_t)
    (name description : string) (min max step : double) : obs_properties_t :=
  props ++ [PropFloatSlider name description min max step].
Definition obs_properties_add_int (props : obs_properties_t)
    (name description : string) (min max step : Z) : obs_properties_t :=
  props ++ [PropInt name description min max step].
Definition obs_properties_add_bool (props : obs_properties_t)
    (name description : string) : obs_properties_t :=
  props ++ [PropBool name description].

(** The filter of the two file dialogs, the literal of the
    [obs_properties_add_path] calls written in two pieces. *)
Definition png_filter : string := "PNG files (" +:+ "*.png)".

Section Locale.

(** [obs_module_text]: the lookup in the module's locale. *)
Variable obs_module_text : string -> string.

Definition shape_overlay_filter_get_name : string :=
  obs_module_text "ShapeOverlayFilter".

Definition shape_overlay_filter_properties : obs_properties_t :=
  let props := obs_properties_create in
  let props := obs_properties_add_path props "template_path"
                 (obs_module_text "TemplatePath") OBS_PATH_FILE png_filter None in
  let props := obs_properties_add_path props "overlay_path"
                 (obs_module_text "OverlayPath") OBS_PATH_FILE png_filter None in
  let props := obs_properties_add_float_slider props "threshold"
                 (obs_module_text "Threshold") (S754_zero false) f64_one f64_0_01 in
  let props := obs_properties_add_int props "interval_ms"
                 (obs_module_text "IntervalMs") 0 2000 10 in
  let props := obs_properties_add_float_slider props "opacity"
                 (obs_module_text "Opacity") (S754_zero false) f64_100 f64_one in
  let props := obs_properties_add_int props "offset_x"
                 (obs_module_text "OffsetX") (-4096) 4096 1 in
  let props := obs_properties_add_int props "offset_y"
                 (obs_module_text "OffsetY") (-4096) 4096 1 in
  let props := obs_properties_add_bool props "scale_overlay"
                 (obs_module_text "ScaleToTemplate") in
  let props := obs_properties_add_bool props "only_when_matched"
                 (obs_module_text "OnlyWhenMatched") in
  props.

End Locale.

(* ===================================================================== *)
(** ** Predicates used to state the properties *)
(* ===================================================================== *)

(** The two layouts the callback accepts. *)
Definition supported_format (fmt : video_format) : bool :=
  video_format_eqb fmt VIDEO_FORMAT_BGRA || video_format_eqb fmt VIDEO_FORMAT_BGRX.

(** A call that hands the callback a frame in another layout. *)
Definition unsupported_call (c : call) : bool :=
  match c with
  | CallVideo (Some fr) _ => negb (supported_format (frame_format fr))
  | _ => false
  end.

(** The inputs on which [detect_template] returns before calling OpenCV. *)
Definition fails_closed (frame_gray templ_gray : Mat) : bool :=
  Mat_empty frame_gray || Mat_empty templ_gray
  || (mat_cols templ_gray >? mat_cols frame_gray)
  || (mat_rows templ_gray >? mat_rows frame_gray).

(** The single-channel view of the frame handed to the matcher. *)
Definition frame_gray_of `{cv : OpenCV} (fr : obs_source_frame) : Mat :=
  cv_cvtColor
    (mkMat (to_int (frame_height fr)) (to_int (frame_width fr)) 4
       (frame_linesize fr) (frame_data fr))
    COLOR_BGRA2GRAY.

(** The frame after the overlay has been drawn at the stored location
    plus the configured offset. *)
Definition composited (filter : shape_overlay_filter_data) (fr : obs_source_frame)
    (x y : Z) : obs_source_frame :=
  mkFrame
    (blend_overlay_bgra (frame_data fr) (frame_linesize fr)
       (to_int (frame_width fr)) (to_int (frame_height fr))
       (overlay_draw filter) (x + offset_x filter) (y + offset_y filter)
       (opacity filter))
    (frame_linesize fr) (frame_width fr) (frame_height fr) (frame_format fr).

(** Whole milliseconds elapsed between two readings of the nanosecond
    clock. *)
Definition elapsed_ms (now last_detect_ts : Z) : Z :=
  (now - last_detect_ts) / 1000000.

(** The scheduler's gate: no interval, or at least the interval elapsed
    since the last attempt. *)
Definition due (interval_ms now last_detect_ts : Z) : Prop :=
  interval_ms = 0 \/ elapsed_ms now last_detect_ts >= interval_ms.

(** "The score output is always written": what the score cell holds after
    the call does not depend on what it held before. *)
Definition score_always_written `{cv : OpenCV} : Prop :=
  forall frame_gray templ_gray threshold x y s s',
    out_score (snd (detect_template frame_gray templ_gray threshold
                      (mkOutputs x y (Some s)))) =
    out_score (snd (detect_template frame_gray templ_gray threshold
                      (mkOutputs x y (Some s')))).

(** Pixel [(fx, fy)] of the frame lies under the overlay placed at
    [(dst_x, dst_y)] and inside the frame. *)
Definition in_intersection (frame_w frame_h : Z) (overlay : Mat)
    (dst_x dst_y fx fy : Z) : Prop :=
  Z.max 0 dst_x <= fx < Z.min frame_w (dst_x + mat_cols overlay)
  /\ Z.max 0 dst_y <= fy < Z.min frame_h (dst_y + mat_rows overlay).

(** Byte offset [k] is one of the four bytes of pixel [(fx, fy)]. *)
Definition pixel_byte (dst_linesize fx fy k : Z) : Prop :=
  fy * dst_linesize + fx * 4 <= k < fy * dst_linesize + fx * 4 + 4.

(** Mantissa and exponent of a finite [float] once promoted to [double]:
    the mantissa is shifted up to 53 bits. *)
Definition widened (m : positive) (e : Z) : positive * Z :=
  let k := 53 - Zpos (digits2_pos m) in
  (Pos.iter xO m (Z.to_pos k), e - k).

(** What byte [c] of a frame pixel that holds [d] becomes when the overlay
    pixel at offset [src_px] of [src] is blended over it. *)
Definition blended_byte (src : list Z) (src_px : Z) (opacity : float)
    (c d : Z) : Z :=
  let src_alpha := scaled_alpha (load src (src_px + 3)) opacity in
  if src_alpha <=? 0 then d
  else if c =? 3 then 255
  else blend_channel (load src (src_px + c)) d src_alpha (255 - src_alpha).

(** A [float] in canonical form between 0 and 1. *)
Definition in_unit_interval (x : float) : Prop :=
  valid_binary 24 128 x = true
  /\ SFleb f32_zero x = true /\ SFleb x f32_one = true.

(** The elements of a buffer are bytes. *)
Definition bytes (buf : list Z) : Prop := Forall (fun b => 0 <= b < 256) buf.

(** The nearest integer to a [float], halves away from zero ([roundf]). *)
Definition round_to_nearest (x : float) : Z :=
  match x with
  | S754_finite s m e =>
      let mag := match e with
                 | Z0 => Zpos m
                 | Zpos _ => Zpos m * 2 ^ e
                 | Zneg k => (2 * Zpos m + 2 ^ Zpos k) / 2 ^ (Zpos k + 1)
                 end in
      if s then - mag else mag
  | _ => 0
  end.

(** The largest [float] below one half, 0.49999997. *)
Definition f32_pred_half : float := S754_finite false 16777215 (-25).

(** [x] is that number. *)
Definition is_pred_half (x : float) : bool :=
  match x with
  | S754_finite false m e => (m =? 16777215)%positive && (e =? -25)
  | _ => false
  end.

(** The effective alpha as the specification words it:
    [round(overlayAlpha * opacity)]. *)
Definition round_alpha (a : Z) (opacity : float) : Z :=
  round_to_nearest (f32_mul (f32_of_Z a) opacity).

(** The three components of what one call of the callback leaves. *)
Definition returned_frame
    (r : option obs_source_frame * shape_overlay_filter_data * list event)
    : option obs_source_frame := fst (fst r).
Definition state_after
    (r : option obs_source_frame * shape_overlay_filter_data * list event)
    : shape_overlay_filter_data := snd (fst r).
Definition events_of
    (r : option obs_source_frame * shape_overlay_filter_data * list event)
    : list event := snd r.

Definition is_blend (e : event) : bool :=
  match e with BlendOverlay => true | _ => false end.

(** The members written by [shape_overlay_filter_update] from the
    settings. *)
Definition configuration (filter : shape_overlay_filter_data) :=
  (template_path filter, overlay_path filter,
   template_gray filter, overlay_bgra filter, overlay_draw filter,
   threshold filter, interval_ms filter, opacity filter,
   offset_x filter, offset_y filter,
   scale_overlay filter, only_when_matched filter).

(** The same frame object in the other supported layout. *)
Definition with_format (fr : obs_source_frame) (fmt : video_format)
    : obs_source_frame :=
  mkFrame (frame_data fr) (frame_linesize fr) (frame_width fr)
    (frame_height fr) fmt.

(** Byte offset of pixel [(ox, oy)] in the overlay's buffer. *)
Definition overlay_px (overlay : Mat) (ox oy : Z) : Z :=
  oy * mat_step overlay + ox * 4.

(** Every pixel of the overlay has alpha 0. *)
Definition fully_transparent (overlay : Mat) : Prop :=
  forall ox oy, 0 <= ox < mat_cols overlay -> 0 <= oy < mat_rows overlay ->
    load (mat_data overlay) (overlay_px overlay ox oy + 3) = 0.

(** A [float] that is NaN or lies between 0 and 1. *)
Definition unit_or_nan (x : float) : Prop :=
  is_nan x = true \/ in_unit_interval x.

(** The ranges of the members that hold settings. *)
Definition well_formed (filter : shape_overlay_filter_data) : Prop :=
  0 <= interval_ms filter < 2 ^ 32
  /\ - 2 ^ 31 <= offset_x filter < 2 ^ 31
  /\ - 2 ^ 31 <= offset_y filter < 2 ^ 31
  /\ unit_or_nan (threshold filter)
  /\ unit_or_nan (opacity filter).

(** The settings keep every number within the range of its control. *)
Definition within_ranges (props : list obs_property) (settings : obs_data_t)
    : Prop :=
  forall p, In p props ->
    match p with
    | PropInt name _ lo hi _ => lo <= obs_data_get_int settings name <= hi
    | PropFloatSlider name _ lo hi _ =>
        SFleb lo (obs_data_get_double settings name) = true
        /\ SFleb (obs_data_get_double settings name) hi = true
    | _ => True
    end.

(** The keys for which [shape_overlay_filter_defaults] registers a
    default. *)
Definition default_keys : list string :=
  ["threshold"; "interval_ms"; "opacity"; "offset_x"; "offset_y";
   "scale_overlay"; "only_when_matched"].

(** The user has set no value under any of them. *)
Definition uses_defaults (settings : obs_data) : Prop :=
  Forall (fun name => od_values settings !! name = None) default_keys.

(** A [double] in canonical form between 0 and 1. *)
Definition in_unit_interval64 (x : double) : Prop :=
  valid_binary 53 1024 x = true
  /\ SFleb (S754_zero false) x = true /\ SFleb x f64_one = true.

(* ===================================================================== *)
(** ** Sample inputs *)
(* ===================================================================== *)

(** An OpenCV whose correlation surface has its maximum [score] at [loc]
    whatever the images are; conversions keep the dimensions. *)
Definition fixed_cv (score : double) (loc : Point) : OpenCV :=
  {| cv_imread := fun _ _ => mkMat 2 2 1 2 [10; 20; 30; 40];
     cv_cvtColor := fun m code =>
       match code with
       | COLOR_BGRA2GRAY => mkMat (mat_rows m) (mat_cols m) 1 (mat_cols m) []
       | _ => mkMat (mat_rows m) (mat_cols m) 4 (4 * mat_cols m) []
       end;
     cv_resize_area := fun m w h => mkMat h w (mat_channels m) (w * mat_channels m) [];
     cv_surface := unit;
     cv_matchTemplate_ccoeff_normed := fun _ _ => tt;
     cv_minMaxLoc := fun _ => mkMinMax (S754_zero false) score (mkPoint 0 0) loc |}.

(** 0.9 and 0.5 as [double]s. *)
Definition f64_0_9 : double := f64_div (f64_of_Z 9) (f64_of_Z 10).
Definition f64_0_5 : double := f64_div (f64_of_Z 1) (f64_of_Z 2).

(** A 2 x 2 gray template and a 1 x 1 opaque white overlay. *)
Definition sample_template : Mat := mkMat 2 2 1 2 [10; 20; 30; 40].
Definition sample_overlay : Mat := mkMat 1 1 4 4 [255; 255; 255; 255].

(** A 4 x 3 BGRA frame with a padded stride of 20 bytes. *)
Definition sample_frame (fmt : video_format) : obs_source_frame :=
  mkFrame (repeat 7 60) 20 4 3 fmt.

(** An instance with both images loaded, a 1000 ms interval and a match
    recorded at (1, 1) at time [ts]. *)
Definition sample_filter (ts : Z) (valid owm : bool) : shape_overlay_filter_data :=
  {| template_path := "t.png"; overlay_path := "o.png";
     template_gray := sample_template; overlay_bgra := sample_overlay;
     overlay_draw := sample_overlay;
     threshold := f32_0_8; interval_ms := 1000; opacity := f32_one;
     offset_x := 0; offset_y := 0;
     scale_overlay := false; only_when_matched := owm;
     last_detect_ts := ts; last_x := 1; last_y := 1;
     last_score := f32_0_8; last_valid := valid;
     warned_format := false |}.

(** Settings with the opacity slider at 49.999997 percent. *)
Definition near_half_settings : obs_data_t :=
  {| obs_data_get_string := fun _ => "";
     obs_data_get_double := fun key =>
       if String.eqb key "opacity"
       then f64_div (f64_of_Z 49999997) (f64_of_Z 1000000)
       else f64_0_9;
     obs_data_get_int := fun _ => 0;
     obs_data_get_bool := fun _ => true |}.

(** Settings naming two image files, with the slider values of a fresh
    filter. *)
Definition sample_settings : obs_data_t :=
  {| obs_data_get_string := fun key =>
       if String.eqb key "template_path" then "t.png"
       else if String.eqb key "overlay_path" then "o.png" else "";
     obs_data_get_double := fun key =>
       if String.eqb key "opacity" then f64_100
       else f64_div (f64_of_Z 8) (f64_of_Z 10);
     obs_data_get_int := fun key =>
       if String.eqb key "interval_ms" then 100 else 0;
     obs_data_get_bool := fun _ => true |}.

(** An OpenCV whose decoder delivers a two-channel image. *)
Definition two_channel_cv : OpenCV :=
  {| cv_imread := fun _ _ => mkMat 1 1 2 2 [10; 20];
     cv_cvtColor := fun m code =>
       match code with
       | COLOR_BGRA2GRAY => mkMat (mat_rows m) (mat_cols m) 1 (mat_cols m) []
       | _ => mkMat (mat_rows m) (mat_cols m) 4 (4 * mat_cols m) []
       end;
     cv_resize_area := fun m w h => mkMat h w (mat_channels m) (w * mat_channels m) [];
     cv_surface := unit;
     cv_matchTemplate_ccoeff_normed := fun _ _ => tt;
     cv_minMaxLoc := fun _ =>
       mkMinMax (S754_zero false) (S754_zero false) (mkPoint 0 0) (mkPoint 0 0) |}.

(* ===================================================================== *)
(** * Properties *)
(* ===================================================================== *)

(** ** Floating point: promotion to [double] and back *)

Lemma digits2_pos_size (m : positive) : digits2_pos m = Pos.size m.
Proof. induction m; cbn; congruence. Qed.

Lemma digits2_pos_iter_xO (m k : positive) :
  digits2_pos (Pos.iter xO m k) = (digits2_pos m + k)%positive.
Proof.
  induction k using Pos.peano_ind.
  - cbn. lia.
  - rewrite Pos.iter_succ. cbn [digits2_pos]. rewrite IHk. lia.
Qed.

Lemma iter_pos_iter {A : Type} (f : A -> A) (p : positive) :
  forall x, SpecFloat.iter_pos f p x = Pos.iter f x p.
Proof.
  induction p as [p IH | p IH |]; intros x; cbn [SpecFloat.iter_pos Pos.iter].
  - rewrite !IH, !Pos.iter_swap. reflexivity.
  - rewrite !IH. reflexivity.
  - reflexivity.
Qed.

Lemma shr_iter_xO (m k : positive) :
  SpecFloat.iter_pos shr_1 k (Build_shr_record (Zpos (Pos.iter xO m k)) false false) =
    Build_shr_record (Zpos m) false false.
Proof.
  rewrite iter_pos_iter.
  induction k using Pos.peano_ind.
  - reflexivity.
  - rewrite Pos.iter_succ_r, Pos.iter_succ. cbn [shr_1 orb]. exact IHk.
Qed.

(** A finite binary32 value in canonical form. *)
Lemma valid32_inv s m e :
  valid_binary 24 128 (S754_finite s m e) = true ->
  (e = Zpos (digits2_pos m) + e - 24 \/ (e = -149 /\ Zpos (digits2_pos m) < 24))
  /\ -149 <= e <= 104.
Proof.
  cbn [valid_binary]. unfold bounded, canonical_mantissa, fexp, emin.
  rewrite andb_true_iff, Z.eqb_eq, Z.leb_le. lia.
Qed.

Lemma binary_round_aux_canonical prec emax s m e :
  fexp prec emax (Zpos (digits2_pos m) + e) = e ->
  e <= emax - prec ->
  binary_round_aux prec emax s (Zpos m) e loc_Exact = S754_finite s m e.
Proof.
  intros Hc He. unfold binary_round_aux, shr_fexp.
  cbn [Zdigits2 shr_record_of_loc]. rewrite Hc, Z.sub_diag.
  cbn [shr shr_m loc_of_shr_record round_nearest_even Zdigits2 shr_record_of_loc].
  rewrite Hc, Z.sub_diag. cbn [shr shr_m].
  apply Z.leb_le in He. rewrite He. reflexivity.
Qed.

Lemma iter_xO_mul (m k : positive) : Pos.iter xO m k = (m * 2 ^ k)%positive.
Proof.
  induction k using Pos.peano_ind.
  - cbn. lia.
  - rewrite Pos.iter_succ, IHk, Pos.pow_succ_r. lia.
Qed.

Lemma f32_to_f64_finite s m e :
  valid_binary 24 128 (S754_finite s m e) = true ->
  f32_to_f64 (S754_finite s m e) =
    S754_finite s (fst (widened m e)) (snd (widened m e)).
Proof.
  intros Hv. apply valid32_inv in Hv as [Hc He].
  unfold f32_to_f64, binary_round, widened. cbv zeta. cbn [fst snd].
  assert (Hd : 0 < Zpos (digits2_pos m) <= 24) by lia.
  assert (Hf : fexp 53 1024 (Zpos (digits2_pos m) + e)
               = e - (53 - Zpos (digits2_pos m))).
  { unfold fexp, emin. lia. }
  rewrite Hf. unfold shl_align.
  replace (e - (53 - Zpos (digits2_pos m)) - e)
    with (Zneg (Z.to_pos (53 - Zpos (digits2_pos m)))) by lia.
  apply binary_round_aux_canonical.
  - rewrite digits2_pos_iter_xO. unfold fexp, emin. lia.
  - lia.
Qed.

Lemma f64_to_f32_widened s m e :
  valid_binary 24 128 (S754_finite s m e) = true ->
  f64_to_f32 (S754_finite s (fst (widened m e)) (snd (widened m e))) =
    S754_finite s m e.
Proof.
  intros Hv. apply valid32_inv in Hv as [Hc He].
  assert (Hd : 0 < Zpos (digits2_pos m) <= 24) by lia.
  assert (Hf : fexp 24 128 (Zpos (digits2_pos m) + e) = e)
    by (unfold fexp, emin; lia).
  unfold f64_to_f32, binary_round, widened. cbv zeta. cbn [fst snd].
  set (k := Z.to_pos (53 - Zpos (digits2_pos m))).
  assert (Hk : 53 - Zpos (digits2_pos m) = Zpos k) by (subst k; lia).
  rewrite Hk.
  assert (Hdk : Zpos (digits2_pos (Pos.iter xO m k)) + (e - Zpos k)
                = Zpos (digits2_pos m) + e)
    by (rewrite digits2_pos_iter_xO; lia).
  rewrite Hdk, Hf. unfold shl_align.
  replace (e - (e - Zpos k)) with (Zpos k) by lia.
  unfold binary_round_aux, shr_fexp.
  cbn [Zdigits2 shr_record_of_loc]. rewrite Hdk, Hf.
  replace (e - (e - Zpos k)) with (Zpos k) by lia.
  cbn [shr]. rewrite shr_iter_xO.
  cbn [shr_m loc_of_shr_record round_nearest_even Zdigits2 shr_record_of_loc].
  replace (e - Zpos k + Zpos k) with e by lia.
  rewrite Hf, Z.sub_diag. cbn [shr shr_m].
  replace (e <=? 128 - 24) with true by (symmetry; apply Z.leb_le; lia).
  reflexivity.
Qed.

(** Narrowing undoes widening: a [float] survives the round trip through
    [double]. *)
Lemma f64_to_f32_widen (x : float) :
  valid_binary 24 128 x = true -> f64_to_f32 (f32_to_f64 x) = x.
Proof.
  destruct x as [s | s | | s m e]; intros Hv; try reflexivity.
  rewrite f32_to_f64_finite by exact Hv.
  apply f64_to_f32_widened. exact Hv.
Qed.

Lemma size_lt_lt (m1 m2 : positive) :
  (Pos.size m1 < Pos.size m2)%positive -> (m1 < m2)%positive.
Proof.
  intros Hs.
  pose proof (Pos.size_gt m1) as H1. pose proof (Pos.size_le m2) as H2.
  apply Pos2Z.pos_lt_pos in H1. apply Pos2Z.pos_le_pos in H2.
  rewrite Pos2Z.inj_pow in H1, H2.
  change (Z.pos 2) with 2 in H1, H2.
  assert (Hp : 2 ^ Zpos (Pos.size m1) <= 2 ^ (Zpos (Pos.size m2) - 1))
    by (apply Z.pow_le_mono_r; lia).
  assert (Hq : 2 ^ Zpos (Pos.size m2) = 2 * 2 ^ (Zpos (Pos.size m2) - 1)).
  { rewrite <- Z.pow_succ_r by lia. f_equal. lia. }
  lia.
Qed.

Lemma compare_cont_widened (m1 m2 : positive) (e1 e2 : Z) :
  valid_binary 24 128 (S754_finite false m1 e1) = true ->
  valid_binary 24 128 (S754_finite false m2 e2) = true ->
  match snd (widened m1 e1) ?= snd (widened m2 e2) with
  | Lt => Lt
  | Gt => Gt
  | Eq => Pos.compare_cont Eq (fst (widened m1 e1)) (fst (widened m2 e2))
  end =
  match e1 ?= e2 with
  | Lt => Lt
  | Gt => Gt
  | Eq => Pos.compare_cont Eq m1 m2
  end.
Proof.
  intros H1 H2.
  apply valid32_inv in H1 as [Hc1 He1]. apply valid32_inv in H2 as [Hc2 He2].
  unfold widened. cbv zeta. cbn [fst snd].
  rewrite (digits2_pos_size m1) in Hc1. rewrite (digits2_pos_size m2) in Hc2.
  rewrite !(digits2_pos_size m1), !(digits2_pos_size m2).
  fold (Pos.compare (Pos.iter xO m1 (Z.to_pos (53 - Zpos (Pos.size m1))))
                    (Pos.iter xO m2 (Z.to_pos (53 - Zpos (Pos.size m2))))).
  fold (Pos.compare m1 m2).
  destruct (Z.compare_spec e1 e2) as [Heq | Hlt | Hgt].
  - subst e2.
    destruct (Pos.compare_spec (Pos.size m1) (Pos.size m2)) as [Hs | Hs | Hs].
    + rewrite Hs, Z.compare_refl, !iter_xO_mul.
      apply Pos.mul_compare_mono_r.
    + apply size_lt_lt in Hs as Hm.
      replace (e1 - (53 - Zpos (Pos.size m1)) ?= e1 - (53 - Zpos (Pos.size m2)))
        with Lt by (symmetry; apply Z.compare_lt_iff; lia).
      symmetry. apply Pos.compare_lt_iff. exact Hm.
    + apply size_lt_lt in Hs as Hm.
      replace (e1 - (53 - Zpos (Pos.size m1)) ?= e1 - (53 - Zpos (Pos.size m2)))
        with Gt by (symmetry; apply Z.compare_gt_iff; lia).
      symmetry. apply Pos.compare_gt_iff. exact Hm.
  - replace (e1 - (53 - Zpos (Pos.size m1)) ?= e2 - (53 - Zpos (Pos.size m2)))
      with Lt by (symmetry; apply Z.compare_lt_iff; lia).
    reflexivity.
  - replace (e1 - (53 - Zpos (Pos.size m1)) ?= e2 - (53 - Zpos (Pos.size m2)))
      with Gt by (symmetry; apply Z.compare_gt_iff; lia).
    reflexivity.
Qed.

(** Comparing two [float]s after promotion to [double] is comparing
    them. *)
Lemma SFcompare_widen (x y : float) :
  valid_binary 24 128 x = true -> valid_binary 24 128 y = true ->
  SFcompare (f32_to_f64 x) (f32_to_f64 y) = SFcompare x y.
Proof.
  intros Hx Hy.
  destruct x as [sx | sx | | sx mx ex], y as [sy | sy | | sy my ey];
    try reflexivity;
    rewrite ?f32_to_f64_finite by assumption; try reflexivity.
  cbn [SFcompare].
  assert (Hx' : valid_binary 24 128 (S754_finite false mx ex) = true) by exact Hx.
  assert (Hy' : valid_binary 24 128 (S754_finite false my ey) = true) by exact Hy.
  pose proof (compare_cont_widened mx my ex ey Hx' Hy') as Hc.
  destruct sx, sy; try reflexivity.
  - f_equal.
    destruct (snd (widened mx ex) ?= snd (widened my ey)), (ex ?= ey);
      try congruence;
      try (rewrite Hc; reflexivity); try (rewrite <- Hc; reflexivity).
  - f_equal. exact Hc.
Qed.

Lemma geb_refl (x : spec_float) : is_nan x = false -> geb x x = true.
Proof.
  unfold geb. destruct x as [s | s | | s m e]; cbn; intros Hn;
    try reflexivity; try discriminate.
  - destruct s; reflexivity.
  - rewrite Z.compare_refl, Pcompare_refl. destruct s; reflexivity.
Qed.

Lemma geb_widen (x y : float) :
  valid_binary 24 128 x = true -> valid_binary 24 128 y = true ->
  geb (f32_to_f64 x) (f32_to_f64 y) = geb x y.
Proof. intros Hx Hy. unfold geb. rewrite SFcompare_widen by assumption. reflexivity. Qed.

(** ** Floating point: rounding adds at most one unit in the last place *)

Lemma shr_1_m (mrs : shr_record) :
  0 <= shr_m mrs -> shr_m (shr_1 mrs) = shr_m mrs / 2.
Proof.
  destruct mrs as [m r s]. cbn [shr_m]. intros Hm.
  destruct m as [|p|p]; [reflexivity | | lia].
  destruct p as [p|p|]; cbn [shr_1 shr_m].
  - rewrite Pos2Z.inj_xI. apply Z.div_unique with 1; lia.
  - rewrite Pos2Z.inj_xO. apply Z.div_unique with 0; lia.
  - reflexivity.
Qed.

Lemma shr_iter_m (k : positive) : forall mrs,
  0 <= shr_m mrs ->
  shr_m (SpecFloat.iter_pos shr_1 k mrs) = shr_m mrs / 2 ^ Zpos k.
Proof.
  intros mrs. rewrite iter_pos_iter. revert mrs.
  induction k using Pos.peano_ind; intros mrs Hm.
  - cbn [Pos.iter]. rewrite shr_1_m by exact Hm. reflexivity.
  - rewrite Pos.iter_succ_r, IHk.
    + rewrite shr_1_m by exact Hm.
      rewrite Z.div_div by lia.
      rewrite Pos2Z.inj_succ, Z.pow_succ_r by lia. reflexivity.
    + rewrite shr_1_m by exact Hm. apply Z.div_pos; lia.
Qed.

Lemma round_nearest_even_le (m : Z) (l : location) :
  round_nearest_even m l <= m + 1.
Proof.
  destruct l as [|[| |]]; cbn; try lia. destruct (Z.even m); lia.
Qed.

Lemma round_nearest_even_ge (m : Z) (l : location) :
  m <= round_nearest_even m l.
Proof.
  destruct l as [|[| |]]; cbn; try lia. destruct (Z.even m); lia.
Qed.

(** One application of [shr_fexp] to an exactly located mantissa: the
    exponent does not go down and the mantissa is the quotient. *)
Lemma shr_fexp_exact (m e : Z) :
  0 <= m ->
  let n := Z.max 0 (fexp 24 128 (Zdigits2 m + e) - e) in
  snd (shr_fexp 24 128 m e loc_Exact) = e + n
  /\ shr_m (fst (shr_fexp 24 128 m e loc_Exact)) = m / 2 ^ n.
Proof.
  intros Hm n. subst n. unfold shr_fexp. cbn [shr_record_of_loc].
  destruct (fexp 24 128 (Zdigits2 m + e) - e) as [|k|k] eqn:Hk; cbn [shr fst snd shr_m].
  - split; [lia|]. cbn. rewrite Z.div_1_r. reflexivity.
  - split; [lia|]. rewrite shr_iter_m by exact Hm.
    cbn [shr_m]. reflexivity.
  - split; [lia|]. replace (Z.max 0 (Z.neg k)) with 0 by lia.
    cbn. rewrite Z.div_1_r. reflexivity.
Qed.

(** The result of rounding the positive value [P * 2^E]: with [n] the
    number of bits dropped, a finite result [mf * 2^ef] has [E <= ef] and
    [mf * 2^(ef - E) <= P + 2^n]. *)
Lemma binary_round_aux_upper (P : positive) (E : Z) (mf : positive) (ef : Z) :
  binary_round_aux 24 128 false (Zpos P) E loc_Exact = S754_finite false mf ef ->
  let n := Z.max 0 (fexp 24 128 (Zpos (digits2_pos P) + E) - E) in
  E <= ef /\ Zpos mf * 2 ^ (ef - E) <= Zpos P + 2 ^ n.
Proof.
  intros Hr n. unfold binary_round_aux in Hr.
  destruct (shr_fexp 24 128 (Zpos P) E loc_Exact) as [mrs' e'] eqn:H1.
  pose proof (shr_fexp_exact (Zpos P) E ltac:(lia)) as [He' Hm'].
  rewrite H1 in He', Hm'. cbn [fst snd Zdigits2] in He', Hm'. fold n in He', Hm'.
  set (m'' := round_nearest_even (shr_m mrs') (loc_of_shr_record mrs')) in *.
  assert (Hm''0 : 0 <= m'').
  { pose proof (round_nearest_even_ge (shr_m mrs') (loc_of_shr_record mrs')).
    assert (0 <= shr_m mrs') by (rewrite Hm'; apply Z.div_pos; lia). lia. }
  assert (Hm''1 : m'' <= Zpos P / 2 ^ n + 1).
  { subst m''. rewrite <- Hm'. apply round_nearest_even_le. }
  destruct (shr_fexp 24 128 m'' e' loc_Exact) as [mrs'' e''] eqn:H2.
  pose proof (shr_fexp_exact m'' e' Hm''0) as [He'' Hmf].
  rewrite H2 in He'', Hmf. cbn [fst snd] in He'', Hmf.
  set (n2 := Z.max 0 (fexp 24 128 (Zdigits2 m'' + e') - e')) in *.
  destruct (shr_m mrs'') as [|p|p] eqn:Hs; try discriminate.
  destruct (e'' <=? 128 - 24); [|discriminate].
  injection Hr as -> ->.
  assert (Hn : 0 <= n) by (subst n; lia).
  assert (Hn2 : 0 <= n2) by (subst n2; lia).
  split; [lia|].
  replace (ef - E) with (n2 + n) by lia.
  rewrite Z.pow_add_r by lia.
  assert (Hp2 : 0 < 2 ^ n2) by (apply Z.pow_pos_nonneg; lia).
  assert (Hpn : 0 < 2 ^ n) by (apply Z.pow_pos_nonneg; lia).
  assert (Hq2 : Zpos mf * 2 ^ n2 <= m'').
  { rewrite Hmf, Z.mul_comm. apply Z.mul_div_le. exact Hp2. }
  assert (Hq : Zpos P / 2 ^ n * 2 ^ n <= Zpos P).
  { rewrite Z.mul_comm. apply Z.mul_div_le. exact Hpn. }
  nia.
Qed.

Lemma binary_round_aux_sign prec emax s m e l s' mf ef :
  binary_round_aux prec emax s m e l = S754_finite s' mf ef -> s' = s.
Proof.
  unfold binary_round_aux.
  destruct (shr_fexp prec emax m e l) as [mrs' e'].
  destruct (shr_fexp prec emax _ e' loc_Exact) as [mrs'' e''].
  destruct (shr_m mrs''); try discriminate.
  destruct (e'' <=? emax - prec); [|discriminate].
  intros H. injection H as -> _ _. reflexivity.
Qed.

Lemma digits_le_of_lt (P : positive) (k : Z) :
  0 <= k -> Zpos P < 2 ^ k -> Zpos (digits2_pos P) <= k.
Proof.
  intros Hk HP. rewrite digits2_pos_size.
  pose proof (Pos.size_le P) as Hs.
  apply Pos2Z.pos_le_pos in Hs. rewrite Pos2Z.inj_pow in Hs.
  change (Z.pos 2) with 2 in Hs.
  assert (Hlt : 2 ^ Zpos (Pos.size P) < 2 ^ (k + 1)).
  { rewrite (Z.pow_add_r 2 k 1) by lia. change (2 ^ 1) with 2. lia. }
  apply Z.pow_lt_mono_r_iff in Hlt; lia.
Qed.

(** Rounding a positive value below 256 whose exponent is at most -16
    adds at most [2^-16].  Values are written as multiples of [2^-172],
    the smallest exponent a product with a byte can have. *)
Lemma binary_round_aux_small (M : positive) (X : Z) (mf : positive) (ef : Z) :
  -172 <= X <= -16 ->
  Zpos M * 2 ^ (X + 172) < 2 ^ 180 ->
  binary_round_aux 24 128 false (Zpos M) X loc_Exact = S754_finite false mf ef ->
  X <= ef /\ Zpos mf * 2 ^ (ef + 172) <= Zpos M * 2 ^ (X + 172) + 2 ^ 156.
Proof.
  intros HX HM Hr.
  apply binary_round_aux_upper in Hr as [Hef Hup]. cbv zeta in Hup.
  split; [exact Hef|].
  assert (Hp : 0 < 2 ^ (X + 172)) by (apply Z.pow_pos_nonneg; lia).
  assert (HM' : Zpos M < 2 ^ (8 - X)).
  { replace 180 with ((8 - X) + (X + 172)) in HM by lia.
    rewrite (Z.pow_add_r 2 (8 - X) (X + 172)) in HM by lia.
    apply Z.mul_lt_mono_pos_r in HM; assumption. }
  apply digits_le_of_lt in HM'; [|lia].
  set (n := Z.max 0 (fexp 24 128 (Zpos (digits2_pos M) + X) - X)) in *.
  assert (Hn : 0 <= n <= -16 - X) by (subst n; unfold fexp, emin; lia).
  assert (Hpn : 2 ^ n <= 2 ^ (-16 - X)) by (apply Z.pow_le_mono_r; lia).
  replace (ef + 172) with ((ef - X) + (X + 172)) by lia.
  rewrite (Z.pow_add_r 2 (ef - X) (X + 172)) by lia.
  replace 156 with ((-16 - X) + (X + 172)) by lia.
  rewrite (Z.pow_add_r 2 (-16 - X)) by lia.
  nia.
Qed.

Lemma f32_to_int_le (m : positive) (e a : Z) :
  0 <= a -> -172 <= e ->
  Zpos m * 2 ^ (e + 172) < (a + 1) * 2 ^ 172 ->
  f32_to_int (S754_finite false m e) <= a.
Proof.
  intros Ha He Hv. unfold f32_to_int.
  match goal with |- (if ?c then _ else _) <= _ => destruct c end; [|lia].
  destruct e as [|p|p].
  - cbn in Hv. lia.
  - rewrite Z.shiftl_mul_pow2 by lia.
    rewrite (Z.pow_add_r 2 (Zpos p) 172) in Hv by lia.
    assert (0 < 2 ^ 172) by (apply Z.pow_pos_nonneg; lia).
    assert (Hm : Zpos m * 2 ^ Zpos p < a + 1)
      by (apply (Z.mul_lt_mono_pos_r (2 ^ 172)); [assumption | lia]).
    lia.
  - rewrite Z.shiftr_div_pow2 by lia.
    assert (Hp : 0 < 2 ^ Zpos p) by (apply Z.pow_pos_nonneg; lia).
    assert (Hq : 0 < 2 ^ (Zneg p + 172)) by (apply Z.pow_pos_nonneg; lia).
    assert (Hs : 2 ^ 172 = 2 ^ Zpos p * 2 ^ (Zneg p + 172)).
    { rewrite <- Z.pow_add_r by lia. f_equal. lia. }
    rewrite Hs in Hv.
    assert (Hm : Zpos m < (a + 1) * 2 ^ Zpos p).
    { apply (Z.mul_lt_mono_pos_r (2 ^ (Zneg p + 172))); [assumption | lia]. }
    apply Z.lt_succ_r. apply Z.div_lt_upper_bound; lia.
Qed.

Lemma shl_align_spec (m : positive) (e e' : Z) :
  snd (shl_align m e e') = Z.min e e'
  /\ Zpos (fst (shl_align m e e')) = Zpos m * 2 ^ (e - Z.min e e').
Proof.
  unfold shl_align. destruct (e' - e) as [|d|d] eqn:Hd; cbn [fst snd].
  - split; [lia|]. replace (e - Z.min e e') with 0 by lia. lia.
  - split; [lia|]. replace (e - Z.min e e') with 0 by lia. lia.
  - split; [lia|]. rewrite iter_xO_mul, Pos2Z.inj_mul, Pos2Z.inj_pow.
    f_equal. f_equal. lia.
Qed.

(** A byte converts to [float] exactly. *)
Lemma f32_of_Z_byte (a : Z) :
  0 < a < 256 ->
  exists ma ea, f32_of_Z a = S754_finite false ma ea
                /\ -23 <= ea <= -16 /\ Zpos ma = a * 2 ^ (- ea)
                /\ Zpos (digits2_pos ma) = 24.
Proof.
  intros Ha. destruct a as [|p|p]; try lia.
  assert (Hd : 0 < Zpos (digits2_pos p) <= 8).
  { split; [lia|]. apply digits_le_of_lt; [lia|]. change (2 ^ 8) with 256. lia. }
  unfold f32_of_Z, binary_normalize, binary_round.
  assert (Hf : fexp 24 128 (Zpos (digits2_pos p) + 0) = Zpos (digits2_pos p) - 24)
    by (unfold fexp, emin; lia).
  rewrite Hf. unfold shl_align.
  replace (Zpos (digits2_pos p) - 24 - 0)
    with (Zneg (Z.to_pos (24 - Zpos (digits2_pos p)))) by lia.
  rewrite binary_round_aux_canonical.
  - eexists _, _. split; [reflexivity|]. split; [lia|]. split.
    + rewrite iter_xO_mul, Pos2Z.inj_mul, Pos2Z.inj_pow.
      f_equal. f_equal. lia.
    + rewrite digits2_pos_iter_xO. lia.
  - rewrite digits2_pos_iter_xO. unfold fexp, emin. lia.
  - lia.
Qed.

(** A canonical [float] that compares [<= 1.0f] is at most one. *)
Lemma le_one_bound (m : positive) (e : Z) :
  valid_binary 24 128 (S754_finite false m e) = true ->
  SFleb (S754_finite false m e) f32_one = true ->
  -149 <= e <= -23 /\ Zpos m * 2 ^ (e + 149) <= 2 ^ 149.
Proof.
  intros Hv Hle. apply valid32_inv in Hv as [Hc He].
  assert (Hm : Zpos m < 2 ^ 24).
  { pose proof (Pos.size_gt m) as Hs. apply Pos2Z.pos_lt_pos in Hs.
    rewrite Pos2Z.inj_pow in Hs. change (Z.pos 2) with 2 in Hs.
    rewrite digits2_pos_size in Hc.
    assert (2 ^ Zpos (Pos.size m) <= 2 ^ 24) by (apply Z.pow_le_mono_r; lia).
    lia. }
  unfold SFleb, SFcompare, f32_one in Hle. revert Hle.
  destruct (Z.compare_spec e (-23)) as [Heq | Hlt | Hgt]; intros Hle;
    [| |discriminate].
  - subst e. split; [lia|].
    assert (Hm' : Zpos m <= 8388608).
    { apply Pos2Z.pos_le_pos. unfold Pos.le, Pos.compare.
      intros Hgt. rewrite Hgt in Hle. discriminate. }
    assert (H149 : 2 ^ 149 = 8388608 * 2 ^ (-23 + 149)) by reflexivity.
    rewrite H149. apply Z.mul_le_mono_nonneg_r; [apply Z.pow_nonneg; lia | exact Hm'].
  - split; [lia|].
    assert (Hp : 2 ^ (e + 149) <= 2 ^ 125) by (apply Z.pow_le_mono_r; lia).
    assert (H149 : 2 ^ 149 = 2 ^ 24 * 2 ^ 125) by reflexivity.
    rewrite H149. apply Z.mul_le_mono_nonneg; [lia | lia | apply Z.pow_nonneg; lia | exact Hp].
Qed.

(** Adding one half to a value of at most [a + 2^-16] and truncating
    gives at most [a]. *)
Lemma add_half_trunc_le (mf : positive) (ef a : Z) :
  0 <= a < 256 -> -172 <= ef ->
  Zpos mf * 2 ^ (ef + 172) <= a * 2 ^ 172 + 2 ^ 156 ->
  f32_to_int (f32_add (S754_finite false mf ef) f32_half) <= a.
Proof.
  intros Ha Hef Hv.
  unfold f32_add, SFadd, f32_half. cbv zeta. cbn [cond_Zopp].
  set (ez := Z.min ef (-24)).
  pose proof (shl_align_spec mf ef ez) as [_ Hx].
  pose proof (shl_align_spec 8388608 (-24) ez) as [_ Hy].
  replace (Z.min ef ez) with ez in Hx by lia.
  replace (Z.min (-24) ez) with ez in Hy by lia.
  set (x := fst (shl_align mf ef ez)) in *.
  set (y := fst (shl_align 8388608 (-24) ez)) in *.
  change (Zpos x + Zpos y) with (Zpos (x + y)).
  cbn [binary_normalize]. unfold binary_round.
  set (f := fexp 24 128 (Zpos (digits2_pos (x + y)) + ez)).
  assert (Hf : -149 <= f) by (subst f; unfold fexp, emin; lia).
  pose proof (shl_align_spec (x + y) ez f) as [Hz1 Hz2].
  destruct (shl_align (x + y) ez f) as [mz ez2]. cbn [fst snd] in Hz1, Hz2.
  assert (Hez : -172 <= ez <= -24) by (subst ez; lia).
  assert (Hez2 : -172 <= ez2 <= -24) by lia.
  set (T := 2 ^ 156) in *.
  assert (HT : 0 < T) by (subst T; apply Z.pow_pos_nonneg; lia).
  assert (H172 : 2 ^ 172 = 65536 * T) by reflexivity.
  assert (H171 : 2 ^ 171 = 32768 * T) by reflexivity.
  assert (H180 : 2 ^ 180 = 16777216 * T) by reflexivity.
  assert (Hsum : Zpos mz * 2 ^ (ez2 + 172) = Zpos mf * 2 ^ (ef + 172) + 2 ^ 171).
  { rewrite Hz2, <- Z.mul_assoc, <- Z.pow_add_r by lia.
    replace (ez - Z.min ez f + (ez2 + 172)) with (ez + 172) by lia.
    rewrite Pos2Z.inj_add, Z.mul_add_distr_r, Hx, Hy.
    rewrite <- !Z.mul_assoc, <- !Z.pow_add_r by lia.
    replace (ef - ez + (ez + 172)) with (ef + 172) by lia.
    replace (-24 - ez + (ez + 172)) with 148 by lia.
    reflexivity. }
  destruct (binary_round_aux 24 128 false (Zpos mz) ez2 loc_Exact)
    as [s | s | | s m2 e2] eqn:Hr; cbn [f32_to_int]; try lia.
  apply binary_round_aux_sign in Hr as Hs. subst s.
  apply binary_round_aux_small in Hr as [He2 Hm2]; [|lia|nia].
  apply f32_to_int_le; [lia | lia | nia].
Qed.

(** The effective alpha never exceeds the overlay's alpha when the
    opacity is a [float] between 0 and 1. *)
Lemma scaled_alpha_le (a : Z) (opacity : float) :
  0 <= a < 256 ->
  valid_binary 24 128 opacity = true ->
  SFleb f32_zero opacity = true -> SFleb opacity f32_one = true ->
  scaled_alpha a opacity <= a.
Proof.
  intros Ha Hv H0 H1. unfold scaled_alpha.
  assert (Hhalf : forall s, f32_to_int (f32_add (S754_zero s) f32_half) <= a)
    by (intros s;
        replace (f32_to_int (f32_add (S754_zero s) f32_half)) with 0
          by (destruct s; reflexivity);
        lia).
  destruct (Z.eq_dec a 0) as [-> | Hne].
  { destruct opacity as [s | s | | s m e]; try discriminate;
      try (destruct s; discriminate); apply Hhalf. }
  destruct (f32_of_Z_byte a ltac:(lia)) as (ma & ea & -> & Hea & Hma & _).
  destruct opacity as [s | s | | s m e]; try discriminate.
  - apply Hhalf.
  - destruct s; discriminate.
  - destruct s; [discriminate|].
    apply le_one_bound in H1 as [He Hop]; [|exact Hv].
    unfold f32_mul, SFmul. cbn [xorb].
    destruct (binary_round_aux 24 128 false (Zpos (ma * m)) (ea + e) loc_Exact)
      as [s | s | | s mf ef] eqn:Hr.
    + apply Hhalf.
    + cbn. lia.
    + cbn. lia.
    + apply binary_round_aux_sign in Hr as Hs. subst s.
      assert (Hval : Zpos (ma * m) * 2 ^ (ea + e + 172) <= a * 2 ^ 172).
      { rewrite Pos2Z.inj_mul, Hma.
        replace (ea + e + 172) with ((ea + 23) + (e + 149)) by lia.
        rewrite (Z.pow_add_r 2 (ea + 23) (e + 149)) by lia.
        assert (H23 : 2 ^ (- ea) * 2 ^ (ea + 23) = 2 ^ 23)
          by (rewrite <- Z.pow_add_r by lia; f_equal; lia).
        replace (a * 2 ^ (- ea) * Zpos m * (2 ^ (ea + 23) * 2 ^ (e + 149)))
          with (a * (2 ^ (- ea) * 2 ^ (ea + 23)) * (Zpos m * 2 ^ (e + 149))) by ring.
        rewrite H23.
        change (2 ^ 172) with (2 ^ 23 * 2 ^ 149).
        rewrite (Z.mul_assoc a (2 ^ 23) (2 ^ 149)).
        apply Z.mul_le_mono_nonneg_l; [|exact Hop].
        apply Z.mul_nonneg_nonneg; [lia | apply Z.pow_nonneg; lia]. }
      assert (H180 : a * 2 ^ 172 < 2 ^ 180).
      { change (2 ^ 180) with (256 * 2 ^ 172).
        assert (0 < 2 ^ 172) by (apply Z.pow_pos_nonneg; lia). nia. }
      apply binary_round_aux_small in Hr as [Hef Hmf]; [|lia|lia].
      apply add_half_trunc_le; [lia | lia | lia].
Qed.

(** ** Floating point: rounding yields canonical numbers *)

Lemma Zdigits2_spec (m : Z) :
  0 < m -> 2 ^ (Zdigits2 m - 1) <= m < 2 ^ Zdigits2 m.
Proof.
  destruct m as [|p|p]; try lia. intros _. cbn [Zdigits2].
  rewrite digits2_pos_size.
  pose proof (Pos.size_gt p) as Hg. pose proof (Pos.size_le p) as Hl.
  apply Pos2Z.pos_lt_pos in Hg. apply Pos2Z.pos_le_pos in Hl.
  rewrite Pos2Z.inj_pow in Hg, Hl. change (Z.pos 2) with 2 in Hg, Hl.
  assert (Hq : 2 ^ Zpos (Pos.size p) = 2 * 2 ^ (Zpos (Pos.size p) - 1)).
  { rewrite <- Z.pow_succ_r by lia. f_equal. lia. }
  lia.
Qed.

Lemma Zdigits2_nonneg (m : Z) : 0 <= Zdigits2 m.
Proof. destruct m; cbn; lia. Qed.

Lemma Zdigits2_unique (m d : Z) :
  2 ^ (d - 1) <= m < 2 ^ d -> 0 < m -> Zdigits2 m = d.
Proof.
  intros Hm Hpos. pose proof (Zdigits2_spec m Hpos) as Hs.
  pose proof (Zdigits2_nonneg m) as Hn.
  assert (Hd : 0 < d).
  { destruct (Z.lt_ge_cases 0 d) as [|Hle]; [assumption|].
    assert (2 ^ d <= 2 ^ 0) by (destruct (Z.lt_ge_cases d 0);
      [rewrite Z.pow_neg_r by lia; cbn; lia | apply Z.pow_le_mono_r; lia]).
    change (2 ^ 0) with 1 in *. lia. }
  assert (H0 : 0 < Zdigits2 m) by (destruct m; cbn in *; lia).
  destruct (Z.lt_trichotomy (Zdigits2 m) d) as [Hlt | [Heq | Hgt]]; [|exact Heq|].
  - assert (2 ^ Zdigits2 m <= 2 ^ (d - 1)) by (apply Z.pow_le_mono_r; lia). lia.
  - assert (2 ^ d <= 2 ^ (Zdigits2 m - 1)) by (apply Z.pow_le_mono_r; lia). lia.
Qed.

(** Dropping [k] low bits drops [k] digits. *)
Lemma Zdigits2_div (m k : Z) :
  0 < m -> 0 <= k < Zdigits2 m -> Zdigits2 (m / 2 ^ k) = Zdigits2 m - k.
Proof.
  intros Hm Hk. pose proof (Zdigits2_spec m Hm) as [Hl Hu].
  assert (Hp : 0 < 2 ^ k) by (apply Z.pow_pos_nonneg; lia).
  assert (Hlow : 2 ^ (Zdigits2 m - k - 1) <= m / 2 ^ k).
  { apply Z.div_le_lower_bound; [exact Hp|].
    rewrite <- Z.pow_add_r by lia.
    replace (k + (Zdigits2 m - k - 1)) with (Zdigits2 m - 1) by lia. exact Hl. }
  assert (Hup : m / 2 ^ k < 2 ^ (Zdigits2 m - k)).
  { apply Z.div_lt_upper_bound; [exact Hp|].
    rewrite <- Z.pow_add_r by lia.
    replace (k + (Zdigits2 m - k)) with (Zdigits2 m) by lia. exact Hu. }
  apply Zdigits2_unique; [lia|].
  assert (0 < 2 ^ (Zdigits2 m - k - 1)) by (apply Z.pow_pos_nonneg; lia). lia.
Qed.

Lemma Zdigits2_div_small (m k : Z) :
  0 <= m -> Zdigits2 m <= k -> m / 2 ^ k = 0.
Proof.
  intros Hm Hk. destruct (Z.eq_dec m 0) as [-> | Hne].
  - apply Z.div_0_l. apply Z.pow_nonzero; [lia | pose proof (Zdigits2_nonneg 0); lia].
  - pose proof (Zdigits2_spec m ltac:(lia)) as [_ Hu].
    pose proof (Zdigits2_nonneg m).
    apply Z.div_small. split; [lia|].
    assert (2 ^ Zdigits2 m <= 2 ^ k) by (apply Z.pow_le_mono_r; lia). lia.
Qed.

(** Adding one adds at most one digit. *)
Lemma Zdigits2_succ (m : Z) :
  0 < m -> Zdigits2 (m + 1) = Zdigits2 m
           \/ (Zdigits2 (m + 1) = Zdigits2 m + 1 /\ m + 1 = 2 ^ Zdigits2 m).
Proof.
  intros Hm. pose proof (Zdigits2_spec m Hm) as [Hl Hu].
  pose proof (Zdigits2_nonneg m) as Hn.
  assert (H0 : 0 < Zdigits2 m) by (destruct m; cbn in *; lia).
  destruct (Z.eq_dec (m + 1) (2 ^ Zdigits2 m)) as [Heq | Hne].
  - right. split; [|exact Heq].
    apply Zdigits2_unique; [|lia].
    replace (Zdigits2 m + 1 - 1) with (Zdigits2 m) by lia.
    rewrite Z.pow_add_r by lia. change (2 ^ 1) with 2. lia.
  - left. apply Zdigits2_unique; lia.
Qed.

(** The shape of a rounded positive value [P * 2^E] that has at least as
    many digits as the format keeps: zero, a canonical finite number, or
    an overflow.  The exponent is that of the format at [P * 2^E] or one
    more; the mantissa lies between the truncated one and the truncated one
    plus one unit. *)
Lemma binary_round_aux_result (P : positive) (E : Z) :
  E <= fexp 24 128 (Zpos (digits2_pos P) + E) ->
  exists mz ez,
    0 <= mz
    /\ binary_round_aux 24 128 false (Zpos P) E loc_Exact =
         match mz with
         | Z0 => S754_zero false
         | Zpos m => if ez <=? 104 then S754_finite false m ez
                     else S754_infinity false
         | Zneg _ => S754_nan
         end
    /\ fexp 24 128 (Zpos (digits2_pos P) + E) <= ez
       <= fexp 24 128 (Zpos (digits2_pos P) + E) + 1
    /\ mz * 2 ^ (ez - E)
       <= Zpos P + 2 ^ (fexp 24 128 (Zpos (digits2_pos P) + E) - E)
    /\ Zpos P / 2 ^ (ez - E) <= mz
    /\ (0 < mz -> fexp 24 128 (Zdigits2 mz + ez) = ez).
Proof.
  intros HE. unfold binary_round_aux.
  set (d := Zpos (digits2_pos P)) in *.
  set (n := fexp 24 128 (d + E) - E) in *.
  assert (Hn : 0 <= n) by (subst n; lia).
  destruct (shr_fexp 24 128 (Zpos P) E loc_Exact) as [mrs' e'] eqn:H1.
  pose proof (shr_fexp_exact (Zpos P) E ltac:(lia)) as [He' Hm'].
  rewrite H1 in He', Hm'. cbn [fst snd Zdigits2] in He', Hm'.
  fold d in He', Hm'. fold n in He', Hm'.
  replace (Z.max 0 n) with n in He', Hm' by lia.
  set (m' := shr_m mrs') in *.
  set (m'' := round_nearest_even m' (loc_of_shr_record mrs')) in *.
  assert (Hm'0 : 0 <= m') by (rewrite Hm'; apply Z.div_pos; lia).
  pose proof (round_nearest_even_ge m' (loc_of_shr_record mrs')) as Hge.
  pose proof (round_nearest_even_le m' (loc_of_shr_record mrs')) as Hle.
  fold m'' in Hge, Hle. clearbody m''.
  destruct (shr_fexp 24 128 m'' e' loc_Exact) as [mrs'' e''] eqn:H2.
  pose proof (shr_fexp_exact m'' e' ltac:(lia)) as [He'' Hmf].
  rewrite H2 in He'', Hmf. cbn [fst snd] in He'', Hmf.
  set (n2 := Z.max 0 (fexp 24 128 (Zdigits2 m'' + e') - e')) in *.
  assert (Hn2 : 0 <= n2) by (subst n2; lia).
  assert (Hp2 : 0 < 2 ^ n2) by (apply Z.pow_pos_nonneg; lia).
  assert (Hpn : 0 < 2 ^ n) by (apply Z.pow_pos_nonneg; lia).
  assert (Hd : 0 < d) by (subst d; lia).
  (* the digits of the rounded mantissa *)
  assert (Hdig : m'' = 0
                 \/ (0 < m'' /\ n2 < Zdigits2 m''
                     /\ fexp 24 128 (Zdigits2 m'' + e') = e' + n2 /\ n2 <= 1)).
  { destruct (Z.eq_dec m'' 0) as [Hz | Hnz]; [left; exact Hz | right].
    split; [lia|].
    destruct (Z.lt_ge_cases n d) as [Hnd | Hnd].
    - assert (Hdm' : Zdigits2 m' = d - n).
      { rewrite Hm'. apply Zdigits2_div; [lia|]. cbn [Zdigits2]. fold d. lia. }
      assert (Hm'pos : 0 < m').
      { destruct (Z.eq_dec m' 0) as [Hz|]; [|lia].
        rewrite Hz in Hdm'. cbn in Hdm'. lia. }
      assert (Hdm'' : Zdigits2 m'' = d - n \/ Zdigits2 m'' = d - n + 1).
      { assert (Hc : m'' = m' \/ m'' = m' + 1) by lia.
        destruct Hc as [-> | ->]; [left; exact Hdm'|].
        destruct (Zdigits2_succ m' Hm'pos) as [Hs | [Hs _]]; rewrite Hs; lia. }
      subst n2 n. unfold fexp, emin in *. lia.
    - assert (Hz : m' = 0).
      { rewrite Hm'. apply Zdigits2_div_small; [lia|]. cbn [Zdigits2]. fold d. lia. }
      assert (H1' : m'' = 1) by lia.
      assert (He'v : e' = -149) by (subst n; unfold fexp, emin in *; lia).
      assert (Hn20 : n2 = 0) by (subst n2; rewrite H1', He'v; reflexivity).
      rewrite Hn20, H1', He'v. cbn [Zdigits2 digits2_pos].
      unfold fexp, emin. lia. }
  assert (Hn2le : n2 <= 1).
  { destruct Hdig as [Hz | (_ & _ & _ & H)]; [|exact H].
    subst n2. rewrite Hz. cbn [Zdigits2].
    subst n. unfold fexp, emin in *. lia. }
  exists (shr_m mrs''), e''.
  split; [rewrite Hmf; apply Z.div_pos; lia|].
  split; [reflexivity|].
  split; [fold d; lia|].
  split; [|split].
  - replace (e'' - E) with (n2 + n) by lia.
    rewrite Z.pow_add_r by lia.
    assert (Hq2 : shr_m mrs'' * 2 ^ n2 <= m'').
    { rewrite Hmf, Z.mul_comm. apply Z.mul_div_le. exact Hp2. }
    assert (Hq : Zpos P / 2 ^ n * 2 ^ n <= Zpos P).
    { rewrite Z.mul_comm. apply Z.mul_div_le. exact Hpn. }
    rewrite <- Hm' in Hq. fold d. fold n. nia.
  - replace (e'' - E) with (n + n2) by lia.
    rewrite Z.pow_add_r, <- Z.div_div by lia.
    rewrite <- Hm', Hmf. apply Z.div_le_mono; lia.
  - intros Hpos. rewrite Hmf in Hpos |- *.
    destruct Hdig as [Hz | (Hm''pos & Hlt & Hfx & _)].
    + rewrite Hz, Z.div_0_l in Hpos by lia. lia.
    + rewrite Zdigits2_div by lia.
      replace (Zdigits2 m'' - n2 + e'') with (Zdigits2 m'' + e') by lia.
      lia.
Qed.

(** Rounding a value whose dropped bits are all zero is exact. *)
Lemma binary_round_aux_exact_shift (Q n : positive) (E : Z) :
  fexp 24 128 (Zpos (digits2_pos Q) + Zpos n + E) = E + Zpos n ->
  E + Zpos n <= 104 ->
  binary_round_aux 24 128 false (Zpos (Pos.iter xO Q n)) E loc_Exact =
    S754_finite false Q (E + Zpos n).
Proof.
  intros Hf He. unfold binary_round_aux, shr_fexp.
  cbn [Zdigits2 shr_record_of_loc]. rewrite digits2_pos_iter_xO, Pos2Z.inj_add.
  replace (Zpos (digits2_pos Q) + Zpos n + E) with (Zpos (digits2_pos Q) + Zpos n + E) by lia.
  rewrite Hf. replace (E + Zpos n - E) with (Zpos n) by lia.
  cbn [shr]. rewrite shr_iter_xO.
  cbn [shr_m loc_of_shr_record round_nearest_even Zdigits2 shr_record_of_loc].
  replace (Zpos (digits2_pos Q) + (E + Zpos n))
    with (Zpos (digits2_pos Q) + Zpos n + E) by lia.
  rewrite Hf, Z.sub_diag. cbn [shr shr_m].
  replace (E + Zpos n <=? 128 - 24) with true by (symmetry; apply Z.leb_le; lia).
  reflexivity.
Qed.

(** Truncation of a non-negative value given as a multiple of [2^-172]. *)
Lemma f32_to_int_floor (m : positive) (e N : Z) :
  -172 <= e -> 0 <= N < 2 ^ 31 ->
  N * 2 ^ 172 <= Zpos m * 2 ^ (e + 172) < (N + 1) * 2 ^ 172 ->
  f32_to_int (S754_finite false m e) = N.
Proof.
  intros He HN [Hlo Hhi]. unfold f32_to_int.
  assert (H172 : 0 < 2 ^ 172) by (apply Z.pow_pos_nonneg; lia).
  assert (Hv : match e with
               | 0 => Zpos m
               | Zpos _ => Z.shiftl (Zpos m) e
               | Zneg p => Z.shiftr (Zpos m) (Zpos p)
               end = N).
  { destruct e as [|p|p].
    - cbn in Hlo, Hhi. nia.
    - rewrite Z.shiftl_mul_pow2 by lia.
      rewrite (Z.pow_add_r 2 (Zpos p) 172) in Hlo, Hhi by lia. nia.
    - rewrite Z.shiftr_div_pow2 by lia.
      assert (Hp : 0 < 2 ^ Zpos p) by (apply Z.pow_pos_nonneg; lia).
      assert (Hq : 0 < 2 ^ (Zneg p + 172)) by (apply Z.pow_pos_nonneg; lia).
      assert (Hs : 2 ^ 172 = 2 ^ Zpos p * 2 ^ (Zneg p + 172)).
      { rewrite <- Z.pow_add_r by lia. f_equal. lia. }
      rewrite Hs in Hlo, Hhi.
      symmetry. apply Z.div_unique_pos with (r := Zpos m - N * 2 ^ Zpos p).
      + split; nia.
      + ring. }
  rewrite Hv.
  replace ((- 2 ^ 31 <=? N) && (N <? 2 ^ 31)) with true; [reflexivity|].
  symmetry. apply andb_true_intro. split; [apply Z.leb_le | apply Z.ltb_lt]; lia.
Qed.

(** ** Floating point: adding one half and truncating *)

Lemma shl_align_id (m : positive) (e e' : Z) :
  e <= e' -> shl_align m e e' = (m, e).
Proof.
  intros He. unfold shl_align. destruct (e' - e) eqn:Hd; try reflexivity. lia.
Qed.

(** The exact sum [mp * 2^ep + 1/2] before rounding, as a mantissa at the
    smaller of the two exponents. *)
Lemma f32_add_half_sum (mp : positive) (ep : Z) :
  exists Sp : positive,
    f32_add (S754_finite false mp ep) f32_half =
      binary_round 24 128 false Sp (Z.min ep (-24))
    /\ Zpos Sp = Zpos mp * 2 ^ (ep - Z.min ep (-24))
                 + 8388608 * 2 ^ (-24 - Z.min ep (-24)).
Proof.
  set (ez := Z.min ep (-24)).
  pose proof (shl_align_spec mp ep ez) as [_ Hx].
  pose proof (shl_align_spec 8388608 (-24) ez) as [_ Hy].
  replace (Z.min ep ez) with ez in Hx by lia.
  replace (Z.min (-24) ez) with ez in Hy by lia.
  exists (fst (shl_align mp ep ez) + fst (shl_align 8388608 (-24) ez))%positive.
  split; [reflexivity|].
  rewrite Pos2Z.inj_add, Hx, Hy. reflexivity.
Qed.

Lemma round_to_nearest_neg (m q : positive) :
  round_to_nearest (S754_finite false m (Zneg q)) =
    (2 * Zpos m + 2 ^ Zpos q) / 2 ^ (Zpos q + 1).
Proof. reflexivity. Qed.

Lemma f32_to_int_neg (m q : positive) :
  Zpos m / 2 ^ Zpos q < 2 ^ 31 ->
  f32_to_int (S754_finite false m (Zneg q)) = Zpos m / 2 ^ Zpos q.
Proof.
  intros Hr. unfold f32_to_int. rewrite Z.shiftr_div_pow2 by lia.
  assert (H0 : 0 <= Zpos m / 2 ^ Zpos q) by (apply Z.div_pos; [lia | apply Z.pow_pos_nonneg; lia]).
  replace ((- 2 ^ 31 <=? Zpos m / 2 ^ Zpos q) && (Zpos m / 2 ^ Zpos q <? 2 ^ 31))
    with true; [reflexivity|].
  symmetry. apply andb_true_intro. split; [apply Z.leb_le | apply Z.ltb_lt]; lia.
Qed.

(** Below one half: the sum lies in [1/2, 1) and truncates to 0, unless it
    rounds up to 1. *)
Lemma add_half_trunc_small (mp : positive) (ep : Z) :
  Zpos mp < 2 ^ 24 -> -149 <= ep <= -25 ->
  f32_to_int (f32_add (S754_finite false mp ep) f32_half) =
    if is_pred_half (S754_finite false mp ep) then 1
    else round_to_nearest (S754_finite false mp ep).
Proof.
  intros Hmp Hep.
  destruct (Z_lt_le_dec (Zpos mp + 2 ^ (-24 - ep)) (2 ^ (-1 - ep))) as [Hlt | Hge].
  - (* the rounded sum stays below 1 *)
    assert (Hnp : is_pred_half (S754_finite false mp ep) = false).
    { cbn [is_pred_half]. destruct (Z.eqb_spec ep (-25)) as [-> | Hne];
        [|apply andb_false_r].
      change (2 ^ (-24 - -25)) with 2 in Hlt.
      change (2 ^ (-1 - -25)) with 16777216 in Hlt.
      replace (mp =? 16777215)%positive with false; [reflexivity|].
      symmetry. apply Pos.eqb_neq. intros ->. lia. }
    rewrite Hnp.
    assert (Hround : round_to_nearest (S754_finite false mp ep) = 0).
    { destruct ep as [|q|q]; try lia. rewrite round_to_nearest_neg.
      apply Z.div_small.
      assert (H25 : 2 ^ 25 <= 2 ^ Zpos q) by (apply Z.pow_le_mono_r; lia).
      rewrite Z.pow_add_r by lia. change (2 ^ 1) with 2.
      change (2 ^ 25) with (2 * 2 ^ 24) in H25. lia. }
    rewrite Hround.
    destruct (f32_add_half_sum mp ep) as (Sp & -> & HS).
    replace (Z.min ep (-24)) with ep in * by lia.
    rewrite Z.sub_diag, Z.mul_1_r in HS.
    assert (Hj : 8388608 * 2 ^ (-24 - ep) = 2 ^ (-1 - ep)).
    { change 8388608 with (2 ^ 23). rewrite <- Z.pow_add_r by lia. f_equal. lia. }
    rewrite Hj in HS.
    assert (H24 : 2 ^ 24 <= 2 ^ (-1 - ep)) by (apply Z.pow_le_mono_r; lia).
    assert (HdS : Zpos (digits2_pos Sp) = - ep).
    { change (Zpos (digits2_pos Sp)) with (Zdigits2 (Zpos Sp)).
      apply Zdigits2_unique; [|lia].
      replace (- ep - 1) with (-1 - ep) by lia.
      replace (- ep) with (-1 - ep + 1) by lia.
      rewrite (Z.pow_add_r 2 (-1 - ep) 1) by lia. change (2 ^ 1) with 2. lia. }
    assert (Hf : fexp 24 128 (Zpos (digits2_pos Sp) + ep) = -24)
      by (rewrite HdS; unfold fexp, emin; lia).
    unfold binary_round. rewrite Hf, shl_align_id by lia.
    destruct (binary_round_aux_result Sp ep ltac:(lia))
      as (mz & ez & Hmz & -> & Hez & Hup & _ & _).
    rewrite Hf in Hez, Hup.
    destruct mz as [|m|m]; [reflexivity | | lia].
    replace (ez <=? 104) with true by (symmetry; apply Z.leb_le; lia).
    apply f32_to_int_floor; [lia | lia |].
    assert (Hp : 0 < 2 ^ (ep + 172)) by (apply Z.pow_pos_nonneg; lia).
    split; [lia|].
    replace (ez + 172) with ((ez - ep) + (ep + 172)) by lia.
    rewrite (Z.pow_add_r 2 (ez - ep) (ep + 172)) by lia.
    assert (H172 : 2 ^ 172 = 2 ^ (- ep) * 2 ^ (ep + 172))
      by (rewrite <- Z.pow_add_r by lia; f_equal; lia).
    assert (Hm1 : 2 ^ (- ep) = 2 * 2 ^ (-1 - ep))
      by (rewrite <- Z.pow_succ_r by lia; f_equal; lia).
    rewrite H172, Hm1. nia.
  - (* 0.5 - 2^-24 and 0.5 - 2^-25 *)
    assert (Hep' : ep = -25).
    { destruct (Z.eq_dec ep (-25)) as [|Hne]; [assumption|exfalso].
      assert (H4 : 2 ^ (-24 - ep) * 2 ^ 23 = 2 ^ (-1 - ep))
        by (rewrite <- Z.pow_add_r by lia; f_equal; lia).
      assert (H2 : 2 ^ 2 <= 2 ^ (-24 - ep)) by (apply Z.pow_le_mono_r; lia).
      change (2 ^ 2) with 4 in H2. change (2 ^ 23) with 8388608 in H4.
      change (2 ^ 24) with 16777216 in Hmp. lia. }
    subst ep. change (2 ^ (-24 - -25)) with 2 in Hge.
    change (2 ^ (-1 - -25)) with 16777216 in Hge.
    change (2 ^ 24) with 16777216 in Hmp.
    assert (Hc : mp = 16777214%positive \/ mp = 16777215%positive) by lia.
    destruct Hc as [-> | ->]; vm_compute; reflexivity.
Qed.

(** From one half up to 256: the sum is either exact or lands strictly
    between a power of two and the next integer. *)
Lemma add_half_trunc_mid (mp : positive) (ep : Z) :
  2 ^ 23 <= Zpos mp < 2 ^ 24 -> -24 <= ep <= -16 ->
  f32_to_int (f32_add (S754_finite false mp ep) f32_half) =
    round_to_nearest (S754_finite false mp ep).
Proof.
  intros Hmp Hep.
  destruct (f32_add_half_sum mp ep) as (Sp & -> & HS).
  replace (Z.min ep (-24)) with (-24) in * by lia.
  change (2 ^ (-24 - -24)) with 1 in HS. rewrite Z.mul_1_r in HS.
  replace (ep - -24) with (ep + 24) in HS by lia.
  set (k := ep + 24) in *.
  assert (Hk : 0 <= k <= 8) by (subst k; lia).
  assert (Hpk : 0 < 2 ^ k) by (apply Z.pow_pos_nonneg; lia).
  assert (Hq : exists q : positive, ep = Zneg q /\ Zpos q = 24 - k).
  { destruct ep as [|q|q]; try lia. exists q. split; [reflexivity | subst k; lia]. }
  destruct Hq as (q & Hepq & Hqk).
  assert (H2q : 2 ^ Zpos q * 2 ^ k = 2 ^ 24).
  { rewrite <- Z.pow_add_r by lia. f_equal. lia. }
  assert (Hround : forall N, N * 2 ^ 25 <= 2 * Zpos Sp < (N + 1) * 2 ^ 25 ->
            round_to_nearest (S754_finite false mp ep) = N).
  { intros N [Hlo Hhi]. rewrite Hepq, round_to_nearest_neg.
    assert (H2S : 2 * Zpos Sp = (2 * Zpos mp + 2 ^ Zpos q) * 2 ^ k).
    { rewrite HS, Z.mul_add_distr_r, H2q. change (2 ^ 24) with (2 * 8388608). ring. }
    assert (H25 : 2 ^ (Zpos q + 1) * 2 ^ k = 2 ^ 25).
    { rewrite <- Z.pow_add_r by lia. f_equal. lia. }
    assert (Hpq : 0 < 2 ^ (Zpos q + 1)) by (apply Z.pow_pos_nonneg; lia).
    symmetry.
    apply Z.div_unique_pos with (r := 2 * Zpos mp + 2 ^ Zpos q - N * 2 ^ (Zpos q + 1));
      [|ring].
    split; nia. }
  destruct (Z_lt_le_dec (Zpos Sp) (2 ^ (24 + k))) as [Hlt | Hge].
  - (* no carry: the sum is a float *)
    assert (HQ : exists Q : positive, Zpos Q = Zpos mp + 2 ^ (23 - k)).
    { exists (Z.to_pos (Zpos mp + 2 ^ (23 - k))).
      assert (0 < 2 ^ (23 - k)) by (apply Z.pow_pos_nonneg; lia). lia. }
    destruct HQ as (Q & HQ).
    assert (HSQ : Zpos Sp = Zpos Q * 2 ^ k).
    { rewrite HS, HQ, Z.mul_add_distr_r, <- Z.pow_add_r by lia.
      replace (23 - k + k) with 23 by lia. reflexivity. }
    assert (HdQ : Zpos (digits2_pos Q) = 24).
    { change (Zpos (digits2_pos Q)) with (Zdigits2 (Zpos Q)).
      apply Zdigits2_unique; [|lia]. change (2 ^ (24 - 1)) with (2 ^ 23).
      assert (0 <= 2 ^ (23 - k)) by (apply Z.pow_nonneg; lia).
      split; [lia|].
      rewrite (Z.pow_add_r 2 24 k) in Hlt by lia. nia. }
    assert (Hres : binary_round 24 128 false Sp (-24) = S754_finite false Q ep).
    { unfold binary_round.
      destruct (Z.eq_dec k 0) as [Hk0 | Hk0].
      - assert (Sp = Q).
        { apply Pos2Z.inj. rewrite HSQ, Hk0. change (2 ^ 0) with 1. lia. }
        subst Sp. assert (Hep24 : ep = -24) by (subst k; lia).
        assert (Hf : fexp 24 128 (Zpos (digits2_pos Q) + -24) = -24)
          by (rewrite HdQ; reflexivity).
        rewrite Hf, shl_align_id, Hep24 by lia.
        apply binary_round_aux_canonical; [exact Hf | lia].
      - assert (HSp : Sp = Pos.iter xO Q (Z.to_pos k)).
        { apply Pos2Z.inj. rewrite HSQ, iter_xO_mul, Pos2Z.inj_mul, Pos2Z.inj_pow.
          f_equal. f_equal. lia. }
        assert (Hf : fexp 24 128 (Zpos (digits2_pos Sp) + -24) = ep).
        { rewrite HSp, digits2_pos_iter_xO, Pos2Z.inj_add, HdQ.
          unfold fexp, emin. subst k. lia. }
        rewrite Hf, shl_align_id by lia. rewrite HSp.
        replace ep with (-24 + Zpos (Z.to_pos k)) by (subst k; lia).
        apply binary_round_aux_exact_shift.
        + rewrite HdQ. unfold fexp, emin. lia.
        + lia. }
    rewrite Hres. rewrite Hepq. rewrite f32_to_int_neg.
    + symmetry. rewrite <- Hepq. apply Hround.
      assert (HdivQ := Z.div_mod (Zpos Q) (2 ^ Zpos q) ltac:(lia)).
      assert (HmodQ := Z.mod_pos_bound (Zpos Q) (2 ^ Zpos q) ltac:(lia)).
      change (2 ^ 25) with (2 * 2 ^ 24). rewrite <- H2q, HSQ. nia.
    + assert (Zpos Q / 2 ^ Zpos q <= Zpos Q)
        by (apply Z.div_le_upper_bound; [lia | nia]).
      assert (Zpos Q < 2 ^ 24).
      { rewrite (Z.pow_add_r 2 24 k) in Hlt by lia. nia. }
      change (2 ^ 24) with 16777216 in *. change (2 ^ 31) with 2147483648. lia.
  - (* carry into the next binade: the sum rounds within (2^k, 2^k + 1) *)
    assert (HSup : Zpos Sp < 2 ^ (24 + k) + 2 ^ 23).
    { rewrite HS, (Z.pow_add_r 2 24 k) by lia. change 8388608 with (2 ^ 23). nia. }
    assert (H2423 : 2 ^ 23 <= 2 ^ (24 + k)) by (apply Z.pow_le_mono_r; lia).
    assert (HdS : Zpos (digits2_pos Sp) = 25 + k).
    { change (Zpos (digits2_pos Sp)) with (Zdigits2 (Zpos Sp)).
      apply Zdigits2_unique; [|lia].
      replace (25 + k - 1) with (24 + k) by lia.
      replace (25 + k) with (Z.succ (24 + k)) by lia.
      rewrite Z.pow_succ_r by lia. lia. }
    assert (Hf : fexp 24 128 (Zpos (digits2_pos Sp) + -24) = ep + 1)
      by (rewrite HdS; unfold fexp, emin; subst k; lia).
    unfold binary_round. rewrite Hf, shl_align_id by lia.
    destruct (binary_round_aux_result Sp (-24) ltac:(lia))
      as (mz & ez & Hmz & -> & Hez & Hup & Hlo & _).
    rewrite Hf in Hez, Hup.
    replace (ep + 1 - -24) with (k + 1) in Hup by (subst k; lia).
    set (c := ez - -24) in *.
    assert (Hc : k + 1 <= c <= k + 2) by (subst c k; lia).
    assert (Hpc : 0 < 2 ^ c) by (apply Z.pow_pos_nonneg; lia).
    assert (Hsplit : 2 ^ (24 + k) = 2 ^ (24 + k - c) * 2 ^ c)
      by (rewrite <- Z.pow_add_r by lia; f_equal; lia).
    assert (Hmlo : 2 ^ (24 + k - c) <= mz).
    { etransitivity; [|exact Hlo].
      apply Z.div_le_lower_bound; [exact Hpc|]. rewrite Z.mul_comm, <- Hsplit. exact Hge. }
    assert (Hpos : 0 < 2 ^ (24 + k - c)) by (apply Z.pow_pos_nonneg; lia).
    destruct mz as [|m|m]; try lia.
    replace (ez <=? 104) with true by (symmetry; apply Z.leb_le; lia).
    assert (Hk8 : 2 ^ k <= 2 ^ 8) by (apply Z.pow_le_mono_r; lia).
    assert (Hk1 : 2 ^ (k + 1) = 2 * 2 ^ k)
      by (rewrite Z.pow_add_r by lia; change (2 ^ 1) with 2; ring).
    assert (H24k : 2 ^ (24 + k) = 2 ^ 24 * 2 ^ k) by (apply Z.pow_add_r; lia).
    change (2 ^ 8) with 256 in Hk8. change (2 ^ 23) with 8388608 in *.
    change (2 ^ 24) with 16777216 in *.
    transitivity (2 ^ k).
    + apply f32_to_int_floor; [lia | change (2 ^ 31) with 2147483648; lia |].
      replace (ez + 172) with (c + 148) by (subst c; lia).
      rewrite (Z.pow_add_r 2 c 148) by lia.
      assert (H172 : 2 ^ 172 = 16777216 * 2 ^ 148) by reflexivity.
      assert (H148 : 0 < 2 ^ 148) by (apply Z.pow_pos_nonneg; lia).
      rewrite H172. split; nia.
    + symmetry. apply Hround. change (2 ^ 25) with (2 * 16777216). split; nia.
Qed.

(** The product of a byte and an opacity in [0, 1], as a multiple of
    [2^-172]. *)
Lemma product_bound (a : Z) (ma m : positive) (ea e : Z) :
  0 <= a -> -23 <= ea <= -16 -> Zpos ma = a * 2 ^ (- ea) ->
  -149 <= e <= -23 -> Zpos m * 2 ^ (e + 149) <= 2 ^ 149 ->
  Zpos (ma * m) * 2 ^ (ea + e + 172) <= a * 2 ^ 172.
Proof.
  intros Ha Hea Hma He Hop.
  rewrite Pos2Z.inj_mul, Hma.
  replace (ea + e + 172) with ((ea + 23) + (e + 149)) by lia.
  rewrite (Z.pow_add_r 2 (ea + 23) (e + 149)) by lia.
  assert (H23 : 2 ^ (- ea) * 2 ^ (ea + 23) = 2 ^ 23)
    by (rewrite <- Z.pow_add_r by lia; f_equal; lia).
  replace (a * 2 ^ (- ea) * Zpos m * (2 ^ (ea + 23) * 2 ^ (e + 149)))
    with (a * (2 ^ (- ea) * 2 ^ (ea + 23)) * (Zpos m * 2 ^ (e + 149))) by ring.
  rewrite H23.
  change (2 ^ 172) with (2 ^ 23 * 2 ^ 149).
  rewrite (Z.mul_assoc a (2 ^ 23) (2 ^ 149)).
  apply Z.mul_le_mono_nonneg_l; [|exact Hop].
  apply Z.mul_nonneg_nonneg; [lia | apply Z.pow_nonneg; lia].
Qed.

(** The effective alpha is the product rounded to the nearest integer,
    except for the one product whose sum with one half rounds up to 1. *)
Lemma scaled_alpha_round (a : Z) (opacity : float) :
  0 <= a < 256 ->
  valid_binary 24 128 opacity = true ->
  SFleb f32_zero opacity = true -> SFleb opacity f32_one = true ->
  scaled_alpha a opacity =
    if is_pred_half (f32_mul (f32_of_Z a) opacity) then 1
    else round_alpha a opacity.
Proof.
  intros Ha Hv H0 H1. unfold scaled_alpha, round_alpha.
  assert (Hzero : forall s, f32_mul (f32_of_Z a) opacity = S754_zero s ->
            f32_to_int (f32_add (f32_mul (f32_of_Z a) opacity) f32_half) =
            if is_pred_half (f32_mul (f32_of_Z a) opacity) then 1
            else round_to_nearest (f32_mul (f32_of_Z a) opacity)).
  { intros s ->. destruct s; reflexivity. }
  destruct (Z.eq_dec a 0) as [-> | Hne].
  { destruct opacity as [s | s | | s m e]; try discriminate;
      try (destruct s; discriminate); eapply Hzero; reflexivity. }
  destruct (f32_of_Z_byte a ltac:(lia)) as (ma & ea & Hof & Hea & Hma & Hdma).
  destruct opacity as [s | s | | s m e]; try discriminate.
  - eapply Hzero. rewrite Hof. reflexivity.
  - destruct s; discriminate.
  - destruct s; [discriminate|].
    apply le_one_bound in H1 as [He Hop]; [|exact Hv].
    pose proof (product_bound a ma m ea e ltac:(lia) Hea Hma He Hop) as Hval.
    clear Hzero. rewrite Hof. unfold f32_mul, SFmul. cbn [xorb].
    set (P := (ma * m)%positive) in *. set (E := ea + e) in *.
    assert (HE : -172 <= E <= -39) by (subst E; lia).
    assert (Hp : 0 < 2 ^ (E + 172)) by (apply Z.pow_pos_nonneg; lia).
    assert (H180 : a * 2 ^ 172 < 2 ^ 180).
    { change (2 ^ 180) with (256 * 2 ^ 172).
      assert (0 < 2 ^ 172) by (apply Z.pow_pos_nonneg; lia). nia. }
    (* the digits of the exact product *)
    assert (HdPu : Zpos (digits2_pos P) <= 8 - E).
    { apply digits_le_of_lt; [lia|].
      assert (Hs : 2 ^ 180 = 2 ^ (8 - E) * 2 ^ (E + 172))
        by (rewrite <- Z.pow_add_r by lia; f_equal; lia).
      rewrite Hs in H180. nia. }
    assert (HdPl : 24 <= Zpos (digits2_pos P)).
    { pose proof (Zdigits2_spec (Zpos ma) ltac:(lia)) as [Hl _].
      pose proof (Zdigits2_spec (Zpos P) ltac:(lia)) as [_ Hu].
      cbn [Zdigits2] in Hl, Hu. rewrite Hdma in Hl.
      assert (HPma : Zpos ma <= Zpos P) by (subst P; rewrite Pos2Z.inj_mul; nia).
      destruct (Z.lt_ge_cases (Zpos (digits2_pos P)) 24) as [Hlt|]; [|lia].
      assert (2 ^ Zpos (digits2_pos P) <= 2 ^ (24 - 1))
        by (apply Z.pow_le_mono_r; lia).
      lia. }
    assert (HEf : E <= fexp 24 128 (Zpos (digits2_pos P) + E))
      by (unfold fexp, emin; lia).
    destruct (binary_round_aux_result P E HEf)
      as (mz & ez & Hmz & -> & Hez & Hup & _ & Hcan).
    assert (Hfx : fexp 24 128 (Zpos (digits2_pos P) + E) <= -16)
      by (unfold fexp, emin; lia).
    assert (Hfl : -149 <= fexp 24 128 (Zpos (digits2_pos P) + E))
      by (unfold fexp, emin; lia).
    destruct mz as [|mp|mp]; [reflexivity | | lia].
    specialize (Hcan ltac:(lia)). cbn [Zdigits2] in Hcan.
    (* the rounded product, as a multiple of 2^-172 *)
    assert (HV : Zpos mp * 2 ^ (ez + 172) < 2 ^ 180).
    { replace (ez + 172) with ((ez - E) + (E + 172)) by lia.
      rewrite (Z.pow_add_r 2 (ez - E) (E + 172)) by lia.
      assert (Hpn : 2 ^ (fexp 24 128 (Zpos (digits2_pos P) + E) - E) * 2 ^ (E + 172)
                    <= 2 ^ 156).
      { rewrite <- Z.pow_add_r by lia. apply Z.pow_le_mono_r; lia. }
      assert (H156 : a * 2 ^ 172 + 2 ^ 156 < 2 ^ 180).
      { change (2 ^ 180) with (16777216 * 2 ^ 156).
        change (2 ^ 172) with (65536 * 2 ^ 156).
        assert (0 < 2 ^ 156) by (apply Z.pow_pos_nonneg; lia). nia. }
      nia. }
    assert (Hdmp : Zpos (digits2_pos mp) <= 24) by (unfold fexp, emin in Hcan; lia).
    assert (Hmp24 : Zpos mp < 2 ^ 24).
    { pose proof (Zdigits2_spec (Zpos mp) ltac:(lia)) as [_ Hu]. cbn [Zdigits2] in Hu.
      assert (2 ^ Zpos (digits2_pos mp) <= 2 ^ 24) by (apply Z.pow_le_mono_r; lia).
      lia. }
    destruct (Z_le_gt_dec ez (-25)) as [Hsmall | Hmid].
    + replace (ez <=? 104) with true by (symmetry; apply Z.leb_le; lia).
      apply add_half_trunc_small; [exact Hmp24 | lia].
    + assert (Hd24 : Zpos (digits2_pos mp) = 24) by (unfold fexp, emin in Hcan; lia).
      assert (Hmp23 : 2 ^ 23 <= Zpos mp).
      { pose proof (Zdigits2_spec (Zpos mp) ltac:(lia)) as [Hl _].
        cbn [Zdigits2] in Hl. rewrite Hd24 in Hl. exact Hl. }
      assert (Hez16 : ez <= -16).
      { destruct (Z_le_gt_dec ez (-16)) as [|Hgt]; [assumption|exfalso].
        assert (Hq : 2 ^ 157 <= 2 ^ (ez + 172)) by (apply Z.pow_le_mono_r; lia).
        change (2 ^ 180) with (2 ^ 23 * 2 ^ 157) in HV.
        assert (0 < 2 ^ 157) by (apply Z.pow_pos_nonneg; lia). nia. }
      replace (ez <=? 104) with true by (symmetry; apply Z.leb_le; lia).
      replace (is_pred_half (S754_finite false mp ez)) with false.
      * apply add_half_trunc_mid; lia.
      * symmetry. cbn [is_pred_half].
        replace (ez =? -25) with false by (symmetry; apply Z.eqb_neq; lia).
        apply andb_false_r.
Qed.

(** ** Matcher *)

Lemma detect_template_degenerate `{cv : OpenCV} frame_gray templ_gray threshold outs :
  fails_closed frame_gray templ_gray = true ->
  detect_template frame_gray templ_gray threshold outs = (false, outs).
Proof.
  unfold fails_closed, detect_template. intros H.
  destruct (Mat_empty frame_gray || Mat_empty templ_gray); [reflexivity|].
  cbn in H. rewrite H. reflexivity.
Qed.

Lemma detect_template_regular `{cv : OpenCV} frame_gray templ_gray threshold outs :
  fails_closed frame_gray templ_gray = false ->
  let mm := cv_minMaxLoc (cv_matchTemplate_ccoeff_normed frame_gray templ_gray) in
  detect_template frame_gray templ_gray threshold outs =
    if geb (max_val mm) (f32_to_f64 threshold)
    then (true, mkOutputs (assign (out_x outs) (pt_x (max_loc mm)))
                          (assign (out_y outs) (pt_y (max_loc mm)))
                          (assign (out_score outs) (f64_to_f32 (max_val mm))))
    else (false, mkOutputs (out_x outs) (out_y outs)
                           (assign (out_score outs) (f64_to_f32 (max_val mm)))).
Proof.
  unfold fails_closed, detect_template. intros H.
  apply orb_false_elim in H as [H Hr]. apply orb_false_elim in H as [He Hc].
  rewrite He, Hc, Hr. reflexivity.
Qed.

(** C6: when the frame image is empty, the template is empty, or the
    template is wider or taller than the frame, the matcher returns false
    and hands back every output cell as it received it; the result does
    not depend on OpenCV, which is not called. *)
Theorem detect_template_fails_closed `{cv : OpenCV}
    (frame_gray templ_gray : Mat) (threshold : float) (outs : outputs) :
  Mat_empty frame_gray = true \/ Mat_empty templ_gray = true
  \/ mat_cols templ_gray > mat_cols frame_gray
  \/ mat_rows templ_gray > mat_rows frame_gray ->
  detect_template frame_gray templ_gray threshold outs = (false, outs).
Proof.
  intros H. apply detect_template_degenerate. unfold fails_closed.
  destruct H as [H | [H | [H | H]]].
  - rewrite H. reflexivity.
  - rewrite H, orb_true_r. reflexivity.
  - apply Z.gtb_gt in H. rewrite H, orb_true_r. reflexivity.
  - apply Z.gtb_gt in H. rewrite H, orb_true_r. reflexivity.
Qed.

Lemma detect_template_fails_closed_witness :
  mat_cols sample_template > mat_cols (mkMat 1 1 1 1 [5])
  /\ detect_template (cv := fixed_cv f64_0_9 (mkPoint 2 0))
       (mkMat 1 1 1 1 [5]) sample_template f32_0_8
       (mkOutputs (Some 3) (Some 4) (Some f32_one)) =
     (false, mkOutputs (Some 3) (Some 4) (Some f32_one)).
Proof.
  split; [cbn; lia|].
  apply detect_template_fails_closed. right; right; left. cbn. lia.
Defined.

(** C4 as stated does not hold: when the template is larger than the
    frame the score cell keeps whatever it held before the call. *)
Lemma score_not_written_when_template_too_large :
  ~ score_always_written (cv := fixed_cv f64_0_9 (mkPoint 2 0)).
Proof.
  intros H.
  specialize (H (mkMat 1 1 1 1 [5]) sample_template f32_0_8
                (Some 0) (Some 0) f32_zero f32_one).
  cbn in H. discriminate H.
Qed.

(** C4 (amended): when both images are non-empty and the template fits in
    the frame, the score cell receives the maximum of the correlation
    surface, narrowed to [float], whether or not the match succeeds; on
    the other inputs the cell is left as it was. *)
Theorem detect_template_score `{cv : OpenCV}
    (frame_gray templ_gray : Mat) (threshold : float) (outs : outputs) :
  out_score (snd (detect_template frame_gray templ_gray threshold outs)) =
    if fails_closed frame_gray templ_gray then out_score outs
    else assign (out_score outs)
           (f64_to_f32 (max_val (cv_minMaxLoc
              (cv_matchTemplate_ccoeff_normed frame_gray templ_gray)))).
Proof.
  destruct (fails_closed frame_gray templ_gray) eqn:Hf.
  - rewrite detect_template_degenerate by exact Hf. reflexivity.
  - rewrite detect_template_regular by exact Hf. cbv zeta.
    destruct (geb _ _); reflexivity.
Qed.

(** C5: when both images are non-empty and the template fits in the
    frame, the matcher returns true if and only if the maximum of the
    correlation surface is [>=] the threshold.  The surface holds [float]s:
    when its maximum is the [float] [v], the comparison (made in [double])
    is the comparison of [v] with the threshold as [float]s, the reported
    score is [v], and a [v] equal to the threshold is a match. *)
Theorem detect_template_threshold `{cv : OpenCV}
    (frame_gray templ_gray : Mat) (threshold : float) (outs : outputs) :
  fails_closed frame_gray templ_gray = false ->
  let score :=
    max_val (cv_minMaxLoc (cv_matchTemplate_ccoeff_normed frame_gray templ_gray)) in
  let result := detect_template frame_gray templ_gray threshold outs in
  (fst result = true <-> geb score (f32_to_f64 threshold) = true)
  /\ forall v : float,
       valid_binary 24 128 v = true ->
       valid_binary 24 128 threshold = true ->
       score = f32_to_f64 v ->
       (fst result = true <-> geb v threshold = true)
       /\ out_score (snd result) = assign (out_score outs) v
       /\ (v = threshold -> is_nan threshold = false -> fst result = true).
Proof.
  intros Hf score result.
  assert (Hres : fst result = geb score (f32_to_f64 threshold)
                 /\ out_score (snd result) = assign (out_score outs) (f64_to_f32 score)).
  { subst result score. rewrite detect_template_regular by exact Hf. cbv zeta.
    destruct (geb _ _); split; reflexivity. }
  destruct Hres as [Hfst Hsc].
  split; [rewrite Hfst; reflexivity|].
  intros v Hv Ht Hs.
  assert (Hg : fst result = geb v threshold).
  { rewrite Hfst, Hs. apply geb_widen; assumption. }
  split; [rewrite Hg; reflexivity|].
  split.
  - rewrite Hsc, Hs, f64_to_f32_widen by exact Hv. reflexivity.
  - intros -> Hn. rewrite Hg. apply geb_refl. exact Hn.
Qed.

(** Threshold 0.8f: a maximum of exactly 0.8f is a match, the [float]
    just below is not. *)
Lemma detect_template_threshold_witness :
  fails_closed (mkMat 3 4 1 4 []) sample_template = false
  /\ fst (detect_template (cv := fixed_cv (f32_to_f64 f32_0_8) (mkPoint 2 0))
            (mkMat 3 4 1 4 []) sample_template f32_0_8
            (mkOutputs (Some 0) (Some 0) (Some f32_zero))) = true
  /\ fst (detect_template
            (cv := fixed_cv (f32_to_f64 (S754_finite false 13421772 (-24)))
                     (mkPoint 2 0))
            (mkMat 3 4 1 4 []) sample_template f32_0_8
            (mkOutputs (Some 0) (Some 0) (Some f32_zero))) <> true.
Proof.
  split; [reflexivity|]. split.
  - apply (detect_template_threshold (cv := fixed_cv (f32_to_f64 f32_0_8) (mkPoint 2 0))
             (mkMat 3 4 1 4 []) sample_template f32_0_8
             (mkOutputs (Some 0) (Some 0) (Some f32_zero)));
      reflexivity.
  - intros Hm.
    apply (detect_template_threshold
             (cv := fixed_cv (f32_to_f64 (S754_finite false 13421772 (-24)))
                      (mkPoint 2 0))
             (mkMat 3 4 1 4 []) sample_template f32_0_8
             (mkOutputs (Some 0) (Some 0) (Some f32_zero))) in Hm;
      [discriminate Hm | reflexivity].
Defined.

(** ** Frame pipeline: null frames, settings updates, unsupported formats *)

(** C10: for a null input frame the callback returns null at once; the
    instance (configuration and detection state) is returned as it was, and
    the call has no event: no warning, no detection, no compositing. *)
Theorem video_null_frame `{cv : OpenCV} (filter : shape_overlay_filter_data) (now : Z) :
  shape_overlay_filter_video filter None now = (None, filter, []).
Proof. reflexivity. Qed.

(** C9: a settings update sets [last_valid] to false and leaves
    [last_detect_ts], [last_x], [last_y] and [last_score] as they were. *)
Theorem update_invalidates_match `{cv : OpenCV}
    (filter : shape_overlay_filter_data) (settings : obs_data_t) :
  let filter' := shape_overlay_filter_update filter settings in
  last_valid filter' = false
  /\ last_detect_ts filter' = last_detect_ts filter
  /\ last_x filter' = last_x filter
  /\ last_y filter' = last_y filter
  /\ last_score filter' = last_score filter.
Proof. cbv zeta. unfold shape_overlay_filter_update. cbn. repeat split. Qed.

Lemma supported_format_gate (fmt : video_format) :
  supported_format fmt = true ->
  negb (video_format_eqb fmt VIDEO_FORMAT_BGRA)
  && negb (video_format_eqb fmt VIDEO_FORMAT_BGRX) = false.
Proof. destruct fmt; cbn; congruence. Qed.

Lemma supported_format_false (fmt : video_format) :
  fmt <> VIDEO_FORMAT_BGRA -> fmt <> VIDEO_FORMAT_BGRX -> supported_format fmt = false.
Proof. destruct fmt; cbn; congruence. Qed.

Lemma video_unsupported `{cv : OpenCV} filter fr now :
  supported_format (frame_format fr) = false ->
  shape_overlay_filter_video filter (Some fr) now =
    (Some fr,
     if warned_format filter then filter else set_warned_format filter,
     if warned_format filter then [] else [LogWarning (frame_format fr)]).
Proof.
  unfold supported_format. intros H.
  apply orb_false_elim in H as [Ha Hx].
  unfold shape_overlay_filter_video. rewrite Ha, Hx. cbn.
  destruct (warned_format filter); reflexivity.
Qed.

Lemma video_supported_log `{cv : OpenCV} filter fr now :
  supported_format (frame_format fr) = true ->
  let '(_, filter', log) := shape_overlay_filter_video filter (Some fr) now in
  warned_format filter' = warned_format filter
  /\ count_events is_warning log = 0%nat.
Proof.
  intros H. unfold shape_overlay_filter_video.
  rewrite (supported_format_gate _ H).
  destruct (Mat_empty (template_gray filter) || Mat_empty (overlay_draw filter)).
  { split; reflexivity. }
  cbv zeta.
  destruct (should_detect _ _ _);
    match goal with |- context [negb ?b] => destruct b end;
    cbn; split; reflexivity.
Qed.

Lemma count_events_app p (l1 l2 : list event) :
  count_events p (l1 ++ l2) = (count_events p l1 + count_events p l2)%nat.
Proof. unfold count_events. rewrite filter_app, length_app. reflexivity. Qed.

(** The warnings of a whole run: one if the flag was clear and some frame
    of the run has an unsupported format, none otherwise. *)
Lemma run_warnings `{cv : OpenCV} (calls : list call) :
  forall filter,
    count_events is_warning (snd (run filter calls)) =
      if warned_format filter then 0%nat
      else if existsb unsupported_call calls then 1%nat else 0%nat.
Proof.
  induction calls as [|c calls IH]; intros filter.
  - cbn. destruct (warned_format filter); reflexivity.
  - destruct c as [settings | [fr|] now].
    + cbn [run existsb unsupported_call orb]. rewrite IH. reflexivity.
    + cbn [run existsb unsupported_call].
      destruct (supported_format (frame_format fr)) eqn:Hs.
      * pose proof (video_supported_log filter fr now Hs) as Hv.
        destruct (shape_overlay_filter_video filter (Some fr) now) as [[r filter'] log].
        destruct Hv as [Hw Hc].
        specialize (IH filter').
        destruct (run filter' calls) as [filter'' log'].
        cbn [snd negb orb] in *. rewrite count_events_app, Hc, IH, Hw. reflexivity.
      * rewrite (video_unsupported filter fr now Hs).
        specialize (IH (if warned_format filter then filter else set_warned_format filter)).
        destruct (run _ calls) as [filter'' log'].
        cbn [snd negb orb] in *. rewrite count_events_app, IH.
        destruct (warned_format filter) eqn:Hw; [rewrite Hw|]; reflexivity.
    + cbn [run existsb unsupported_call orb].
      cbn [shape_overlay_filter_video]. specialize (IH filter).
      destruct (run filter calls) as [filter'' log']. cbn [snd app] in *. exact IH.
Qed.

(** C8: a frame whose format is neither BGRA nor BGRX is returned as it
    is, the detection state is not modified, and the call logs the warning
    exactly when the instance has not warned before; over all the calls
    made on an instance since its creation there is one warning if some
    frame had an unsupported format and none otherwise. *)
Theorem video_unsupported_format `{cv : OpenCV}
    (filter : shape_overlay_filter_data) (fr : obs_source_frame) (now : Z) :
  frame_format fr <> VIDEO_FORMAT_BGRA ->
  frame_format fr <> VIDEO_FORMAT_BGRX ->
  exists filter',
    shape_overlay_filter_video filter (Some fr) now =
      (Some fr, filter',
       if warned_format filter then [] else [LogWarning (frame_format fr)])
    /\ snapshot filter' = snapshot filter
    /\ warned_format filter' = true
    /\ forall settings calls,
         count_events is_warning
           (snd (run (shape_overlay_filter_create settings) calls)) =
         if existsb unsupported_call calls then 1%nat else 0%nat.
Proof.
  intros Ha Hx.
  pose proof (supported_format_false _ Ha Hx) as Hs.
  exists (if warned_format filter then filter else set_warned_format filter).
  split; [apply video_unsupported; exact Hs|].
  split; [destruct (warned_format filter); reflexivity|].
  split; [destruct (warned_format filter) eqn:Hw; [exact Hw | reflexivity]|].
  intros settings calls. rewrite run_warnings. reflexivity.
Qed.

Lemma video_unsupported_format_witness :
  VIDEO_FORMAT_I420 <> VIDEO_FORMAT_BGRA
  /\ VIDEO_FORMAT_I420 <> VIDEO_FORMAT_BGRX
  /\ exists filter',
       shape_overlay_filter_video (cv := fixed_cv f64_0_9 (mkPoint 2 0))
         (sample_filter 0 true true) (Some (sample_frame VIDEO_FORMAT_I420)) 5000 =
         (Some (sample_frame VIDEO_FORMAT_I420), filter', [LogWarning VIDEO_FORMAT_I420])
       /\ snapshot filter' = snapshot (sample_filter 0 true true)
       /\ warned_format filter' = true.
Proof.
  split; [discriminate|]. split; [discriminate|].
  destruct (video_unsupported_format (cv := fixed_cv f64_0_9 (mkPoint 2 0))
              (sample_filter 0 true true) (sample_frame VIDEO_FORMAT_I420) 5000)
    as (filter' & Hv & Hs & Hw & _); [discriminate | discriminate |].
  exists filter'. repeat split; assumption.
Defined.

(** ** Detection scheduler *)

Lemma video_supported `{cv : OpenCV} filter fr now :
  supported_format (frame_format fr) = true ->
  Mat_empty (template_gray filter) = false ->
  Mat_empty (overlay_draw filter) = false ->
  shape_overlay_filter_video filter (Some fr) now =
    let d0 := snapshot filter in
    let due := should_detect (interval_ms filter) now (d_ts d0) in
    let d := if due then detect_step filter fr now d0 else d0 in
    let filter' :=
      if due then set_detection filter (d_ts d) (d_x d) (d_y d) (d_valid d) (d_score d)
      else filter in
    if d_valid d
    then (Some (composited filter fr (d_x d) (d_y d)), filter',
          (if due then [DetectTemplate] else []) ++ [BlendOverlay])
    else (Some fr, filter', if due then [DetectTemplate] else []).
Proof.
  intros Hs Ht Ho. unfold shape_overlay_filter_video.
  rewrite (supported_format_gate _ Hs).
  rewrite Ht, Ho. cbv zeta. cbn [orb].
  destruct (should_detect _ _ _);
    match goal with |- context [negb (d_valid ?d)] => destruct (d_valid d) end;
    reflexivity.
Qed.

Lemma detect_template_cells `{cv : OpenCV} frame_gray templ_gray threshold x0 y0 s0 :
  exists matched x y,
    detect_template frame_gray templ_gray threshold
      (mkOutputs (Some x0) (Some y0) (Some s0)) =
    (matched,
     mkOutputs (Some x) (Some y)
       (Some (if fails_closed frame_gray templ_gray then s0
              else f64_to_f32 (max_val (cv_minMaxLoc
                     (cv_matchTemplate_ccoeff_normed frame_gray templ_gray)))))).
Proof.
  destruct (fails_closed frame_gray templ_gray) eqn:Hf.
  - rewrite detect_template_degenerate by exact Hf. eauto.
  - rewrite detect_template_regular by exact Hf. cbv zeta.
    destruct (geb _ _); cbn; eauto.
Qed.

(** C2: when an attempt is made, with [matched], [(x, y)] and [score] what
    the matcher returned and left in the caller's cells ([score] is the
    maximum of the correlation surface, or the caller's initial 0 when the
    matcher failed closed): the stored score becomes [score] and the stored
    timestamp becomes [now] in both cases; on a match the stored location
    becomes [(x, y)] and the stored validity true; on a miss the location
    is kept and the validity becomes [last_valid && !only_when_matched]. *)
Theorem detection_attempt_state `{cv : OpenCV}
    (filter : shape_overlay_filter_data) (fr : obs_source_frame) (now : Z) :
  supported_format (frame_format fr) = true ->
  Mat_empty (template_gray filter) = false ->
  Mat_empty (overlay_draw filter) = false ->
  should_detect (interval_ms filter) now (last_detect_ts filter) = true ->
  exists matched x y score ret filter' log,
    detect_template (frame_gray_of fr) (template_gray filter) (threshold filter)
      (mkOutputs (Some 0) (Some 0) (Some f32_zero)) =
      (matched, mkOutputs (Some x) (Some y) (Some score))
    /\ score =
         (if fails_closed (frame_gray_of fr) (template_gray filter) then f32_zero
          else f64_to_f32 (max_val (cv_minMaxLoc
                 (cv_matchTemplate_ccoeff_normed (frame_gray_of fr)
                    (template_gray filter)))))
    /\ shape_overlay_filter_video filter (Some fr) now = (ret, filter', log)
    /\ last_detect_ts filter' = now
    /\ last_score filter' = score
    /\ if matched
       then last_x filter' = x /\ last_y filter' = y /\ last_valid filter' = true
       else last_x filter' = last_x filter /\ last_y filter' = last_y filter
            /\ last_valid filter' = last_valid filter && negb (only_when_matched filter).
Proof.
  intros Hs Ht Ho Hdue.
  destruct (detect_template_cells (frame_gray_of fr) (template_gray filter)
              (threshold filter) 0 0 f32_zero) as (matched & x & y & Hd).
  exists matched, x, y. eexists.
  rewrite (video_supported filter fr now Hs Ht Ho). cbv zeta.
  cbn [snapshot d_ts]. rewrite Hdue.
  unfold detect_step. fold (frame_gray_of fr). rewrite Hd.
  cbn [out_score out_x out_y default from_option].
  destruct matched.
  - cbn [d_valid d_x d_y d_ts d_score]. do 3 eexists.
    split; [reflexivity|]. split; [reflexivity|]. split; [reflexivity|].
    cbn. repeat split.
  - destruct (only_when_matched filter) eqn:Howm.
    + cbn [d_valid d_x d_y d_ts d_score snapshot]. do 3 eexists.
      split; [reflexivity|]. split; [reflexivity|]. split; [reflexivity|]. cbn.
      rewrite andb_false_r. repeat split.
    + cbn [d_valid d_x d_y d_ts d_score snapshot].
      destruct (last_valid filter) eqn:Hv; do 3 eexists;
        (split; [reflexivity|]); (split; [reflexivity|]); (split; [reflexivity|]);
        cbn; rewrite ?Hv; repeat split.
Qed.

(** A miss two seconds after a hit, with [only_when_matched] set: the
    score is stored, the timestamp advances and the validity is cleared. *)
Lemma detection_attempt_state_witness :
  supported_format (frame_format (sample_frame VIDEO_FORMAT_BGRA)) = true
  /\ Mat_empty (template_gray (sample_filter 0 true true)) = false
  /\ Mat_empty (overlay_draw (sample_filter 0 true true)) = false
  /\ should_detect (interval_ms (sample_filter 0 true true)) 2000000000
       (last_detect_ts (sample_filter 0 true true)) = true
  /\ exists ret filter' log,
       shape_overlay_filter_video (cv := fixed_cv f64_0_5 (mkPoint 2 0))
         (sample_filter 0 true true) (Some (sample_frame VIDEO_FORMAT_BGRA))
         2000000000 = (ret, filter', log)
       /\ last_detect_ts filter' = 2000000000
       /\ last_score filter' = f64_to_f32 f64_0_5
       /\ last_valid filter' = false.
Proof.
  split; [reflexivity|]. split; [reflexivity|]. split; [reflexivity|].
  split; [reflexivity|].
  destruct (detection_attempt_state (cv := fixed_cv f64_0_5 (mkPoint 2 0))
              (sample_filter 0 true true) (sample_frame VIDEO_FORMAT_BGRA) 2000000000)
    as (matched & x & y & score & ret & filter' & log & Hd & Hsc & Hv & Hts & Hls & Hm);
    try reflexivity.
  exists ret, filter', log.
  split; [exact Hv|]. split; [exact Hts|].
  split; [rewrite Hls, Hsc; reflexivity|].
  assert (Hmf : matched = false) by (vm_compute in Hd; congruence).
  rewrite Hmf in Hm. destruct Hm as (_ & _ & Hlv). rewrite Hlv. reflexivity.
Defined.

(** Elapsed whole milliseconds reach the interval exactly when the
    elapsed nanoseconds reach the interval in nanoseconds. *)
Lemma due_nanoseconds (interval_ms now last_detect_ts : Z) :
  due interval_ms now last_detect_ts
  <-> interval_ms = 0 \/ now - last_detect_ts >= interval_ms * 1000000.
Proof.
  unfold due, elapsed_ms.
  assert (H : (now - last_detect_ts) / 1000000 >= interval_ms
              <-> now - last_detect_ts >= interval_ms * 1000000).
  { split; intros Hge.
    - pose proof (Z.mul_div_le (now - last_detect_ts) 1000000 ltac:(lia)). lia.
    - apply Z.le_ge. apply Z.div_le_lower_bound; lia. }
  tauto.
Qed.

Lemma should_detect_spec (interval_ms now last_detect_ts : Z) :
  0 <= interval_ms < 2 ^ 32 ->
  0 <= last_detect_ts <= now -> now < 2 ^ 64 ->
  should_detect interval_ms now last_detect_ts = true
  <-> due interval_ms now last_detect_ts.
Proof.
  intros Hi Hl Hn. rewrite due_nanoseconds. unfold should_detect, to_uint64.
  rewrite (Z.mod_small interval_ms) by lia.
  rewrite (Z.mod_small (interval_ms * 1000000)) by lia.
  rewrite (Z.mod_small (now - last_detect_ts)) by lia.
  rewrite orb_true_iff, Z.eqb_eq, Z.geb_le. lia.
Qed.


(** C1: for a frame in a supported format, with both images non-empty
    and a clock that has not gone back, a detection attempt is made if and
    only if [interval_ms = 0] or the time elapsed since [last_detect_ts]
    is at least [interval_ms] milliseconds (the clock counts nanoseconds:
    [now - last_detect_ts >= interval_ms * 1000000]).  When it is made,
    the call records one matcher invocation, and what it leaves is what
    [detect_template] returns on this frame's grey image, the stored
    template and the stored threshold, with cells initialised to 0: the
    timestamp becomes [now], the score becomes the score cell, the
    location becomes the location cells on a match and is kept on a miss,
    the validity becomes true on a match and
    [last_valid && !only_when_matched] on a miss, and the frame is
    composited by the new location and validity.  When it is not made no
    invocation is recorded, the instance is returned as it was, and the
    frame is composited at the stored location if the stored validity is
    true and returned as it is otherwise. *)
Theorem detection_gate `{cv : OpenCV}
    (filter : shape_overlay_filter_data) (fr : obs_source_frame) (now : Z) :
  supported_format (frame_format fr) = true ->
  Mat_empty (template_gray filter) = false ->
  Mat_empty (overlay_draw filter) = false ->
  0 <= interval_ms filter < 2 ^ 32 ->
  0 <= last_detect_ts filter <= now -> now < 2 ^ 64 ->
  exists ret filter' log,
    shape_overlay_filter_video filter (Some fr) now = (ret, filter', log)
    /\ (due (interval_ms filter) now (last_detect_ts filter)
        <-> interval_ms filter = 0
            \/ now - last_detect_ts filter >= interval_ms filter * 1000000)
    /\ (due (interval_ms filter) now (last_detect_ts filter) ->
        exists matched outs,
          detect_template (frame_gray_of fr) (template_gray filter)
            (threshold filter) (mkOutputs (Some 0) (Some 0) (Some f32_zero))
            = (matched, outs)
          /\ count_events is_detect log = 1%nat
          /\ filter' =
               set_detection filter now
                 (if matched then default 0 (out_x outs) else last_x filter)
                 (if matched then default 0 (out_y outs) else last_y filter)
                 (if matched then true
                  else last_valid filter && negb (only_when_matched filter))
                 (default f32_zero (out_score outs))
          /\ ret = Some (if last_valid filter'
                         then composited filter fr (last_x filter') (last_y filter')
                         else fr))
    /\ (~ due (interval_ms filter) now (last_detect_ts filter) ->
        count_events is_detect log = 0%nat
        /\ filter' = filter
        /\ ret = Some (if last_valid filter
                       then composited filter fr (last_x filter) (last_y filter)
                       else fr)).
Proof.
  intros Hs Ht Ho Hi Hl Hn.
  pose proof (should_detect_spec _ _ _ Hi Hl Hn) as Hspec.
  rewrite (video_supported filter fr now Hs Ht Ho). cbv zeta.
  cbn [snapshot d_ts].
  destruct (should_detect _ _ _) eqn:Hdue.
  - assert (Hd : due (interval_ms filter) now (last_detect_ts filter))
      by (apply Hspec; reflexivity).
    unfold detect_step. fold (frame_gray_of fr).
    destruct (detect_template (frame_gray_of fr) (template_gray filter)
                (threshold filter) (mkOutputs (Some 0) (Some 0) (Some f32_zero)))
      as [matched outs].
    destruct matched; [|destruct (only_when_matched filter)];
      cbn [d_ts d_x d_y d_valid d_score snapshot negb];
      rewrite ?andb_false_r, ?andb_true_r;
      try destruct (last_valid filter);
      do 3 eexists; (split; [reflexivity|]);
      (split; [apply due_nanoseconds|]);
      (split; [| intros Hnd; contradiction]);
      intros _; eexists _, outs; repeat split.
  - assert (Hd : ~ due (interval_ms filter) now (last_detect_ts filter))
      by (intros Hd; apply Hspec in Hd; congruence).
    cbn [snapshot d_valid d_x d_y app].
    destruct (last_valid filter); do 3 eexists; (split; [reflexivity|]);
      (split; [apply due_nanoseconds|]);
      (split; [intros Hd'; contradiction | intros _; repeat split]).
Qed.

(** Two calls on an instance with [interval_ms = 1000], a stored match at
    (1, 1) and a matcher that finds score 0.9 at (2, 0).  Half a second
    after the last attempt: no attempt, same instance, overlay drawn at
    the stored location.  Two seconds after it: the attempt is made, the
    instance holds what the matcher found and the overlay is drawn
    there. *)
Lemma detection_gate_witness :
  (supported_format (frame_format (sample_frame VIDEO_FORMAT_BGRX)) = true
   /\ Mat_empty (template_gray (sample_filter 1000000000 true true)) = false
   /\ Mat_empty (overlay_draw (sample_filter 1000000000 true true)) = false
   /\ 0 <= interval_ms (sample_filter 1000000000 true true) < 2 ^ 32
   /\ 0 <= last_detect_ts (sample_filter 1000000000 true true) <= 1500000000
   /\ 1500000000 < 2 ^ 64
   /\ ~ due (interval_ms (sample_filter 1000000000 true true)) 1500000000
          (last_detect_ts (sample_filter 1000000000 true true))
   /\ exists ret filter' log,
        shape_overlay_filter_video (cv := fixed_cv f64_0_9 (mkPoint 2 0))
          (sample_filter 1000000000 true true)
          (Some (sample_frame VIDEO_FORMAT_BGRX)) 1500000000 = (ret, filter', log)
        /\ count_events is_detect log = 0%nat
        /\ filter' = sample_filter 1000000000 true true
        /\ ret = Some (composited (sample_filter 1000000000 true true)
                         (sample_frame VIDEO_FORMAT_BGRX) 1 1))
  /\ (0 <= last_detect_ts (sample_filter 1000000000 true true) <= 3000000000
      /\ 3000000000 < 2 ^ 64
      /\ due (interval_ms (sample_filter 1000000000 true true)) 3000000000
           (last_detect_ts (sample_filter 1000000000 true true))
      /\ exists ret filter' log,
           shape_overlay_filter_video (cv := fixed_cv f64_0_9 (mkPoint 2 0))
             (sample_filter 1000000000 true true)
             (Some (sample_frame VIDEO_FORMAT_BGRX)) 3000000000 = (ret, filter', log)
           /\ count_events is_detect log = 1%nat
           /\ filter' =
                set_detection (sample_filter 1000000000 true true) 3000000000
                  2 0 true (f64_to_f32 f64_0_9)
           /\ ret = Some (composited (sample_filter 1000000000 true true)
                            (sample_frame VIDEO_FORMAT_BGRX) 2 0)).
Proof.
  assert (Hnd : ~ due (interval_ms (sample_filter 1000000000 true true)) 1500000000
                    (last_detect_ts (sample_filter 1000000000 true true))).
  { intros Hd. apply due_nanoseconds in Hd. cbn in Hd. lia. }
  assert (Hdue : due (interval_ms (sample_filter 1000000000 true true)) 3000000000
                   (last_detect_ts (sample_filter 1000000000 true true))).
  { apply due_nanoseconds. cbn. lia. }
  split.
  - split; [reflexivity|]. split; [reflexivity|]. split; [reflexivity|].
    split; [cbn; lia|]. split; [cbn; lia|]. split; [lia|]. split; [exact Hnd|].
    destruct (detection_gate (cv := fixed_cv f64_0_9 (mkPoint 2 0))
                (sample_filter 1000000000 true true)
                (sample_frame VIDEO_FORMAT_BGRX) 1500000000)
      as (ret & filter' & log & Hv & _ & _ & Hn);
      try reflexivity; try (cbn; lia).
    destruct (Hn Hnd) as (Hc & Hf & Hr).
    exists ret, filter', log. repeat split; assumption.
  - split; [cbn; lia|]. split; [lia|]. split; [exact Hdue|].
    destruct (detection_gate (cv := fixed_cv f64_0_9 (mkPoint 2 0))
                (sample_filter 1000000000 true true)
                (sample_frame VIDEO_FORMAT_BGRX) 3000000000)
      as (ret & filter' & log & Hv & _ & Hy & _);
      try reflexivity; try (cbn; lia).
    destruct (Hy Hdue) as (matched & outs & Hm & Hc & Hf & Hr).
    vm_compute in Hm. injection Hm as <- <-.
    exists ret, filter', log.
    split; [exact Hv|]. split; [exact Hc|].
    assert (Hf' : filter' =
              set_detection (sample_filter 1000000000 true true) 3000000000
                2 0 true (f64_to_f32 f64_0_9)) by exact Hf.
    split; [exact Hf'|]. rewrite Hr, Hf'. reflexivity.
Defined.

(** ** Compositor *)

Lemma store_length buf i v : length (store buf i v) = length buf.
Proof. apply length_insert. Qed.

Lemma lookup_store_ne buf i v (k : nat) :
  0 <= i -> Z.of_nat k <> i -> store buf i v !! k = buf !! k.
Proof.
  intros Hi Hk. unfold store. apply list_lookup_insert_ne. lia.
Qed.

Lemma load_store_eq buf i v :
  0 <= i < Z.of_nat (length buf) -> load (store buf i v) i = v.
Proof.
  intros Hi. unfold load, store.
  rewrite list_lookup_insert_eq by lia. reflexivity.
Qed.

Lemma load_store_ne buf i j v :
  0 <= i -> 0 <= j -> i <> j -> load (store buf i v) j = load buf j.
Proof.
  intros Hi Hj Hij. unfold load, store.
  rewrite list_lookup_insert_ne by lia. reflexivity.
Qed.

Lemma blend_px_length src src_px opacity dst dst_px :
  length (blend_px src src_px opacity dst dst_px) = length dst.
Proof.
  unfold blend_px. destruct (_ <=? 0); [reflexivity|].
  rewrite !store_length. reflexivity.
Qed.

Lemma blend_px_outside src src_px opacity dst dst_px (k : nat) :
  0 <= dst_px ->
  ~ (dst_px <= Z.of_nat k < dst_px + 4) ->
  blend_px src src_px opacity dst dst_px !! k = dst !! k.
Proof.
  intros Hp Hk. unfold blend_px. destruct (_ <=? 0); [reflexivity|].
  rewrite !lookup_store_ne by lia. reflexivity.
Qed.

Lemma blend_cols_length n : forall src src_row dst_row opacity ox fx dst,
  length (blend_cols n src src_row dst_row opacity ox fx dst) = length dst.
Proof.
  induction n as [|n IH]; intros; cbn; [reflexivity|].
  rewrite IH, blend_px_length. reflexivity.
Qed.

Lemma blend_cols_outside n : forall src src_row dst_row opacity ox fx dst (k : nat),
  0 <= dst_row -> 0 <= fx ->
  ~ (dst_row + fx * 4 <= Z.of_nat k < dst_row + (fx + Z.of_nat n) * 4) ->
  blend_cols n src src_row dst_row opacity ox fx dst !! k = dst !! k.
Proof.
  induction n as [|n IH]; intros src src_row dst_row opacity ox fx dst k Hr Hx Hk;
    cbn [blend_cols]; [reflexivity|].
  rewrite IH by lia. apply blend_px_outside; lia.
Qed.

Lemma blend_rows_length n : forall overlay ls opacity ox0 sx ex oy fy dst,
  length (blend_rows n overlay ls opacity ox0 sx ex oy fy dst) = length dst.
Proof.
  induction n as [|n IH]; intros; cbn; [reflexivity|].
  rewrite IH, blend_cols_length. reflexivity.
Qed.

Lemma blend_rows_outside n : forall overlay ls opacity ox0 sx ex oy fy dst (k : nat),
  0 <= ls -> 0 <= sx -> 0 <= fy ->
  (forall j, fy <= j < fy + Z.of_nat n ->
     ~ (j * ls + sx * 4 <= Z.of_nat k < j * ls + ex * 4)) ->
  blend_rows n overlay ls opacity ox0 sx ex oy fy dst !! k = dst !! k.
Proof.
  induction n as [|n IH]; intros overlay ls opacity ox0 sx ex oy fy dst k Hl Hx Hy Hk;
    cbn [blend_rows]; [reflexivity|].
  rewrite IH; try lia.
  - apply blend_cols_outside; [nia | lia |].
    specialize (Hk fy ltac:(lia)). lia.
  - intros j Hj. apply Hk. lia.
Qed.

(** C7: the buffer keeps its length; a byte that belongs to no pixel of
    the intersection of the overlay rectangle with the frame keeps its
    value; and the buffer is returned as it is when the overlay is empty or
    the intersection is. *)
Theorem blend_clipped (dst : list Z) (dst_linesize frame_w frame_h : Z)
    (overlay : Mat) (dst_x dst_y : Z) (opacity : float) :
  0 <= dst_linesize ->
  let dst' := blend_overlay_bgra dst dst_linesize frame_w frame_h overlay
                dst_x dst_y opacity in
  length dst' = length dst
  /\ (forall k : nat,
        (forall fx fy, in_intersection frame_w frame_h overlay dst_x dst_y fx fy ->
                       ~ pixel_byte dst_linesize fx fy (Z.of_nat k)) ->
        dst' !! k = dst !! k)
  /\ (Mat_empty overlay = true
      \/ (forall fx fy, ~ in_intersection frame_w frame_h overlay dst_x dst_y fx fy) ->
      dst' = dst).
Proof.
  intros Hl dst'. subst dst'. unfold blend_overlay_bgra.
  destruct (Mat_empty overlay) eqn:He.
  { repeat split; reflexivity. }
  destruct ((Z.max 0 dst_x >=? Z.min frame_w (dst_x + mat_cols overlay))
            || (Z.max 0 dst_y >=? Z.min frame_h (dst_y + mat_rows overlay))) eqn:Hc.
  { repeat split; reflexivity. }
  apply orb_false_elim in Hc as [Hx Hy].
  rewrite Z.geb_leb in Hx, Hy. apply Z.leb_gt in Hx, Hy.
  split; [apply blend_rows_length|]. split.
  - intros k Hk. apply blend_rows_outside; try lia.
    intros j Hj Hin.
    apply (Hk ((Z.of_nat k - j * dst_linesize) / 4) j).
    + unfold in_intersection.
      pose proof (Z.div_le_lower_bound (Z.of_nat k - j * dst_linesize) 4 (Z.max 0 dst_x)).
      pose proof (Z.div_lt_upper_bound (Z.of_nat k - j * dst_linesize) 4
                    (Z.min frame_w (dst_x + mat_cols overlay))).
      lia.
    + unfold pixel_byte.
      pose proof (Z.mul_div_le (Z.of_nat k - j * dst_linesize) 4).
      pose proof (Z.mul_succ_div_gt (Z.of_nat k - j * dst_linesize) 4).
      lia.
  - intros [Hcontra | Hnone]; [discriminate|].
    exfalso. apply (Hnone (Z.max 0 dst_x) (Z.max 0 dst_y)).
    unfold in_intersection. lia.
Qed.

(** A 2 x 2 overlay placed at the last column of the 4 x 3 frame: one
    column of it is visible. *)
Lemma blend_clipped_witness :
  0 <= 20
  /\ length (blend_overlay_bgra (repeat 7 60) 20 4 3
               (mkMat 2 2 4 8 (repeat 255 16)) 3 1 f32_one) = 60%nat.
Proof.
  split; [lia|].
  apply (blend_clipped (repeat 7 60) 20 4 3 (mkMat 2 2 4 8 (repeat 255 16))
           3 1 f32_one).
  lia.
Defined.

Lemma load_ext (buf buf' : list Z) (k : Z) :
  buf !! Z.to_nat k = buf' !! Z.to_nat k -> load buf k = load buf' k.
Proof. unfold load. intros ->. reflexivity. Qed.

Lemma blend_px_inside src src_px opacity dst dst_px c :
  0 <= dst_px -> dst_px + 4 <= Z.of_nat (length dst) -> 0 <= c < 4 ->
  load (blend_px src src_px opacity dst dst_px) (dst_px + c) =
    blended_byte src src_px opacity c (load dst (dst_px + c)).
Proof.
  intros Hp Hlen Hc. unfold blend_px, blended_byte. cbv zeta.
  destruct (_ <=? 0); [reflexivity|].
  assert (Hcases : c = 0 \/ c = 1 \/ c = 2 \/ c = 3) by lia.
  destruct Hcases as [-> | [-> | [-> | ->]]]; cbn [Z.eqb].
  - rewrite !load_store_ne by lia.
    rewrite load_store_eq by lia. reflexivity.
  - rewrite !(load_store_ne _ _ (dst_px + 1)) by lia.
    rewrite load_store_eq by (rewrite ?store_length; lia).
    rewrite load_store_ne by lia. reflexivity.
  - rewrite !(load_store_ne _ _ (dst_px + 2)) by lia.
    rewrite load_store_eq by (rewrite ?store_length; lia).
    rewrite !load_store_ne by lia. reflexivity.
  - rewrite load_store_eq by (rewrite ?store_length; lia). reflexivity.
Qed.

Lemma blend_cols_inside n : forall src src_row dst_row opacity ox fx dst j c,
  0 <= dst_row -> 0 <= fx -> 0 <= j < Z.of_nat n -> 0 <= c < 4 ->
  dst_row + (fx + Z.of_nat n) * 4 <= Z.of_nat (length dst) ->
  load (blend_cols n src src_row dst_row opacity ox fx dst)
       (dst_row + (fx + j) * 4 + c) =
    blended_byte src (src_row + (ox + j) * 4) opacity c
      (load dst (dst_row + (fx + j) * 4 + c)).
Proof.
  induction n as [|n IH];
    intros src src_row dst_row opacity ox fx dst j c Hr Hx Hj Hc Hlen; [lia|].
  cbn [blend_cols].
  destruct (Z.eq_dec j 0) as [-> | Hj0].
  - rewrite !Z.add_0_r.
    rewrite (load_ext (blend_cols _ _ _ _ _ _ _ _)
               (blend_px src (src_row + ox * 4) opacity dst (dst_row + fx * 4))).
    + apply blend_px_inside; lia.
    + apply blend_cols_outside; lia.
  - replace (fx + j) with (fx + 1 + (j - 1)) by lia.
    replace (ox + j) with (ox + 1 + (j - 1)) by lia.
    rewrite IH; try lia; [|rewrite blend_px_length; lia].
    f_equal. apply load_ext. apply blend_px_outside; lia.
Qed.

Lemma blend_rows_inside n : forall overlay ls opacity ox0 sx ex oy fy dst j i c,
  0 <= sx -> 0 <= fy -> ex * 4 <= ls ->
  0 <= j < Z.of_nat n -> sx <= i < ex -> 0 <= c < 4 ->
  (fy + Z.of_nat n) * ls <= Z.of_nat (length dst) ->
  load (blend_rows n overlay ls opacity ox0 sx ex oy fy dst)
       ((fy + j) * ls + i * 4 + c) =
    blended_byte (mat_data overlay)
      ((oy + j) * mat_step overlay + (ox0 + (i - sx)) * 4) opacity c
      (load dst ((fy + j) * ls + i * 4 + c)).
Proof.
  induction n as [|n IH];
    intros overlay ls opacity ox0 sx ex oy fy dst j i c Hx Hy Hls Hj Hi Hc Hlen; [lia|].
  cbn [blend_rows].
  assert (Hls0 : 0 <= ls) by lia.
  assert (Hrow : 0 <= fy * ls) by nia.
  assert (Hfit : fy * ls + (sx + Z.of_nat (Z.to_nat (ex - sx))) * 4
                 <= Z.of_nat (length dst)) by nia.
  destruct (Z.eq_dec j 0) as [-> | Hj0].
  - rewrite !Z.add_0_r.
    rewrite (load_ext (blend_rows _ _ _ _ _ _ _ _ _ _)
               (blend_cols (Z.to_nat (ex - sx)) (mat_data overlay)
                  (oy * mat_step overlay) (fy * ls) opacity ox0 sx dst)).
    + replace i with (sx + (i - sx)) at 1 3 by lia.
      apply blend_cols_inside; lia.
    + apply blend_rows_outside; try lia.
      intros r Hr. nia.
  - replace (fy + j) with (fy + 1 + (j - 1)) by lia.
    replace (oy + j) with (oy + 1 + (j - 1)) by lia.
    rewrite IH; try lia; [|rewrite blend_cols_length; nia].
    f_equal. apply load_ext. apply blend_cols_outside; try lia. nia.
Qed.

Lemma load_byte (buf : list Z) (k : Z) : bytes buf -> 0 <= load buf k < 256.
Proof.
  intros Hb. unfold load.
  destruct (buf !! Z.to_nat k) as [b|] eqn:Hk; cbn; [|lia].
  unfold bytes in Hb. rewrite Forall_lookup in Hb. exact (Hb _ _ Hk).
Qed.

(** With an alpha in [1, 255] and byte operands the quotient is a byte,
    so the conversion to [uint8_t] keeps it. *)
Lemma blend_channel_exact (s d a : Z) :
  0 <= s < 256 -> 0 <= d < 256 -> 0 < a <= 255 ->
  blend_channel s d a (255 - a) = (s * a + d * (255 - a) + 127) / 255.
Proof.
  intros Hs Hd Ha. unfold blend_channel, to_uint8.
  assert (Hn : 0 <= s * a + d * (255 - a) + 127) by nia.
  rewrite Z.quot_div_nonneg by lia.
  apply Z.mod_small. split.
  - apply Z.div_pos; lia.
  - apply Z.div_lt_upper_bound; nia.
Qed.

(** C3: the compositor departs from [round(overlayAlpha * opacity)] at
    overlay alpha 1 and opacity 0.49999997 (the [float] just below one
    half, which a settings value of 49.999997 percent produces).  The
    product is 0.49999997 and rounds to 0, so the pixel should be left
    untouched; the single-precision sum [0.49999997f + 0.5f] is [1.0f],
    the effective alpha is 1 and the pixel [10, 20, 30, 0] under the
    overlay pixel [200, 200, 200, 1] becomes [11, 21, 31, 255]. *)
Lemma alpha_rounds_after_adding_half :
  opacity (shape_overlay_filter_update (cv := fixed_cv f64_0_9 (mkPoint 2 0))
             filter_new near_half_settings) = f32_pred_half
  /\ in_unit_interval f32_pred_half
  /\ round_alpha 1 f32_pred_half = 0
  /\ scaled_alpha 1 f32_pred_half = 1
  /\ blend_overlay_bgra [10; 20; 30; 0] 4 1 1 (mkMat 1 1 4 4 [200; 200; 200; 1])
       0 0 f32_pred_half = [11; 21; 31; 255].
Proof. vm_compute. repeat split. Qed.

(** X29: what the compositor does to a pixel of the intersection, in a
    frame whose rows do not overlap and fit in the buffer.  Let
    [src_alpha] be [(int)(float(alpha) * opacity + 0.5f)] evaluated in
    single precision for the overlay pixel above it.  If [src_alpha <= 0]
    the four bytes of the pixel are kept.  Otherwise each colour byte
    becomes [(src * src_alpha + dst * (255 - src_alpha) + 127) / 255]
    converted to [uint8_t], and the alpha byte becomes 255.  When both
    buffers hold bytes and the opacity is a [float] between 0 and 1,
    [src_alpha] differs from the single-precision product
    [float(alpha) * opacity] rounded to the nearest integer (halves up)
    for one product only, 0.49999997, the [float] just below one half,
    where it is 1; [src_alpha] is then at most 255 and the conversion to
    [uint8_t] changes nothing.  With overlay alpha 255 and opacity 0.5,
    [src_alpha] is 128. *)
Theorem blend_pixel (dst : list Z) (dst_linesize frame_w frame_h : Z)
    (overlay : Mat) (dst_x dst_y : Z) (opacity : float) (fx fy : Z) :
  4 * frame_w <= dst_linesize ->
  dst_linesize * frame_h <= Z.of_nat (length dst) ->
  in_intersection frame_w frame_h overlay dst_x dst_y fx fy ->
  let dst' := blend_overlay_bgra dst dst_linesize frame_w frame_h overlay
                dst_x dst_y opacity in
  let src := mat_data overlay in
  let src_px := (fy - dst_y) * mat_step overlay + (fx - dst_x) * 4 in
  let dst_px := fy * dst_linesize + fx * 4 in
  let src_alpha := scaled_alpha (load src (src_px + 3)) opacity in
  (src_alpha <= 0 ->
     forall c, 0 <= c < 4 -> load dst' (dst_px + c) = load dst (dst_px + c))
  /\ (0 < src_alpha ->
        (forall c, 0 <= c < 3 ->
           load dst' (dst_px + c) =
             to_uint8 ((load src (src_px + c) * src_alpha
                        + load dst (dst_px + c) * (255 - src_alpha) + 127) ÷ 255))
        /\ load dst' (dst_px + 3) = 255)
  /\ (bytes dst -> bytes src -> in_unit_interval opacity ->
        src_alpha =
          (if is_pred_half (f32_mul (f32_of_Z (load src (src_px + 3))) opacity)
           then 1 else round_alpha (load src (src_px + 3)) opacity)
        /\ src_alpha <= 255
        /\ (0 < src_alpha ->
            forall c, 0 <= c < 3 ->
              load dst' (dst_px + c) =
                (load src (src_px + c) * src_alpha
                 + load dst (dst_px + c) * (255 - src_alpha) + 127) / 255))
  /\ (load src (src_px + 3) = 255 -> opacity = f32_half -> src_alpha = 128).
Proof.
  intros Hw Hh [Hfx Hfy] dst' src src_px dst_px src_alpha.
  assert (Hat : forall c, 0 <= c < 4 ->
            load dst' (dst_px + c) =
              blended_byte src src_px opacity c (load dst (dst_px + c))).
  { intros c Hc. subst dst' dst_px src_px src. unfold blend_overlay_bgra.
    assert (He : Mat_empty overlay = false).
    { unfold Mat_empty. apply Z.eqb_neq. nia. }
    rewrite He.
    replace ((Z.max 0 dst_x >=? Z.min frame_w (dst_x + mat_cols overlay))
             || (Z.max 0 dst_y >=? Z.min frame_h (dst_y + mat_rows overlay)))
      with false
      by (symmetry; apply orb_false_intro; rewrite Z.geb_leb; apply Z.leb_gt; lia).
    pose proof (blend_rows_inside
      (Z.to_nat (Z.min frame_h (dst_y + mat_rows overlay) - Z.max 0 dst_y))
      overlay dst_linesize opacity (Z.max 0 dst_x - dst_x) (Z.max 0 dst_x)
      (Z.min frame_w (dst_x + mat_cols overlay)) (Z.max 0 dst_y - dst_y)
      (Z.max 0 dst_y) dst (fy - Z.max 0 dst_y) fx c) as Hin.
    replace (Z.max 0 dst_y + (fy - Z.max 0 dst_y)) with fy in Hin by lia.
    replace (Z.max 0 dst_y - dst_y + (fy - Z.max 0 dst_y)) with (fy - dst_y) in Hin by lia.
    replace (Z.max 0 dst_x - dst_x + (fx - Z.max 0 dst_x)) with (fx - dst_x) in Hin by lia.
    apply Hin; try lia. nia. }
  unfold blended_byte in Hat. cbv zeta in Hat. fold src_alpha in Hat.
  assert (Hpos : 0 < src_alpha ->
            forall c, 0 <= c < 3 ->
              load dst' (dst_px + c) =
                blend_channel (load src (src_px + c)) (load dst (dst_px + c))
                  src_alpha (255 - src_alpha)).
  { intros Ha c Hc. rewrite Hat by lia.
    replace (src_alpha <=? 0) with false by (symmetry; apply Z.leb_gt; lia).
    replace (c =? 3) with false by (symmetry; apply Z.eqb_neq; lia).
    reflexivity. }
  split; [|split; [|split]].
  - intros Ha c Hc. rewrite Hat by lia.
    apply Z.leb_le in Ha. rewrite Ha. reflexivity.
  - intros Ha. split; [exact (Hpos Ha)|].
    rewrite Hat by lia.
    replace (src_alpha <=? 0) with false by (symmetry; apply Z.leb_gt; lia).
    reflexivity.
  - intros Hd Hs (Hv & H0 & H1).
    pose proof (load_byte src (src_px + 3) Hs) as Hb.
    assert (Hle : src_alpha <= 255).
    { pose proof (scaled_alpha_le _ opacity Hb Hv H0 H1) as Hsa.
      fold src_alpha in Hsa. lia. }
    split; [exact (scaled_alpha_round _ opacity Hb Hv H0 H1)|].
    split; [exact Hle|].
    intros Ha c Hc. rewrite (Hpos Ha c Hc).
    apply blend_channel_exact; [apply load_byte; exact Hs | apply load_byte; exact Hd | lia].
  - intros Ha Ho. subst src_alpha. rewrite Ha, Ho. reflexivity.
Qed.

(** The opaque white 1 x 1 overlay drawn with opacity 0.5 over pixel
    (1, 1) of the frame: alpha 128, colour bytes (255 * 128 + 7 * 127 +
    127) / 255 = 131. *)
Lemma blend_pixel_witness :
  4 * 4 <= 20
  /\ 20 * 3 <= Z.of_nat (length (repeat 7 60))
  /\ in_intersection 4 3 sample_overlay 1 1 1 1
  /\ scaled_alpha (load (mat_data sample_overlay) 3) f32_half = 128
  /\ load (blend_overlay_bgra (repeat 7 60) 20 4 3 sample_overlay 1 1 f32_half)
       (1 * 20 + 1 * 4 + 0) =
     (255 * 128 + 7 * 127 + 127) / 255.
Proof.
  assert (H1 : 4 * 4 <= 20) by lia.
  assert (H2 : 20 * 3 <= Z.of_nat (length (repeat 7 60))) by (cbn; lia).
  assert (H3 : in_intersection 4 3 sample_overlay 1 1 1 1)
    by (unfold in_intersection; cbn; lia).
  pose proof (blend_pixel (repeat 7 60) 20 4 3 sample_overlay 1 1 f32_half 1 1
                H1 H2 H3) as H.
  cbv zeta in H. destruct H as (_ & _ & Hexact & Halpha).
  split; [exact H1|]. split; [exact H2|]. split; [exact H3|].
  split; [reflexivity|].
  destruct (Hexact ltac:(unfold bytes; repeat constructor; lia)
                   ltac:(unfold bytes; cbn; repeat constructor; lia)
                   ltac:(repeat split)) as (_ & _ & Hc).
  apply (Hc ltac:(vm_compute; reflexivity) 0 ltac:(lia)).
Defined.

(* ===================================================================== *)
(** ** Frame pipeline: what a call returns and leaves *)
(* ===================================================================== *)

Lemma blend_overlay_length dst ls w h overlay x y opacity :
  length (blend_overlay_bgra dst ls w h overlay x y opacity) = length dst.
Proof.
  unfold blend_overlay_bgra.
  destruct (Mat_empty overlay); [reflexivity|].
  destruct (_ || _); [reflexivity|].
  apply blend_rows_length.
Qed.

Lemma video_cases `{cv : OpenCV} filter fr now :
  shape_overlay_filter_video filter (Some fr) now =
    if supported_format (frame_format fr)
    then if Mat_empty (template_gray filter) || Mat_empty (overlay_draw filter)
         then (Some fr, filter, [])
         else
           let d0 := snapshot filter in
           let due := should_detect (interval_ms filter) now (d_ts d0) in
           let d := if due then detect_step filter fr now d0 else d0 in
           let filter' :=
             if due
             then set_detection filter (d_ts d) (d_x d) (d_y d) (d_valid d) (d_score d)
             else filter in
           if d_valid d
           then (Some (composited filter fr (d_x d) (d_y d)), filter',
                 (if due then [DetectTemplate] else []) ++ [BlendOverlay])
           else (Some fr, filter', if due then [DetectTemplate] else [])
    else (Some fr,
          if warned_format filter then filter else set_warned_format filter,
          if warned_format filter then [] else [LogWarning (frame_format fr)]).
Proof.
  destruct (supported_format (frame_format fr)) eqn:Hs.
  - destruct (Mat_empty (template_gray filter) || Mat_empty (overlay_draw filter)) eqn:He.
    + unfold shape_overlay_filter_video.
      rewrite (supported_format_gate _ Hs), He. reflexivity.
    + apply orb_false_elim in He as [Ht Ho].
      apply video_supported; assumption.
  - apply video_unsupported. exact Hs.
Qed.

(** X1: the callback hands back the frame object it was given: layout, size
    and stride are the same and plane 0 has as many bytes as before. *)
Theorem video_keeps_geometry `{cv : OpenCV}
    (filter : shape_overlay_filter_data) (fr : obs_source_frame) (now : Z) :
  exists fr',
    returned_frame (shape_overlay_filter_video filter (Some fr) now) = Some fr'
    /\ frame_linesize fr' = frame_linesize fr
    /\ frame_width fr' = frame_width fr
    /\ frame_height fr' = frame_height fr
    /\ frame_format fr' = frame_format fr
    /\ length (frame_data fr') = length (frame_data fr).
Proof.
  rewrite video_cases.
  destruct (supported_format (frame_format fr)).
  - destruct (_ || _).
    + exists fr. repeat split.
    + cbv zeta.
      destruct (d_valid _).
      * eexists. split; [reflexivity|]. cbn.
        repeat split. apply blend_overlay_length.
      * exists fr. repeat split.
  - exists fr. repeat split.
Qed.

(** X2: the callback never touches what the settings determine. *)
Theorem video_keeps_configuration `{cv : OpenCV}
    (filter : shape_overlay_filter_data) (frame : option obs_source_frame)
    (now : Z) :
  configuration (state_after (shape_overlay_filter_video filter frame now))
  = configuration filter.
Proof.
  destruct frame as [fr|]; [|reflexivity].
  rewrite video_cases.
  destruct (supported_format (frame_format fr)).
  - destruct (_ || _); [reflexivity|].
    cbv zeta.
    destruct (d_valid _); destruct (should_detect _ _ _); reflexivity.
  - destruct (warned_format filter); reflexivity.
Qed.

Lemma detect_step_ts `{cv : OpenCV} filter fr now d :
  d_ts (detect_step filter fr now d) = now.
Proof.
  unfold detect_step.
  destruct (detect_template _ _ _ _) as [matched outs].
  destruct matched; [reflexivity|].
  destruct (only_when_matched filter); reflexivity.
Qed.

Lemma video_detect_count `{cv : OpenCV} filter fr now :
  supported_format (frame_format fr) = true ->
  Mat_empty (template_gray filter) = false ->
  Mat_empty (overlay_draw filter) = false ->
  count_events is_detect
    (events_of (shape_overlay_filter_video filter (Some fr) now))
  = (if should_detect (interval_ms filter) now (last_detect_ts filter)
     then 1%nat else 0%nat)
  /\ state_after (shape_overlay_filter_video filter (Some fr) now)
     = (if should_detect (interval_ms filter) now (last_detect_ts filter)
        then let d := detect_step filter fr now (snapshot filter) in
             set_detection filter now (d_x d) (d_y d) (d_valid d) (d_score d)
        else filter).
Proof.
  intros Hs Ht Ho. rewrite video_cases, Hs, Ht, Ho. cbn [orb].
  cbv zeta. cbn [snapshot d_ts].
  destruct (should_detect _ _ _) eqn:Hd.
  - rewrite detect_step_ts.
    destruct (d_valid _); cbn [events_of state_after fst snd]; split; reflexivity.
  - destruct (last_valid filter) eqn:Hv; cbn [snapshot d_valid];
      rewrite ?Hv; cbn [events_of state_after fst snd]; split; reflexivity.
Qed.

(** X3: the frame that comes back is determined by the state the call
    leaves: composited at the stored location when that state holds a
    valid match, untouched otherwise. *)
Theorem video_draws_stored_match `{cv : OpenCV}
    (filter : shape_overlay_filter_data) (fr : obs_source_frame) (now : Z) :
  supported_format (frame_format fr) = true ->
  Mat_empty (template_gray filter) = false ->
  Mat_empty (overlay_draw filter) = false ->
  let r := shape_overlay_filter_video filter (Some fr) now in
  let filter' := state_after r in
  returned_frame r =
    Some (if last_valid filter'
          then composited filter' fr (last_x filter') (last_y filter')
          else fr)
  /\ count_events is_blend (events_of r) =
       if last_valid filter' then 1%nat else 0%nat.
Proof.
  intros Hs Ht Ho. cbv zeta. rewrite video_cases, Hs, Ht, Ho. cbn [orb].
  cbv zeta.
  destruct (should_detect _ _ _).
  - destruct (d_valid _) eqn:Hv;
      cbn [returned_frame state_after events_of fst snd set_detection last_valid
           last_x last_y]; rewrite ?Hv; split; reflexivity.
  - cbn [snapshot d_valid d_x d_y].
    destruct (last_valid filter) eqn:Hv;
      cbn [returned_frame state_after events_of fst snd]; rewrite ?Hv;
      split; reflexivity.
Qed.

Lemma video_draws_stored_match_witness :
  returned_frame
    (shape_overlay_filter_video (cv := fixed_cv f64_0_9 (mkPoint 2 0))
       (sample_filter 0 false true) (Some (sample_frame VIDEO_FORMAT_BGRA))
       2000000000)
  = Some (composited (sample_filter 0 false true)
            (sample_frame VIDEO_FORMAT_BGRA) 2 0).
Proof.
  destruct (video_draws_stored_match (cv := fixed_cv f64_0_9 (mkPoint 2 0))
              (sample_filter 0 false true) (sample_frame VIDEO_FORMAT_BGRA)
              2000000000 eq_refl eq_refl eq_refl) as [H _].
  exact H.
Defined.

(** X4: BGRX frames are treated exactly as BGRA frames: same detection, same
    state, same bytes written. *)
Theorem video_bgrx_as_bgra `{cv : OpenCV}
    (filter : shape_overlay_filter_data) (fr : obs_source_frame) (now : Z) :
  let a := shape_overlay_filter_video filter
             (Some (with_format fr VIDEO_FORMAT_BGRA)) now in
  let x := shape_overlay_filter_video filter
             (Some (with_format fr VIDEO_FORMAT_BGRX)) now in
  state_after x = state_after a
  /\ events_of x = events_of a
  /\ option_map frame_data (returned_frame x)
     = option_map frame_data (returned_frame a).
Proof.
  cbv zeta. rewrite !video_cases. cbn [with_format frame_format supported_format
    video_format_eqb orb].
  destruct (_ || _); [repeat split|].
  cbv zeta.
  change (detect_step filter (with_format fr VIDEO_FORMAT_BGRX))
    with (detect_step filter (with_format fr VIDEO_FORMAT_BGRA)).
  destruct (should_detect _ _ _); destruct (d_valid _); repeat split.
Qed.

(* ===================================================================== *)
(** ** Detection scheduler: clock wrap-around and rate limit *)
(* ===================================================================== *)

Lemma should_detect_unfold (interval_ms now last_detect_ts : Z) :
  0 <= interval_ms < 2 ^ 32 ->
  should_detect interval_ms now last_detect_ts =
    (interval_ms =? 0)
    || (interval_ms * 1000000 <=? (now - last_detect_ts) mod 2 ^ 64).
Proof.
  intros Hi. unfold should_detect, to_uint64.
  rewrite (Z.mod_small interval_ms) by lia.
  rewrite (Z.mod_small (interval_ms * 1000000)) by lia.
  rewrite Z.geb_leb. reflexivity.
Qed.

(** X5: a clock reading that lies before the stored timestamp: the unsigned
    difference wraps around, and an attempt runs whenever the interval
    is 0 or at most [2^64 - (last_detect_ts - now)] nanoseconds; a
    reading up to [2^63] ns behind always starts an attempt, which stores
    the earlier reading. *)
Theorem detection_clock_behind `{cv : OpenCV}
    (filter : shape_overlay_filter_data) (fr : obs_source_frame) (now : Z) :
  supported_format (frame_format fr) = true ->
  Mat_empty (template_gray filter) = false ->
  Mat_empty (overlay_draw filter) = false ->
  0 <= interval_ms filter < 2 ^ 32 ->
  0 <= now < last_detect_ts filter -> last_detect_ts filter < 2 ^ 64 ->
  let r := shape_overlay_filter_video filter (Some fr) now in
  (count_events is_detect (events_of r) = 1%nat
   <-> interval_ms filter = 0
       \/ interval_ms filter * 1000000 <= 2 ^ 64 - (last_detect_ts filter - now))
  /\ (last_detect_ts filter - now <= 2 ^ 63 ->
      count_events is_detect (events_of r) = 1%nat
      /\ last_detect_ts (state_after r) = now).
Proof.
  intros Hs Ht Ho Hi Hn Hl. cbv zeta.
  destruct (video_detect_count filter fr now Hs Ht Ho) as [Hc Hst].
  rewrite Hc, Hst. clear Hc Hst.
  rewrite (should_detect_unfold _ _ _ Hi).
  assert (Hm : (now - last_detect_ts filter) mod 2 ^ 64
               = 2 ^ 64 - (last_detect_ts filter - now)).
  { symmetry. apply (Z.mod_unique _ _ (-1)); lia. }
  rewrite Hm.
  split.
  - destruct (Z.eqb_spec (interval_ms filter) 0) as [Hz|Hz]; cbn [orb].
    + split; [intros _; left; exact Hz | reflexivity].
    + destruct (Z.leb_spec (interval_ms filter * 1000000)
                  (2 ^ 64 - (last_detect_ts filter - now))) as [Hle|Hgt].
      * split; [intros _; right; exact Hle | reflexivity].
      * split; [discriminate | intros [H|H]; lia].
  - intros Hb.
    replace (interval_ms filter * 1000000 <=? 2 ^ 64 - (last_detect_ts filter - now))
      with true by (symmetry; apply Z.leb_le; lia).
    rewrite orb_true_r. split; reflexivity.
Qed.

Lemma detection_clock_behind_witness :
  count_events is_detect
    (events_of
       (shape_overlay_filter_video (cv := fixed_cv f64_0_9 (mkPoint 2 0))
          (sample_filter 5000 true true) (Some (sample_frame VIDEO_FORMAT_BGRA))
          4000)) = 1%nat.
Proof.
  destruct (detection_clock_behind (cv := fixed_cv f64_0_9 (mkPoint 2 0))
              (sample_filter 5000 true true) (sample_frame VIDEO_FORMAT_BGRA) 4000
              eq_refl eq_refl eq_refl
              ltac:(cbn; lia) ltac:(cbn; lia) ltac:(cbn; lia)) as [_ H].
  apply H. cbn. lia.
Defined.

(** X6: rate limit: after a call that ran a detection attempt at [now1], a
    call at [now2], less than the interval later, runs none and leaves
    the instance as it is. *)
Theorem detection_throttled `{cv : OpenCV}
    (filter : shape_overlay_filter_data) (fr1 fr2 : obs_source_frame)
    (now1 now2 : Z) :
  supported_format (frame_format fr1) = true ->
  supported_format (frame_format fr2) = true ->
  Mat_empty (template_gray filter) = false ->
  Mat_empty (overlay_draw filter) = false ->
  0 < interval_ms filter < 2 ^ 32 ->
  0 <= now1 <= now2 -> now2 < 2 ^ 64 ->
  now2 - now1 < interval_ms filter * 1000000 ->
  let r1 := shape_overlay_filter_video filter (Some fr1) now1 in
  count_events is_detect (events_of r1) = 1%nat ->
  let r2 := shape_overlay_filter_video (state_after r1) (Some fr2) now2 in
  count_events is_detect (events_of r2) = 0%nat
  /\ state_after r2 = state_after r1
  /\ returned_frame r2 =
       Some (if last_valid (state_after r1)
             then composited filter fr2 (last_x (state_after r1))
                    (last_y (state_after r1))
             else fr2).
Proof.
  intros Hs1 Hs2 Ht Ho Hi Hn Hn2 Hgap r1 Hc1 r2.
  destruct (video_detect_count filter fr1 now1 Hs1 Ht Ho) as [Hc Hst].
  fold r1 in Hc, Hst. rewrite Hc1 in Hc.
  destruct (should_detect (interval_ms filter) now1 (last_detect_ts filter));
    [|discriminate Hc].
  cbv zeta in Hst.
  set (d := detect_step filter fr1 now1 (snapshot filter)) in Hst.
  assert (Ht1 : Mat_empty (template_gray (state_after r1)) = false)
    by (rewrite Hst; exact Ht).
  assert (Ho1 : Mat_empty (overlay_draw (state_after r1)) = false)
    by (rewrite Hst; exact Ho).
  assert (Hnot : should_detect (interval_ms (state_after r1)) now2
                   (last_detect_ts (state_after r1)) = false).
  { rewrite Hst. cbn [set_detection interval_ms last_detect_ts].
    rewrite should_detect_unfold by lia.
    rewrite Z.mod_small by lia.
    apply orb_false_intro; [apply Z.eqb_neq | apply Z.leb_gt]; lia. }
  destruct (video_detect_count (state_after r1) fr2 now2 Hs2 Ht1 Ho1) as [Hc2 Hst2].
  fold r2 in Hc2, Hst2. rewrite Hnot in Hc2, Hst2.
  split; [exact Hc2|]. split; [exact Hst2|].
  subst r2. rewrite video_cases, Hs2, Ht1, Ho1. cbn [orb]. cbv zeta.
  cbn [snapshot d_ts d_valid d_x d_y]. rewrite Hnot, Hst.
  cbn [set_detection last_valid last_x last_y].
  destruct (d_valid d); reflexivity.
Qed.

Lemma detection_throttled_witness :
  count_events is_detect
    (events_of
       (shape_overlay_filter_video (cv := fixed_cv f64_0_9 (mkPoint 2 0))
          (state_after
             (shape_overlay_filter_video (cv := fixed_cv f64_0_9 (mkPoint 2 0))
                (sample_filter 0 false true)
                (Some (sample_frame VIDEO_FORMAT_BGRA)) 2000000000))
          (Some (sample_frame VIDEO_FORMAT_BGRX)) 2999999999)) = 0%nat.
Proof.
  destruct (detection_throttled (cv := fixed_cv f64_0_9 (mkPoint 2 0))
              (sample_filter 0 false true)
              (sample_frame VIDEO_FORMAT_BGRA) (sample_frame VIDEO_FORMAT_BGRX)
              2000000000 2999999999
              eq_refl eq_refl eq_refl eq_refl
              ltac:(cbn; lia) ltac:(lia) ltac:(lia) ltac:(cbn; lia) eq_refl)
    as [H _].
  exact H.
Defined.

(* ===================================================================== *)
(** ** Image store *)
(* ===================================================================== *)

Lemma video_without_images `{cv : OpenCV} filter fr now :
  Mat_empty (template_gray filter) || Mat_empty (overlay_draw filter) = true ->
  returned_frame (shape_overlay_filter_video filter (Some fr) now) = Some fr
  /\ count_events is_detect
       (events_of (shape_overlay_filter_video filter (Some fr) now)) = 0%nat
  /\ count_events is_blend
       (events_of (shape_overlay_filter_video filter (Some fr) now)) = 0%nat
  /\ snapshot (state_after (shape_overlay_filter_video filter (Some fr) now))
     = snapshot filter.
Proof.
  intros He. rewrite video_cases, He.
  destruct (supported_format (frame_format fr)); [repeat split|].
  destruct (warned_format filter); repeat split.
Qed.

(** X8: a filter whose template or overlay is missing (no path configured,
    or a file the decoder cannot read) passes every frame through: no
    detection, no drawing, detection state untouched. *)
Theorem update_missing_image `{cv : OpenCV}
    (filter : shape_overlay_filter_data) (settings : obs_data_t)
    (fr : obs_source_frame) (now : Z) :
  obs_data_get_string settings "template_path" = ""
  \/ obs_data_get_string settings "overlay_path" = ""
  \/ Mat_empty (cv_imread (obs_data_get_string settings "template_path")
                  IMREAD_GRAYSCALE) = true
  \/ Mat_empty (cv_imread (obs_data_get_string settings "overlay_path")
                  IMREAD_UNCHANGED) = true ->
  let filter' := shape_overlay_filter_update filter settings in
  let r := shape_overlay_filter_video filter' (Some fr) now in
  returned_frame r = Some fr
  /\ count_events is_detect (events_of r) = 0%nat
  /\ count_events is_blend (events_of r) = 0%nat
  /\ snapshot (state_after r) = snapshot filter'.
Proof.
  intros H. cbv zeta. apply video_without_images.
  cbn [shape_overlay_filter_update template_gray overlay_draw].
  assert (Ht : obs_data_get_string settings "template_path" = ""
               \/ Mat_empty (cv_imread (obs_data_get_string settings "template_path")
                               IMREAD_GRAYSCALE) = true ->
               Mat_empty (load_template_gray
                            (obs_data_get_string settings "template_path")) = true).
  { unfold load_template_gray. intros [-> | Hm]; [reflexivity|].
    destruct (String.eqb _ ""); [reflexivity | exact Hm]. }
  assert (Ho : obs_data_get_string settings "overlay_path" = ""
               \/ Mat_empty (cv_imread (obs_data_get_string settings "overlay_path")
                               IMREAD_UNCHANGED) = true ->
               Mat_empty (load_overlay_bgra
                            (obs_data_get_string settings "overlay_path")) = true).
  { unfold load_overlay_bgra. intros [-> | Hm]; [reflexivity|].
    destruct (String.eqb _ ""); [reflexivity|]. rewrite Hm. exact Hm. }
  destruct H as [H | [H | [H | H]]].
  - rewrite (Ht (or_introl H)). reflexivity.
  - rewrite (Ho (or_introl H)). cbn [negb andb]. rewrite (Ho (or_introl H)).
    apply orb_true_r.
  - rewrite (Ht (or_intror H)). reflexivity.
  - rewrite (Ho (or_intror H)). cbn [negb andb]. rewrite (Ho (or_intror H)).
    apply orb_true_r.
Qed.

Lemma update_missing_image_witness :
  returned_frame
    (shape_overlay_filter_video (cv := fixed_cv f64_0_9 (mkPoint 2 0))
       (shape_overlay_filter_update (cv := fixed_cv f64_0_9 (mkPoint 2 0))
          (sample_filter 0 true true) near_half_settings)
       (Some (sample_frame VIDEO_FORMAT_BGRA)) 2000000000)
  = Some (sample_frame VIDEO_FORMAT_BGRA).
Proof.
  destruct (update_missing_image (cv := fixed_cv f64_0_9 (mkPoint 2 0))
              (sample_filter 0 true true) near_half_settings
              (sample_frame VIDEO_FORMAT_BGRA) 2000000000
              (or_introl eq_refl)) as [H _].
  exact H.
Defined.

(** X9: the overlay image comes out of the loader empty or with four
    channels, provided the two colour conversions to BGRA deliver four
    channels; an image with another channel count than 1, 3 or 4 is
    dropped. *)
Theorem load_overlay_bgra_channels `{cv : OpenCV} (path : string) :
  (forall m, mat_channels (cv_cvtColor m COLOR_BGR2BGRA) = 4) ->
  (forall m, mat_channels (cv_cvtColor m COLOR_GRAY2BGRA) = 4) ->
  let img := cv_imread path IMREAD_UNCHANGED in
  (Mat_empty (load_overlay_bgra path) = true
   \/ mat_channels (load_overlay_bgra path) = 4)
  /\ (mat_channels img <> 1 -> mat_channels img <> 3 -> mat_channels img <> 4 ->
      Mat_empty (load_overlay_bgra path) = true)
  /\ (path <> "" -> Mat_empty img = false -> mat_channels img = 4 ->
      load_overlay_bgra path = img).
Proof.
  intros H3 H1. cbv zeta. unfold load_overlay_bgra.
  destruct (String.eqb_spec path "") as [Hp|Hp].
  - split; [left; reflexivity|]. split; [reflexivity|]. intros Hn. contradiction.
  - destruct (Mat_empty (cv_imread path IMREAD_UNCHANGED)) eqn:He.
    + split; [left; exact He|]. split; [intros; exact He|]. discriminate.
    + destruct (Z.eqb_spec (mat_channels (cv_imread path IMREAD_UNCHANGED)) 4) as [H4|H4].
      * split; [right; exact H4|]. split; [intros; contradiction | reflexivity].
      * destruct (Z.eqb_spec (mat_channels (cv_imread path IMREAD_UNCHANGED)) 3) as [Hc3|Hc3].
        -- split; [right; apply H3|]. split; intros; contradiction.
        -- destruct (Z.eqb_spec (mat_channels (cv_imread path IMREAD_UNCHANGED)) 1) as [Hc1|Hc1].
           ++ split; [right; apply H1|]. split; intros; contradiction.
           ++ split; [left; reflexivity|]. split; [reflexivity | intros; contradiction].
Qed.

Lemma load_overlay_bgra_channels_witness :
  mat_channels (load_overlay_bgra (cv := fixed_cv f64_0_9 (mkPoint 2 0)) "o.png") = 4
  /\ Mat_empty (load_overlay_bgra (cv := two_channel_cv) "o.png") = true.
Proof.
  split.
  - destruct (load_overlay_bgra_channels (cv := fixed_cv f64_0_9 (mkPoint 2 0)) "o.png"
                ltac:(reflexivity) ltac:(reflexivity)) as [[H | H] _].
    + vm_compute in H. discriminate H.
    + exact H.
  - destruct (load_overlay_bgra_channels (cv := two_channel_cv) "o.png"
                ltac:(reflexivity) ltac:(reflexivity)) as (_ & H & _).
    apply H; vm_compute; discriminate.
Defined.

(** X10: with scaling switched on and both images loaded, the overlay that is
    drawn has the template's width and height (given that the resize
    delivers the requested size); otherwise it is the loaded overlay
    itself.  Either way it is empty exactly when the loaded overlay
    is. *)
Theorem update_overlay_draw `{cv : OpenCV}
    (filter : shape_overlay_filter_data) (settings : obs_data_t) :
  (forall m w h, mat_cols (cv_resize_area m w h) = w
                 /\ mat_rows (cv_resize_area m w h) = h) ->
  let filter' := shape_overlay_filter_update filter settings in
  Mat_empty (overlay_draw filter') = Mat_empty (overlay_bgra filter')
  /\ (scale_overlay filter' = true ->
      Mat_empty (overlay_bgra filter') = false ->
      Mat_empty (template_gray filter') = false ->
      mat_cols (overlay_draw filter') = mat_cols (template_gray filter')
      /\ mat_rows (overlay_draw filter') = mat_rows (template_gray filter'))
  /\ (scale_overlay filter' = false \/ Mat_empty (template_gray filter') = true ->
      overlay_draw filter' = overlay_bgra filter').
Proof.
  intros Hr. cbv zeta.
  cbn [shape_overlay_filter_update overlay_draw overlay_bgra template_gray
       scale_overlay].
  set (t := load_template_gray _). set (o := load_overlay_bgra _).
  set (sc := obs_data_get_bool settings "scale_overlay").
  destruct (Mat_empty o) eqn:Ho; cbn [negb andb].
  - rewrite Ho. split; [reflexivity|]. split; [discriminate | reflexivity].
  - destruct sc; cbn [andb].
    + destruct (Mat_empty t) eqn:Ht; cbn [negb].
      * rewrite Ho. split; [reflexivity|]. split; [discriminate | reflexivity].
      * destruct (Hr o (mat_cols t) (mat_rows t)) as [Hc Hrw].
        split.
        { unfold Mat_empty in *. rewrite Hc, Hrw, Ht. reflexivity. }
        split; [intros _ _ _; split; assumption|].
        intros [H|H]; discriminate H.
    + rewrite Ho. split; [reflexivity|]. split; [discriminate | reflexivity].
Qed.

Lemma update_overlay_draw_witness :
  mat_cols (overlay_draw
              (shape_overlay_filter_update (cv := fixed_cv f64_0_9 (mkPoint 2 0))
                 filter_new sample_settings)) = 2.
Proof.
  destruct (update_overlay_draw (cv := fixed_cv f64_0_9 (mkPoint 2 0))
              filter_new sample_settings
              ltac:(intros; split; reflexivity)) as (_ & H & _).
  destruct (H eq_refl eq_refl eq_refl) as [Hc _].
  exact Hc.
Defined.

(** X11: a change of settings takes the overlay off the picture until the
    next detection attempt: on the updated instance a call that runs no
    attempt returns the frame untouched. *)
Theorem update_hides_overlay `{cv : OpenCV}
    (filter : shape_overlay_filter_data) (settings : obs_data_t)
    (fr : obs_source_frame) (now : Z) :
  let r := shape_overlay_filter_video
             (shape_overlay_filter_update filter settings) (Some fr) now in
  count_events is_detect (events_of r) = 0%nat ->
  returned_frame r = Some fr /\ count_events is_blend (events_of r) = 0%nat.
Proof.
  cbv zeta. rewrite video_cases.
  destruct (supported_format (frame_format fr)).
  - destruct (_ || _); [split; reflexivity|]. cbv zeta.
    destruct (should_detect _ _ _).
    + destruct (d_valid _); intros H; discriminate H.
    + intros _. split; reflexivity.
  - destruct (warned_format _); split; reflexivity.
Qed.

Lemma update_hides_overlay_witness :
  returned_frame
    (shape_overlay_filter_video (cv := fixed_cv f64_0_9 (mkPoint 2 0))
       (shape_overlay_filter_update (cv := fixed_cv f64_0_9 (mkPoint 2 0))
          (sample_filter 2000000000 true true) sample_settings)
       (Some (sample_frame VIDEO_FORMAT_BGRA)) 2000000001)
  = Some (sample_frame VIDEO_FORMAT_BGRA).
Proof.
  destruct (update_hides_overlay (cv := fixed_cv f64_0_9 (mkPoint 2 0))
              (sample_filter 2000000000 true true) sample_settings
              (sample_frame VIDEO_FORMAT_BGRA) 2000000001 eq_refl) as [H _].
  exact H.
Defined.

(* ===================================================================== *)
(** ** Matcher: NaN, location cells, monotonicity *)
(* ===================================================================== *)

Lemma f32_to_f64_nan (x : float) : is_nan x = true -> f32_to_f64 x = S754_nan.
Proof. destruct x; try discriminate. reflexivity. Qed.

Lemma geb_nan_r (x : spec_float) : geb x S754_nan = false.
Proof. destruct x; reflexivity. Qed.

(** [x >= y] and [y >= z] give [x >= z]. *)
Lemma geb_trans (x y z : spec_float) :
  geb x y = true -> geb y z = true -> geb x z = true.
Proof.
  unfold geb.
  destruct x as [sx|sx| |sx mx ex], y as [sy|sy| |sy my ey],
           z as [sz|sz| |sz mz ez]; cbn;
    try discriminate; try reflexivity;
    try (destruct sx, sy, sz; cbn; (discriminate || reflexivity)).
  all: try (destruct sx, sy; cbn; (discriminate || reflexivity)).
  all: try (destruct sx, sz; cbn; (discriminate || reflexivity)).
  all: try (destruct sy, sz; cbn; (discriminate || reflexivity)).
  all: destruct sx, sy, sz; cbn; try discriminate; try reflexivity.
  all: destruct (Z.compare_spec ex ey), (Z.compare_spec ey ez),
         (Z.compare_spec ex ez); try lia; try discriminate; try reflexivity;
       change (Pos.compare_cont Eq) with Pos.compare;
       destruct (Pos.compare_spec mx my), (Pos.compare_spec my mz),
         (Pos.compare_spec mx mz); cbn; try lia; try discriminate;
       try reflexivity.
Qed.

(** [x <= y] read as [y >= x]. *)
Lemma SFleb_geb (x y : spec_float) : SFleb x y = true -> geb y x = true.
Proof.
  unfold SFleb, geb.
  destruct x as [sx|sx| |sx mx ex], y as [sy|sy| |sy my ey]; cbn;
    try discriminate; try reflexivity;
    try (destruct sx, sy; cbn; (discriminate || reflexivity));
    try (destruct sx; cbn; (discriminate || reflexivity));
    try (destruct sy; cbn; (discriminate || reflexivity)).
  destruct sx, sy; cbn; try discriminate; try reflexivity;
    rewrite (Z.compare_antisym ex ey);
    destruct (ex ?= ey); cbn; try discriminate; try reflexivity;
    change (Pos.compare_cont Eq) with Pos.compare;
    rewrite (Pos.compare_antisym mx my);
    destruct (mx ?= my)%positive; cbn; try discriminate; reflexivity.
Qed.

(** X12: a NaN never matches: with a NaN threshold, or a NaN maximum of the
    correlation surface, the matcher reports no match. *)
Theorem detect_template_nan `{cv : OpenCV}
    (frame_gray templ_gray : Mat) (threshold : float) (outs : outputs) :
  is_nan threshold = true
  \/ is_nan (max_val (cv_minMaxLoc
               (cv_matchTemplate_ccoeff_normed frame_gray templ_gray))) = true ->
  fst (detect_template frame_gray templ_gray threshold outs) = false.
Proof.
  intros H.
  destruct (fails_closed frame_gray templ_gray) eqn:Hf.
  - rewrite (detect_template_degenerate _ _ _ _ Hf). reflexivity.
  - rewrite (detect_template_regular _ _ _ _ Hf). cbv zeta.
    replace (geb _ _) with false; [reflexivity|].
    destruct H as [H|H].
    + rewrite (f32_to_f64_nan _ H). symmetry. apply geb_nan_r.
    + destruct (max_val _); try discriminate H. reflexivity.
Qed.

Lemma detect_template_nan_witness :
  fst (detect_template (cv := fixed_cv f64_0_9 (mkPoint 2 0))
         (mkMat 3 4 1 4 []) sample_template S754_nan
         (mkOutputs (Some 0) (Some 0) (Some f32_zero))) = false.
Proof.
  apply (detect_template_nan (cv := fixed_cv f64_0_9 (mkPoint 2 0))).
  left. reflexivity.
Defined.

(** X13: the location cells are written exactly on a match, with the position
    of the maximum; a miss leaves them as they were, and nothing is ever
    written through a null pointer. *)
Theorem detect_template_location `{cv : OpenCV}
    (frame_gray templ_gray : Mat) (threshold : float) (outs : outputs) :
  let mm := cv_minMaxLoc (cv_matchTemplate_ccoeff_normed frame_gray templ_gray) in
  let r := detect_template frame_gray templ_gray threshold outs in
  (if fst r
   then out_x (snd r) = assign (out_x outs) (pt_x (max_loc mm))
        /\ out_y (snd r) = assign (out_y outs) (pt_y (max_loc mm))
   else out_x (snd r) = out_x outs /\ out_y (snd r) = out_y outs)
  /\ (out_x outs = None <-> out_x (snd r) = None)
  /\ (out_y outs = None <-> out_y (snd r) = None)
  /\ (out_score outs = None <-> out_score (snd r) = None).
Proof.
  cbv zeta.
  destruct (fails_closed frame_gray templ_gray) eqn:Hf.
  - rewrite (detect_template_degenerate _ _ _ _ Hf). cbn. tauto.
  - rewrite (detect_template_regular _ _ _ _ Hf). cbv zeta.
    destruct outs as [[x|] [y|] [s|]];
      destruct (geb _ _); cbn; repeat split; congruence.
Qed.

(** X14: lowering the threshold never loses a match: what matches at
    [threshold] matches at every [threshold' <= threshold], with the same
    outputs. *)
Theorem lower_threshold_keeps_match `{cv : OpenCV}
    (frame_gray templ_gray : Mat) (threshold threshold' : float)
    (outs : outputs) :
  valid_binary 24 128 threshold = true ->
  valid_binary 24 128 threshold' = true ->
  SFleb threshold' threshold = true ->
  fst (detect_template frame_gray templ_gray threshold outs) = true ->
  detect_template frame_gray templ_gray threshold' outs
  = detect_template frame_gray templ_gray threshold outs.
Proof.
  intros Hv Hv' Hle Hm.
  destruct (fails_closed frame_gray templ_gray) eqn:Hf.
  - rewrite !(detect_template_degenerate _ _ _ _ Hf). reflexivity.
  - rewrite !(detect_template_regular _ _ _ _ Hf) in *. cbv zeta in *.
    destruct (geb _ (f32_to_f64 threshold)) eqn:Hg; [|discriminate Hm].
    assert (Hg' : geb (f32_to_f64 threshold) (f32_to_f64 threshold') = true).
    { rewrite geb_widen by assumption. apply SFleb_geb. exact Hle. }
    rewrite (geb_trans _ _ _ Hg Hg'). reflexivity.
Qed.

Lemma lower_threshold_keeps_match_witness :
  fst (detect_template (cv := fixed_cv f64_0_9 (mkPoint 2 0))
         (mkMat 3 4 1 4 []) sample_template f32_half
         (mkOutputs (Some 0) (Some 0) (Some f32_zero))) = true.
Proof.
  rewrite (lower_threshold_keeps_match (cv := fixed_cv f64_0_9 (mkPoint 2 0))
             (mkMat 3 4 1 4 []) sample_template f32_0_8 f32_half
             (mkOutputs (Some 0) (Some 0) (Some f32_zero))
             eq_refl eq_refl eq_refl eq_refl).
  reflexivity.
Defined.

(* ===================================================================== *)
(** ** Compositor: identity cases, byte range, full opacity *)
(* ===================================================================== *)

Lemma blend_overlay_inside dst ls w h overlay x y opacity fx fy c :
  4 * w <= ls ->
  ls * h <= Z.of_nat (length dst) ->
  in_intersection w h overlay x y fx fy ->
  0 <= c < 4 ->
  load (blend_overlay_bgra dst ls w h overlay x y opacity)
       (fy * ls + fx * 4 + c) =
    blended_byte (mat_data overlay) (overlay_px overlay (fx - x) (fy - y))
      opacity c (load dst (fy * ls + fx * 4 + c)).
Proof.
  intros Hw Hh [Hfx Hfy] Hc. unfold blend_overlay_bgra, overlay_px.
  assert (He : Mat_empty overlay = false).
  { unfold Mat_empty. apply Z.eqb_neq. nia. }
  rewrite He.
  replace ((Z.max 0 x >=? Z.min w (x + mat_cols overlay))
           || (Z.max 0 y >=? Z.min h (y + mat_rows overlay)))
    with false
    by (symmetry; apply orb_false_intro; rewrite Z.geb_leb; apply Z.leb_gt; lia).
  pose proof (blend_rows_inside
    (Z.to_nat (Z.min h (y + mat_rows overlay) - Z.max 0 y))
    overlay ls opacity (Z.max 0 x - x) (Z.max 0 x)
    (Z.min w (x + mat_cols overlay)) (Z.max 0 y - y)
    (Z.max 0 y) dst (fy - Z.max 0 y) fx c) as Hin.
  replace (Z.max 0 y + (fy - Z.max 0 y)) with fy in Hin by lia.
  replace (Z.max 0 y - y + (fy - Z.max 0 y)) with (fy - y) in Hin by lia.
  replace (Z.max 0 x - x + (fx - Z.max 0 x)) with (fx - x) in Hin by lia.
  apply Hin; try lia. nia.
Qed.

Lemma blend_px_skip src src_px opacity dst dst_px :
  scaled_alpha (load src (src_px + 3)) opacity <= 0 ->
  blend_px src src_px opacity dst dst_px = dst.
Proof.
  intros H. unfold blend_px. cbv zeta.
  apply Z.leb_le in H. rewrite H. reflexivity.
Qed.

Lemma blend_cols_skip n : forall src src_row dst_row opacity ox fx dst,
  (forall j, 0 <= j < Z.of_nat n ->
     scaled_alpha (load src (src_row + (ox + j) * 4 + 3)) opacity <= 0) ->
  blend_cols n src src_row dst_row opacity ox fx dst = dst.
Proof.
  induction n as [|n IH]; intros src src_row dst_row opacity ox fx dst H;
    [reflexivity|].
  cbn [blend_cols]. cbv zeta.
  rewrite blend_px_skip.
  - apply IH. intros j Hj.
    replace (ox + 1 + j) with (ox + (j + 1)) by lia. apply H. lia.
  - specialize (H 0 ltac:(lia)). rewrite Z.add_0_r in H. exact H.
Qed.

Lemma blend_rows_skip n : forall overlay ls opacity ox0 sx ex oy fy dst,
  (forall j i, 0 <= j < Z.of_nat n -> 0 <= i < ex - sx ->
     scaled_alpha
       (load (mat_data overlay) (overlay_px overlay (ox0 + i) (oy + j) + 3))
       opacity <= 0) ->
  blend_rows n overlay ls opacity ox0 sx ex oy fy dst = dst.
Proof.
  induction n as [|n IH]; intros overlay ls opacity ox0 sx ex oy fy dst H;
    [reflexivity|].
  cbn [blend_rows]. cbv zeta.
  rewrite blend_cols_skip.
  - apply IH. intros j i Hj Hi.
    replace (oy + 1 + j) with (oy + (j + 1)) by lia. apply H; lia.
  - intros j Hj. specialize (H 0 j ltac:(lia) ltac:(lia)).
    unfold overlay_px in H. rewrite Z.add_0_r in H. exact H.
Qed.

Lemma blend_overlay_skip dst ls w h overlay x y opacity :
  (forall ox oy, 0 <= ox < mat_cols overlay -> 0 <= oy < mat_rows overlay ->
     scaled_alpha (load (mat_data overlay) (overlay_px overlay ox oy + 3))
       opacity <= 0) ->
  blend_overlay_bgra dst ls w h overlay x y opacity = dst.
Proof.
  intros H. unfold blend_overlay_bgra.
  destruct (Mat_empty overlay); [reflexivity|]. cbv zeta.
  destruct (_ || _); [reflexivity|].
  apply blend_rows_skip. intros j i Hj Hi. apply H; lia.
Qed.

Lemma scaled_alpha_zero_opacity (a : Z) (s : bool) :
  scaled_alpha a (S754_zero s) <= 0.
Proof.
  unfold scaled_alpha.
  destruct (f32_of_Z a) as [sa|sa| |sa ma ea]; cbn;
    solve [lia | vm_compute; discriminate].
Qed.

Lemma scaled_alpha_nan_opacity (a : Z) : scaled_alpha a S754_nan <= 0.
Proof.
  unfold scaled_alpha.
  destruct (f32_of_Z a) as [sa|sa| |sa ma ea]; cbn;
    solve [lia | vm_compute; discriminate].
Qed.

Lemma scaled_alpha_transparent (opacity : float) : scaled_alpha 0 opacity <= 0.
Proof.
  unfold scaled_alpha.
  change (f32_of_Z 0) with (S754_zero false).
  destruct opacity as [s|s| |s m e]; cbn;
    solve [lia | vm_compute; discriminate].
Qed.

(** X15: with opacity 0 (of either sign) or a NaN opacity nothing is drawn:
    the frame buffer comes back as it was. *)
Theorem blend_zero_opacity (dst : list Z) (dst_linesize frame_w frame_h : Z)
    (overlay : Mat) (dst_x dst_y : Z) (opacity : float) :
  (exists s, opacity = S754_zero s) \/ is_nan opacity = true ->
  blend_overlay_bgra dst dst_linesize frame_w frame_h overlay dst_x dst_y opacity
  = dst.
Proof.
  intros H. apply blend_overlay_skip. intros ox oy _ _.
  destruct H as [[s ->] | H].
  - apply scaled_alpha_zero_opacity.
  - destruct opacity; try discriminate H. apply scaled_alpha_nan_opacity.
Qed.

Lemma blend_zero_opacity_witness :
  blend_overlay_bgra (repeat 7 60) 20 4 3 sample_overlay 1 1 f32_zero
  = repeat 7 60.
Proof.
  apply blend_zero_opacity. left. exists false. reflexivity.
Defined.

(** X16: an overlay whose pixels all have alpha 0 leaves the frame buffer as
    it was, whatever the opacity and the position. *)
Theorem blend_transparent_overlay (dst : list Z)
    (dst_linesize frame_w frame_h : Z) (overlay : Mat) (dst_x dst_y : Z)
    (opacity : float) :
  fully_transparent overlay ->
  blend_overlay_bgra dst dst_linesize frame_w frame_h overlay dst_x dst_y opacity
  = dst.
Proof.
  intros H. apply blend_overlay_skip. intros ox oy Hx Hy.
  rewrite (H ox oy Hx Hy). apply scaled_alpha_transparent.
Qed.

Lemma blend_transparent_overlay_witness :
  blend_overlay_bgra (repeat 7 60) 20 4 3 (mkMat 1 1 4 4 [200; 200; 200; 0])
    1 1 f32_one = repeat 7 60.
Proof.
  apply blend_transparent_overlay.
  intros ox oy Hx Hy. cbn in Hx, Hy.
  assert (ox = 0) by lia. assert (oy = 0) by lia. subst. reflexivity.
Defined.

Lemma blend_channel_between (s d a : Z) :
  0 <= s < 256 -> 0 <= d < 256 -> 0 < a <= 255 ->
  Z.min s d <= blend_channel s d a (255 - a) <= Z.max s d.
Proof.
  intros Hs Hd Ha. rewrite blend_channel_exact by assumption.
  split.
  - apply Z.div_le_lower_bound; [lia|]. nia.
  - assert (s * a + d * (255 - a) <= 255 * Z.max s d) by nia.
    enough ((s * a + d * (255 - a) + 127) / 255 < Z.max s d + 1) by lia.
    apply Z.div_lt_upper_bound; lia.
Qed.

(** X18: no overshoot: with byte buffers and an opacity between 0 and 1,
    every colour byte of a pixel under the overlay ends between the
    frame's byte and the overlay's byte. *)
Theorem blend_between (dst : list Z) (dst_linesize frame_w frame_h : Z)
    (overlay : Mat) (dst_x dst_y : Z) (opacity : float) (fx fy c : Z) :
  4 * frame_w <= dst_linesize ->
  dst_linesize * frame_h <= Z.of_nat (length dst) ->
  in_intersection frame_w frame_h overlay dst_x dst_y fx fy ->
  bytes dst -> bytes (mat_data overlay) -> in_unit_interval opacity ->
  0 <= c < 3 ->
  let s := load (mat_data overlay)
             (overlay_px overlay (fx - dst_x) (fy - dst_y) + c) in
  let d := load dst (fy * dst_linesize + fx * 4 + c) in
  let d' := load (blend_overlay_bgra dst dst_linesize frame_w frame_h overlay
                    dst_x dst_y opacity)
                 (fy * dst_linesize + fx * 4 + c) in
  Z.min s d <= d' <= Z.max s d.
Proof.
  intros Hw Hh Hin Hd Hs (Hv & H0 & H1) Hc s d d'.
  subst d'. rewrite blend_overlay_inside by (assumption || lia).
  fold d. unfold blended_byte. cbv zeta.
  set (a := load (mat_data overlay) (_ + 3)).
  assert (Ha : 0 <= a < 256) by (apply load_byte; exact Hs).
  pose proof (scaled_alpha_le a opacity Ha Hv H0 H1) as Hle.
  destruct (Z.leb_spec (scaled_alpha a opacity) 0) as [Hz|Hp]; [lia|].
  replace (c =? 3) with false by (symmetry; apply Z.eqb_neq; lia).
  apply blend_channel_between;
    [apply load_byte; exact Hs | apply load_byte; exact Hd | lia].
Qed.

Lemma blend_between_witness :
  Z.min 255 7
  <= load (blend_overlay_bgra (repeat 7 60) 20 4 3 sample_overlay 1 1 f32_half)
          (1 * 20 + 1 * 4 + 0)
  <= Z.max 255 7.
Proof.
  assert (H1 : 4 * 4 <= 20) by lia.
  assert (H2 : 20 * 3 <= Z.of_nat (length (repeat 7 60))) by (cbn; lia).
  assert (H3 : in_intersection 4 3 sample_overlay 1 1 1 1)
    by (unfold in_intersection; cbn; lia).
  assert (H4 : bytes (repeat 7 60))
    by (unfold bytes; cbn; repeat constructor; lia).
  assert (H5 : bytes (mat_data sample_overlay))
    by (unfold bytes; cbn; repeat constructor; lia).
  assert (H6 : in_unit_interval f32_half) by (repeat split).
  exact (blend_between (repeat 7 60) 20 4 3 sample_overlay 1 1 f32_half 1 1 0
           H1 H2 H3 H4 H5 H6 ltac:(lia)).
Defined.

Lemma scaled_alpha_full_table :
  forallb (fun a => scaled_alpha a f32_one =? a) (map Z.of_nat (seq 0 256)) = true.
Proof. vm_compute. reflexivity. Qed.

Lemma scaled_alpha_full_opacity (a : Z) :
  0 <= a < 256 -> scaled_alpha a f32_one = a.
Proof.
  intros Ha.
  pose proof scaled_alpha_full_table as H.
  rewrite forallb_forall in H.
  apply Z.eqb_eq, H.
  apply in_map_iff. exists (Z.to_nat a). split; [lia|].
  apply in_seq. lia.
Qed.

(** X19: at full opacity the overlay's own alpha is the effective alpha:
    every pixel under the overlay is the source-over blend
    [(s * a + d * (255 - a) + 127) / 255] with [a] the overlay's alpha
    byte, and gets alpha 255; an overlay pixel with alpha 0 leaves the
    frame pixel as it is, one with alpha 255 replaces its colour. *)
Theorem blend_full_opacity (dst : list Z) (dst_linesize frame_w frame_h : Z)
    (overlay : Mat) (dst_x dst_y : Z) (fx fy : Z) :
  4 * frame_w <= dst_linesize ->
  dst_linesize * frame_h <= Z.of_nat (length dst) ->
  in_intersection frame_w frame_h overlay dst_x dst_y fx fy ->
  bytes dst -> bytes (mat_data overlay) ->
  let src_px := overlay_px overlay (fx - dst_x) (fy - dst_y) in
  let a := load (mat_data overlay) (src_px + 3) in
  let dst' := blend_overlay_bgra dst dst_linesize frame_w frame_h overlay
                dst_x dst_y f32_one in
  let dst_px := fy * dst_linesize + fx * 4 in
  (forall c, 0 <= c < 3 ->
     load dst' (dst_px + c)
     = (load (mat_data overlay) (src_px + c) * a
        + load dst (dst_px + c) * (255 - a) + 127) / 255)
  /\ load dst' (dst_px + 3) = (if a =? 0 then load dst (dst_px + 3) else 255)
  /\ (a = 0 -> forall c, 0 <= c < 4 -> load dst' (dst_px + c) = load dst (dst_px + c))
  /\ (a = 255 -> forall c, 0 <= c < 3 ->
        load dst' (dst_px + c) = load (mat_data overlay) (src_px + c)).
Proof.
  intros Hw Hh Hin Hd Hs src_px a dst' dst_px.
  assert (Ha : 0 <= a < 256) by (apply load_byte; exact Hs).
  assert (Hat : forall c, 0 <= c < 4 ->
            load dst' (dst_px + c) =
              if a <=? 0 then load dst (dst_px + c)
              else if c =? 3 then 255
              else blend_channel (load (mat_data overlay) (src_px + c))
                     (load dst (dst_px + c)) a (255 - a)).
  { intros c Hc. subst dst' dst_px.
    rewrite blend_overlay_inside by assumption.
    unfold blended_byte. cbv zeta. fold src_px. fold a.
    rewrite (scaled_alpha_full_opacity a Ha). reflexivity. }
  assert (Hcol : forall c, 0 <= c < 3 ->
            load dst' (dst_px + c)
            = (load (mat_data overlay) (src_px + c) * a
               + load dst (dst_px + c) * (255 - a) + 127) / 255).
  { intros c Hc. rewrite Hat by lia.
    pose proof (load_byte dst (dst_px + c) Hd) as Hdc.
    pose proof (load_byte (mat_data overlay) (src_px + c) Hs) as Hsc.
    destruct (Z.leb_spec a 0) as [Hz|Hp].
    - assert (a = 0) by lia. subst a.
      replace (load (mat_data overlay) (src_px + 3)) with 0 by lia.
      replace (load (mat_data overlay) (src_px + c) * 0
               + load dst (dst_px + c) * (255 - 0) + 127)
        with (127 + load dst (dst_px + c) * 255) by lia.
      rewrite Z.div_add by lia. reflexivity.
    - replace (c =? 3) with false by (symmetry; apply Z.eqb_neq; lia).
      apply blend_channel_exact; [assumption | assumption | lia]. }
  split; [exact Hcol|]. split; [|split].
  - rewrite Hat by lia.
    destruct (Z.leb_spec a 0) as [Hz|Hp].
    + replace (a =? 0) with true by (symmetry; apply Z.eqb_eq; lia). reflexivity.
    + replace (a =? 0) with false by (symmetry; apply Z.eqb_neq; lia). reflexivity.
  - intros H0 c Hc. rewrite Hat by lia. rewrite H0. reflexivity.
  - intros H255 c Hc. rewrite Hcol by lia. rewrite H255.
    pose proof (load_byte (mat_data overlay) (src_px + c) Hs) as Hsc.
    replace (load (mat_data overlay) (src_px + c) * 255
             + load dst (dst_px + c) * (255 - 255) + 127)
      with (127 + load (mat_data overlay) (src_px + c) * 255) by lia.
    rewrite Z.div_add by lia. reflexivity.
Qed.

Lemma blend_full_opacity_witness :
  load (blend_overlay_bgra (repeat 7 60) 20 4 3
          (mkMat 1 1 4 4 [10; 20; 30; 255]) 1 1 f32_one)
       (1 * 20 + 1 * 4 + 2) = 30.
Proof.
  assert (H1 : 4 * 4 <= 20) by lia.
  assert (H2 : 20 * 3 <= Z.of_nat (length (repeat 7 60))) by (cbn; lia).
  assert (H3 : in_intersection 4 3 (mkMat 1 1 4 4 [10; 20; 30; 255]) 1 1 1 1)
    by (unfold in_intersection; cbn; lia).
  assert (H4 : bytes (repeat 7 60))
    by (unfold bytes; cbn; repeat constructor; lia).
  assert (H5 : bytes (mat_data (mkMat 1 1 4 4 [10; 20; 30; 255])))
    by (unfold bytes; cbn; repeat constructor; lia).
  destruct (blend_full_opacity (repeat 7 60) 20 4 3
              (mkMat 1 1 4 4 [10; 20; 30; 255]) 1 1 1 1 H1 H2 H3 H4 H5)
    as (_ & _ & _ & H).
  exact (H eq_refl 2 ltac:(lia)).
Defined.

(* ===================================================================== *)
(** ** Compositor: no access outside the buffers *)
(* ===================================================================== *)

Lemma checked_load_in (buf : list Z) (i : Z) :
  0 <= i < Z.of_nat (length buf) -> load_checked buf i = Some (load buf i).
Proof.
  intros Hi. unfold load_checked, load.
  replace (0 <=? i) with true by (symmetry; apply Z.leb_le; lia).
  destruct (lookup_lt_is_Some_2 buf (Z.to_nat i) ltac:(lia)) as [v Hv].
  rewrite Hv. reflexivity.
Qed.

Lemma checked_store_in (buf : list Z) (i v : Z) :
  0 <= i < Z.of_nat (length buf) -> store_checked buf i v = Some (store buf i v).
Proof.
  intros Hi. unfold store_checked, store.
  replace (0 <=? i) with true by (symmetry; apply Z.leb_le; lia).
  replace (i <? Z.of_nat (length buf)) with true by (symmetry; apply Z.ltb_lt; lia).
  reflexivity.
Qed.

Lemma checked_blend_px src src_px opacity dst dst_px :
  0 <= src_px -> src_px + 4 <= Z.of_nat (length src) ->
  0 <= dst_px -> dst_px + 4 <= Z.of_nat (length dst) ->
  blend_px_checked src src_px opacity dst dst_px
  = Some (blend_px src src_px opacity dst dst_px).
Proof.
  intros Hs0 Hs1 Hd0 Hd1. unfold blend_px_checked, blend_px.
  rewrite (checked_load_in src (src_px + 3)) by lia. cbn [mbind option_bind].
  cbv zeta.
  destruct (_ <=? 0); [reflexivity|].
  rewrite (checked_load_in src (src_px + 0)) by lia. cbn [mbind option_bind].
  rewrite (checked_load_in dst (dst_px + 0)) by lia. cbn [mbind option_bind].
  rewrite (checked_store_in dst (dst_px + 0)) by lia. cbn [mbind option_bind].
  rewrite (checked_load_in src (src_px + 1)) by lia. cbn [mbind option_bind].
  rewrite (checked_load_in (store _ _ _) (dst_px + 1))
    by (rewrite store_length; lia).
  cbn [mbind option_bind].
  rewrite (checked_store_in (store _ _ _) (dst_px + 1))
    by (rewrite store_length; lia).
  cbn [mbind option_bind].
  rewrite (checked_load_in src (src_px + 2)) by lia. cbn [mbind option_bind].
  rewrite (checked_load_in (store _ _ _) (dst_px + 2))
    by (rewrite !store_length; lia).
  cbn [mbind option_bind].
  rewrite (checked_store_in (store _ _ _) (dst_px + 2))
    by (rewrite !store_length; lia).
  cbn [mbind option_bind].
  rewrite (checked_store_in (store _ _ _) (dst_px + 3))
    by (rewrite !store_length; lia).
  reflexivity.
Qed.

Lemma checked_blend_cols n : forall src src_row dst_row opacity ox fx dst,
  0 <= src_row + ox * 4 ->
  src_row + (ox + Z.of_nat n) * 4 <= Z.of_nat (length src) ->
  0 <= dst_row + fx * 4 ->
  dst_row + (fx + Z.of_nat n) * 4 <= Z.of_nat (length dst) ->
  blend_cols_checked n src src_row dst_row opacity ox fx dst
  = Some (blend_cols n src src_row dst_row opacity ox fx dst).
Proof.
  induction n as [|n IH]; intros src src_row dst_row opacity ox fx dst
    Hs0 Hs1 Hd0 Hd1; [reflexivity|].
  cbn [blend_cols_checked blend_cols]. cbv zeta.
  rewrite checked_blend_px by lia. cbn [mbind option_bind].
  apply IH; rewrite ?blend_px_length; lia.
Qed.

Lemma checked_blend_rows n : forall overlay ls opacity ox0 sx ex oy fy dst,
  0 <= ox0 -> 0 <= sx -> 0 <= oy -> 0 <= fy ->
  0 <= mat_step overlay -> 0 <= ls ->
  (ox0 + (ex - sx)) * 4 <= mat_step overlay ->
  ex * 4 <= ls ->
  (oy + Z.of_nat n) * mat_step overlay <= Z.of_nat (length (mat_data overlay)) ->
  (fy + Z.of_nat n) * ls <= Z.of_nat (length dst) ->
  blend_rows_checked n overlay ls opacity ox0 sx ex oy fy dst
  = Some (blend_rows n overlay ls opacity ox0 sx ex oy fy dst).
Proof.
  induction n as [|n IH]; intros overlay ls opacity ox0 sx ex oy fy dst
    Hox Hsx Hoy Hfy Hst Hls Hsw Hdw Hsl Hdl; [reflexivity|].
  cbn [blend_rows_checked blend_rows]. cbv zeta.
  destruct (Z.le_gt_cases ex sx) as [Hle|Hgt].
  - replace (Z.to_nat (ex - sx)) with 0%nat by lia.
    cbn [blend_cols_checked blend_cols mbind option_bind].
    apply IH; lia.
  - rewrite checked_blend_cols; [| nia | | nia | ].
    + cbn [mbind option_bind].
      apply IH; rewrite ?blend_cols_length; lia.
    + rewrite Z2Nat.id by lia. nia.
    + rewrite Z2Nat.id by lia. nia.
Qed.

(** X20: no access outside the buffers: when the frame buffer holds
    [frame_h] rows of [dst_linesize >= 4 * frame_w] bytes and the
    overlay's buffer [mat_rows] rows of [mat_step >= 4 * mat_cols] bytes,
    every read and every write of the compositor stays inside them, for
    every position of the overlay. *)
Theorem blend_in_bounds (dst : list Z) (dst_linesize frame_w frame_h : Z)
    (overlay : Mat) (dst_x dst_y : Z) (opacity : float) :
  4 * frame_w <= dst_linesize ->
  dst_linesize * frame_h <= Z.of_nat (length dst) ->
  4 * mat_cols overlay <= mat_step overlay ->
  mat_step overlay * mat_rows overlay <= Z.of_nat (length (mat_data overlay)) ->
  blend_overlay_bgra_checked dst dst_linesize frame_w frame_h overlay
    dst_x dst_y opacity
  = Some (blend_overlay_bgra dst dst_linesize frame_w frame_h overlay
            dst_x dst_y opacity).
Proof.
  intros Hw Hh Hc Hr.
  unfold blend_overlay_bgra_checked, blend_overlay_bgra.
  destruct (Mat_empty overlay); [reflexivity|]. cbv zeta.
  destruct (Z.geb_spec (Z.max 0 dst_x) (Z.min frame_w (dst_x + mat_cols overlay)))
    as [Hx|Hx]; [reflexivity|].
  destruct (Z.geb_spec (Z.max 0 dst_y) (Z.min frame_h (dst_y + mat_rows overlay)))
    as [Hy|Hy]; [reflexivity|].
  cbn [orb].
  apply checked_blend_rows; try lia.
  - rewrite Z2Nat.id by lia. nia.
  - rewrite Z2Nat.id by lia. nia.
Qed.

Lemma blend_in_bounds_witness :
  blend_overlay_bgra_checked (repeat 7 60) 20 4 3 sample_overlay 3 2 f32_half
  = Some (blend_overlay_bgra (repeat 7 60) 20 4 3 sample_overlay 3 2 f32_half).
Proof.
  apply blend_in_bounds; cbn; lia.
Defined.

(* ===================================================================== *)
(** ** Configuration: ranges of the stored settings *)
(* ===================================================================== *)

Lemma binary_round_aux_any_sign s m e l :
  binary_round_aux 24 128 s m e l =
    match binary_round_aux 24 128 false m e l with
    | S754_zero _ => S754_zero s
    | S754_infinity _ => S754_infinity s
    | S754_nan => S754_nan
    | S754_finite _ mf ef => S754_finite s mf ef
    end.
Proof.
  unfold binary_round_aux.
  destruct (shr_fexp 24 128 m e l) as [mrs' e'].
  destruct (shr_fexp 24 128 _ e' loc_Exact) as [mrs'' e''].
  destruct (shr_m mrs''); try reflexivity.
  destruct (e'' <=? 128 - 24); reflexivity.
Qed.

Lemma binary_round_aux_valid (s : bool) (P : positive) (E : Z) :
  E <= fexp 24 128 (Zpos (digits2_pos P) + E) ->
  valid_binary 24 128 (binary_round_aux 24 128 s (Zpos P) E loc_Exact) = true.
Proof.
  intros HE. rewrite binary_round_aux_any_sign.
  destruct (binary_round_aux_result P E HE)
    as (mz & ez & Hmz & -> & _ & _ & _ & Hcan).
  destruct mz as [|m|m]; [reflexivity| |lia].
  destruct (Z.leb_spec ez 104) as [Hle|Hgt]; [|reflexivity].
  cbn [valid_binary]. unfold bounded, canonical_mantissa.
  specialize (Hcan ltac:(lia)). cbn [Zdigits2] in Hcan.
  rewrite Hcan, Z.eqb_refl. cbn [andb]. apply Z.leb_le. lia.
Qed.

Lemma binary_round_valid (s : bool) (m : positive) (e : Z) :
  valid_binary 24 128 (binary_round 24 128 s m e) = true.
Proof.
  unfold binary_round.
  destruct (shl_align m e (fexp 24 128 (Zpos (digits2_pos m) + e)))
    as [mz ez] eqn:Hsh.
  apply binary_round_aux_valid.
  unfold shl_align in Hsh.
  destruct (fexp 24 128 (Zpos (digits2_pos m) + e) - e) as [|d|d] eqn:Hd;
    injection Hsh as <- <-.
  - lia.
  - lia.
  - rewrite digits2_pos_iter_xO.
    replace (Zpos (digits2_pos m + d) + fexp 24 128 (Zpos (digits2_pos m) + e))
      with (Zpos (digits2_pos m) + e) by lia.
    lia.
Qed.

(** Narrowing a [double] always yields a [float] in canonical form. *)
Lemma f64_to_f32_valid (x : double) : valid_binary 24 128 (f64_to_f32 x) = true.
Proof.
  destruct x as [s|s| |s m e]; try reflexivity.
  apply binary_round_valid.
Qed.

Lemma SFleb_of_not_ltb (x y : spec_float) :
  is_nan x = false -> is_nan y = false ->
  SFltb y x = false -> SFleb x y = true.
Proof.
  unfold SFltb, SFleb.
  destruct x as [sx|sx| |sx mx ex], y as [sy|sy| |sy my ey]; cbn;
    try discriminate; try reflexivity;
    try (destruct sx, sy; cbn; intros; (discriminate || reflexivity));
    try (destruct sx; cbn; intros; (discriminate || reflexivity));
    try (destruct sy; cbn; intros; (discriminate || reflexivity)).
  intros _ _.
  destruct sx, sy; cbn; try discriminate; try reflexivity;
    rewrite (Z.compare_antisym ex ey);
    destruct (ex ?= ey); cbn; try discriminate; try reflexivity;
    change (Pos.compare_cont Eq) with Pos.compare;
    rewrite (Pos.compare_antisym mx my);
    destruct (mx ?= my)%positive; cbn; try discriminate; reflexivity.
Qed.

Lemma clamp_unit (v : float) :
  valid_binary 24 128 v = true -> unit_or_nan (clamp v f32_zero f32_one).
Proof.
  intros Hv. unfold clamp.
  destruct (f32_ltb v f32_zero) eqn:H0.
  - right. repeat split.
  - destruct (f32_ltb f32_one v) eqn:H1.
    + right. repeat split.
    + destruct (is_nan v) eqn:Hn; [left; exact Hn|].
      right. split; [exact Hv|]. split.
      * apply SFleb_of_not_ltb; [reflexivity | exact Hn | exact H0].
      * apply SFleb_of_not_ltb; [exact Hn | reflexivity | exact H1].
Qed.

Lemma to_int_range (z : Z) : - 2 ^ 31 <= to_int z < 2 ^ 31.
Proof.
  unfold to_int. pose proof (Z.mod_pos_bound (z + 2 ^ 31) (2 ^ 32) ltac:(lia)).
  lia.
Qed.

Lemma update_well_formed `{cv : OpenCV} filter settings :
  well_formed (shape_overlay_filter_update filter settings).
Proof.
  unfold well_formed.
  cbn [shape_overlay_filter_update interval_ms offset_x offset_y threshold opacity].
  split; [apply Z.mod_pos_bound; lia|].
  split; [apply to_int_range|]. split; [apply to_int_range|].
  split; apply clamp_unit, f64_to_f32_valid.
Qed.

Lemma video_state_cases `{cv : OpenCV} filter frame now :
  let filter' := state_after (shape_overlay_filter_video filter frame now) in
  filter' = filter \/ filter' = set_warned_format filter
  \/ exists ts x y valid score, filter' = set_detection filter ts x y valid score.
Proof.
  cbv zeta. destruct frame as [fr|]; [|left; reflexivity].
  rewrite video_cases.
  destruct (supported_format (frame_format fr)).
  - destruct (_ || _); [left; reflexivity|]. cbv zeta.
    destruct (should_detect _ _ _).
    + right; right. destruct (d_valid _); repeat eexists.
    + left. destruct (d_valid _); reflexivity.
  - destruct (warned_format filter); [left | right; left]; reflexivity.
Qed.

Lemma video_well_formed `{cv : OpenCV} filter frame now :
  well_formed filter ->
  well_formed (state_after (shape_overlay_filter_video filter frame now)).
Proof.
  intros Hw.
  destruct (video_state_cases filter frame now) as [-> | [-> | (ts & x & y & v & s & ->)]];
    exact Hw.
Qed.

Lemma run_well_formed `{cv : OpenCV} (calls : list call) :
  forall filter, well_formed filter -> well_formed (fst (run filter calls)).
Proof.
  induction calls as [|c calls IH]; intros filter Hw; [exact Hw|].
  destruct c as [settings | frame now]; cbn [run].
  - apply IH, update_well_formed.
  - pose proof (video_well_formed filter frame now Hw) as Hv.
    destruct (shape_overlay_filter_video filter frame now) as [[ret filter'] log].
    cbn [state_after fst snd] in Hv. specialize (IH filter' Hv).
    destruct (run filter' calls) as [filter'' log']. exact IH.
Qed.

(** X21: whatever the settings hold, every state an instance can reach has
    its interval within [uint32_t], its offsets within [int], and a
    threshold and an opacity that are NaN or lie between 0 and 1. *)
Theorem configuration_bounds `{cv : OpenCV}
    (settings : obs_data_t) (calls : list call) :
  well_formed (fst (run (shape_overlay_filter_create settings) calls)).
Proof. apply run_well_formed, update_well_formed. Qed.

Lemma scaled_alpha_le_unit_or_nan (a : Z) (opacity : float) :
  0 <= a < 256 -> unit_or_nan opacity -> scaled_alpha a opacity <= a.
Proof.
  intros Ha [Hn | (Hv & H0 & H1)].
  - destruct opacity; try discriminate Hn.
    pose proof (scaled_alpha_nan_opacity a). lia.
  - apply scaled_alpha_le; assumption.
Qed.

(** X22: in every state an instance can reach, the effective alpha computed
    from an overlay alpha byte is at most that byte: [255 - src_alpha] is
    never negative, whatever the settings hold. *)
Theorem effective_alpha_bounded `{cv : OpenCV}
    (settings : obs_data_t) (calls : list call) (a : Z) :
  0 <= a < 256 ->
  scaled_alpha a
    (opacity (fst (run (shape_overlay_filter_create settings) calls))) <= a.
Proof.
  intros Ha. apply scaled_alpha_le_unit_or_nan; [exact Ha|].
  apply (run_well_formed calls (shape_overlay_filter_create settings)
           (update_well_formed filter_new settings)).
Qed.

Lemma effective_alpha_bounded_witness :
  scaled_alpha 200
    (opacity (fst (run (cv := fixed_cv f64_0_9 (mkPoint 2 0))
                     (shape_overlay_filter_create
                        (cv := fixed_cv f64_0_9 (mkPoint 2 0)) near_half_settings)
                     [CallVideo None 0]))) <= 200.
Proof.
  apply (effective_alpha_bounded (cv := fixed_cv f64_0_9 (mkPoint 2 0))). lia.
Defined.

(* ===================================================================== *)
(** ** Defaults and property sheet *)
(* ===================================================================== *)

Ltac lookup_default :=
  unfold get_item, shape_overlay_filter_defaults, obs_data_set_default_double,
    obs_data_set_default_int, obs_data_set_default_bool;
  cbn [od_values od_defaults];
  rewrite !lookup_insert;
  repeat (case_decide; try congruence).

Lemma defaults_items (settings : obs_data) :
  uses_defaults settings ->
  get_item (shape_overlay_filter_defaults settings) "threshold"
    = Some (OBS_DATA_DOUBLE f64_0_8)
  /\ get_item (shape_overlay_filter_defaults settings) "interval_ms"
    = Some (OBS_DATA_INT 100)
  /\ get_item (shape_overlay_filter_defaults settings) "opacity"
    = Some (OBS_DATA_DOUBLE f64_100)
  /\ get_item (shape_overlay_filter_defaults settings) "offset_x"
    = Some (OBS_DATA_INT 0)
  /\ get_item (shape_overlay_filter_defaults settings) "offset_y"
    = Some (OBS_DATA_INT 0)
  /\ get_item (shape_overlay_filter_defaults settings) "scale_overlay"
    = Some (OBS_DATA_BOOLEAN true)
  /\ get_item (shape_overlay_filter_defaults settings) "only_when_matched"
    = Some (OBS_DATA_BOOLEAN true).
Proof.
  intros Hu. unfold uses_defaults, default_keys in Hu.
  repeat (apply Forall_cons in Hu as [? Hu]).
  repeat split; lookup_default;
    match goal with H : od_values settings !! ?k = None |- context [od_values settings !! ?k] =>
      rewrite H end; reflexivity.
Qed.

Lemma defaults_other_item (settings : obs_data) (name : string) :
  name ∉ default_keys ->
  get_item (shape_overlay_filter_defaults settings) name = get_item settings name.
Proof.
  intros Hn. unfold default_keys in Hn.
  lookup_default; try reflexivity; subst; exfalso; apply Hn; set_solver.
Qed.

(** X23: a filter created from settings in which the user has touched none
    of the sliders starts from the registered defaults, and these are
    the values of the member initialisers: threshold 0.8f, interval
    100 ms, opacity 1.0f, offsets 0, both switches on.  With no image
    paths either, the new instance is the freshly constructed one. *)
Theorem create_with_defaults `{cv : OpenCV} (settings : obs_data) :
  uses_defaults settings ->
  let filter :=
    shape_overlay_filter_create (getters (shape_overlay_filter_defaults settings)) in
  threshold filter = threshold filter_new
  /\ interval_ms filter = interval_ms filter_new
  /\ opacity filter = opacity filter_new
  /\ offset_x filter = offset_x filter_new
  /\ offset_y filter = offset_y filter_new
  /\ scale_overlay filter = scale_overlay filter_new
  /\ only_when_matched filter = only_when_matched filter_new
  /\ (get_item settings "template_path" = None ->
      get_item settings "overlay_path" = None ->
      filter = filter_new).
Proof.
  intros Hu. cbv zeta.
  destruct (defaults_items settings Hu) as (Ht & Hi & Ho & Hx & Hy & Hs & Hm).
  assert (Hfields :
    threshold (shape_overlay_filter_create
                 (getters (shape_overlay_filter_defaults settings))) = f32_0_8
    /\ interval_ms (shape_overlay_filter_create
                 (getters (shape_overlay_filter_defaults settings))) = 100
    /\ opacity (shape_overlay_filter_create
                 (getters (shape_overlay_filter_defaults settings))) = f32_one
    /\ offset_x (shape_overlay_filter_create
                 (getters (shape_overlay_filter_defaults settings))) = 0
    /\ offset_y (shape_overlay_filter_create
                 (getters (shape_overlay_filter_defaults settings))) = 0
    /\ scale_overlay (shape_overlay_filter_create
                 (getters (shape_overlay_filter_defaults settings))) = true
    /\ only_when_matched (shape_overlay_filter_create
                 (getters (shape_overlay_filter_defaults settings))) = true).
  { unfold shape_overlay_filter_create.
    cbn [shape_overlay_filter_update threshold interval_ms opacity offset_x
         offset_y scale_overlay only_when_matched getters obs_data_get_double
         obs_data_get_int obs_data_get_bool].
    rewrite Ht, Hi, Ho, Hx, Hy, Hs, Hm.
    cbn [item_double item_int item_bool].
    repeat split; vm_compute; reflexivity. }
  destruct Hfields as (Ft & Fi & Fo & Fx & Fy & Fs & Fm).
  repeat (split; [assumption|]).
  intros Hpt Hpo.
  assert (Hpaths :
    template_path (shape_overlay_filter_create
                 (getters (shape_overlay_filter_defaults settings))) = ""
    /\ overlay_path (shape_overlay_filter_create
                 (getters (shape_overlay_filter_defaults settings))) = "").
  { unfold shape_overlay_filter_create.
    cbn [shape_overlay_filter_update template_path overlay_path getters
         obs_data_get_string].
    rewrite !defaults_other_item
      by (unfold default_keys; rewrite !not_elem_of_cons;
          repeat split; try discriminate; apply not_elem_of_nil).
    rewrite Hpt, Hpo. split; reflexivity. }
  destruct Hpaths as [Pt Po].
  revert Ft Fi Fo Fx Fy Fs Fm Pt Po.
  unfold shape_overlay_filter_create, shape_overlay_filter_update.
  cbv zeta. cbn [threshold interval_ms opacity offset_x offset_y scale_overlay
                 only_when_matched template_path overlay_path].
  intros -> -> -> -> -> -> -> -> ->.
  reflexivity.
Qed.

Lemma create_with_defaults_witness :
  shape_overlay_filter_create (cv := fixed_cv f64_0_9 (mkPoint 2 0))
    (getters (shape_overlay_filter_defaults obs_data_create))
  = filter_new.
Proof.
  destruct (create_with_defaults (cv := fixed_cv f64_0_9 (mkPoint 2 0))
              obs_data_create) as (_ & _ & _ & _ & _ & _ & _ & H).
  - unfold uses_defaults, default_keys. repeat constructor.
  - apply H; reflexivity.
Defined.

(** X24: a settings value inside the range of its integer control is stored
    as it is: the conversions to [uint32_t] and [int] change nothing. *)
Theorem update_within_ranges `{cv : OpenCV} (obs_module_text : string -> string)
    (filter : shape_overlay_filter_data) (settings : obs_data_t) :
  within_ranges (shape_overlay_filter_properties obs_module_text) settings ->
  let filter' := shape_overlay_filter_update filter settings in
  interval_ms filter' = obs_data_get_int settings "interval_ms"
  /\ offset_x filter' = obs_data_get_int settings "offset_x"
  /\ offset_y filter' = obs_data_get_int settings "offset_y".
Proof.
  intros Hr. cbv zeta.
  cbn [shape_overlay_filter_update interval_ms offset_x offset_y].
  pose proof (Hr (PropInt "interval_ms" (obs_module_text "IntervalMs") 0 2000 10)
                ltac:(cbn; tauto)) as Hi.
  pose proof (Hr (PropInt "offset_x" (obs_module_text "OffsetX") (-4096) 4096 1)
                ltac:(cbn; tauto)) as Hx.
  pose proof (Hr (PropInt "offset_y" (obs_module_text "OffsetY") (-4096) 4096 1)
                ltac:(cbn; tauto)) as Hy.
  cbn beta iota in Hi, Hx, Hy.
  unfold to_uint32, to_int.
  rewrite !Z.mod_small by lia. lia.
Qed.

Lemma update_within_ranges_witness :
  within_ranges (shape_overlay_filter_properties (fun key => key)) sample_settings
  /\ interval_ms
       (shape_overlay_filter_update (cv := fixed_cv f64_0_9 (mkPoint 2 0))
          filter_new sample_settings) = 100.
Proof.
  assert (H : within_ranges (shape_overlay_filter_properties (fun key => key))
                sample_settings).
  { intros p Hp. cbn in Hp.
    repeat (destruct Hp as [<- | Hp]; [vm_compute; try tauto; split; congruence|]).
    contradiction. }
  split; [exact H|].
  destruct (update_within_ranges (cv := fixed_cv f64_0_9 (mkPoint 2 0))
              (fun key => key) filter_new sample_settings H) as [Hi _].
  exact Hi.
Defined.

(** X25: every registered default lies within the range of the control of the
    same name: settings in which the user has touched no slider are
    within the ranges of the property sheet. *)
Theorem defaults_within_ranges (obs_module_text : string -> string)
    (settings : obs_data) :
  uses_defaults settings ->
  within_ranges (shape_overlay_filter_properties obs_module_text)
    (getters (shape_overlay_filter_defaults settings)).
Proof.
  intros Hu.
  destruct (defaults_items settings Hu) as (Ht & Hi & Ho & Hx & Hy & Hs & Hm).
  intros p Hp. cbn in Hp.
  repeat (destruct Hp as [<- | Hp];
          [cbn [getters obs_data_get_int obs_data_get_double];
           rewrite ?Ht, ?Hi, ?Ho, ?Hx, ?Hy;
           cbn [item_int item_double];
           first [exact I | lia | split; vm_compute; reflexivity]|]).
  contradiction.
Qed.

Lemma defaults_within_ranges_witness :
  within_ranges (shape_overlay_filter_properties (fun key => key))
    (getters (shape_overlay_filter_defaults obs_data_create)).
Proof.
  apply defaults_within_ranges.
  unfold uses_defaults, default_keys. repeat constructor.
Defined.

(* ===================================================================== *)
(** ** Narrowing the score and the threshold *)
(* ===================================================================== *)

(** Rounding the positive value [P * 2^E] lands on the grid of the
    format at that value: with [n] the number of bits dropped and
    [q = P / 2^n] the truncated mantissa, the result is [q * 2^(E + n)]
    or [(q + 1) * 2^(E + n)], in canonical form (or an overflow). *)
Lemma binary_round_aux_grid (P : positive) (E : Z) :
  E <= fexp 24 128 (Zpos (digits2_pos P) + E) ->
  let n := fexp 24 128 (Zpos (digits2_pos P) + E) - E in
  exists q,
    Zpos P / 2 ^ n <= q <= Zpos P / 2 ^ n + 1
    /\ match binary_round_aux 24 128 false (Zpos P) E loc_Exact with
       | S754_zero s => s = false /\ q = 0
       | S754_finite s mz ez =>
           s = false /\ E + n <= ez /\ Zpos mz * 2 ^ (ez - (E + n)) = q
           /\ valid_binary 24 128 (S754_finite s mz ez) = true
       | S754_infinity s => s = false /\ 0 < q /\ 104 <= E + n
       | S754_nan => False
       end.
Proof.
  intros HE n. unfold binary_round_aux.
  set (d := Zpos (digits2_pos P)) in *.
  assert (Hn : 0 <= n) by (subst n; lia).
  destruct (shr_fexp 24 128 (Zpos P) E loc_Exact) as [mrs' e'] eqn:H1.
  pose proof (shr_fexp_exact (Zpos P) E ltac:(lia)) as [He' Hm'].
  rewrite H1 in He', Hm'. cbn [fst snd Zdigits2] in He', Hm'.
  fold d in He', Hm'. fold n in He', Hm'.
  replace (Z.max 0 n) with n in He', Hm' by lia.
  set (m' := shr_m mrs') in *.
  set (m'' := round_nearest_even m' (loc_of_shr_record mrs')) in *.
  assert (Hm'0 : 0 <= m') by (rewrite Hm'; apply Z.div_pos; lia).
  pose proof (round_nearest_even_ge m' (loc_of_shr_record mrs')) as Hge.
  pose proof (round_nearest_even_le m' (loc_of_shr_record mrs')) as Hle.
  fold m'' in Hge, Hle. clearbody m''.
  destruct (shr_fexp 24 128 m'' e' loc_Exact) as [mrs'' e''] eqn:H2.
  pose proof (shr_fexp_exact m'' e' ltac:(lia)) as [He'' Hmf].
  rewrite H2 in He'', Hmf. cbn [fst snd] in He'', Hmf.
  set (n2 := Z.max 0 (fexp 24 128 (Zdigits2 m'' + e') - e')) in *.
  assert (Hn2 : 0 <= n2) by (subst n2; lia).
  assert (Hd : 0 < d) by (subst d; lia).
  exists m''. rewrite <- Hm'. split; [lia|].
  (* the second shift drops at most one bit, and that bit is zero *)
  assert (Hdig : m'' = 0
                 \/ (0 < m'' /\ fexp 24 128 (Zdigits2 m'' + e') = e' + n2
                     /\ (n2 = 0 \/ (n2 = 1 /\ 1 < Zdigits2 m''
                                    /\ m'' = 2 * (m'' / 2))))).
  { destruct (Z.eq_dec m'' 0) as [Hz | Hnz]; [left; exact Hz | right].
    split; [lia|].
    destruct (Z.lt_ge_cases n d) as [Hnd | Hnd].
    - assert (Hdm' : Zdigits2 m' = d - n).
      { rewrite Hm'. apply Zdigits2_div; [lia|]. cbn [Zdigits2]. fold d. lia. }
      assert (Hm'pos : 0 < m').
      { destruct (Z.eq_dec m' 0) as [Hz|]; [|lia].
        rewrite Hz in Hdm'. cbn in Hdm'. lia. }
      assert (Hc : m'' = m' \/ m'' = m' + 1) by lia.
      destruct Hc as [-> | ->].
      + assert (Hn20 : n2 = 0) by (subst n2 n; unfold fexp, emin in *; lia).
        split; [subst n2 n; unfold fexp, emin in *; lia|]. left. exact Hn20.
      + destruct (Zdigits2_succ m' Hm'pos) as [Hs | [Hs Hpow]].
        * assert (Hn20 : n2 = 0)
            by (subst n2 n; rewrite Hs; unfold fexp, emin in *; lia).
          split; [subst n2 n; rewrite Hs; unfold fexp, emin in *; lia|].
          left. exact Hn20.
        * split; [subst n2 n; rewrite Hs; unfold fexp, emin in *; lia|].
          assert (Hcase : n2 = 0 \/ n2 = 1)
            by (subst n2 n; rewrite Hs; unfold fexp, emin in *; lia).
          destruct Hcase as [H0 | H1']; [left; exact H0 | right].
          split; [exact H1'|]. rewrite Hs. split; [lia|].
          rewrite Hpow.
          replace (Zdigits2 m') with (1 + (Zdigits2 m' - 1)) at 1 by lia.
          rewrite (Z.pow_add_r 2 1 (Zdigits2 m' - 1)) by lia.
          change (2 ^ 1) with 2.
          replace (Zdigits2 m') with (1 + (Zdigits2 m' - 1)) at 2 by lia.
          rewrite (Z.pow_add_r 2 1 (Zdigits2 m' - 1)) by lia.
          change (2 ^ 1) with 2.
          rewrite (Z.mul_comm 2 (2 ^ (Zdigits2 m' - 1))), Z.div_mul by lia. lia.
    - assert (Hz : m' = 0).
      { rewrite Hm'. apply Zdigits2_div_small; [lia|]. cbn [Zdigits2]. fold d. lia. }
      assert (H1' : m'' = 1) by lia.
      assert (He'v : e' = -149) by (subst n; unfold fexp, emin in *; lia).
      assert (Hn20 : n2 = 0) by (subst n2; rewrite H1', He'v; reflexivity).
      split; [|left; exact Hn20].
      rewrite Hn20, H1', He'v. cbn [Zdigits2 digits2_pos].
      unfold fexp, emin. lia. }
  destruct Hdig as [Hz | (Hpos & Hfx & Hn2c)].
  - assert (Hmz : shr_m mrs'' = 0) by (rewrite Hmf, Hz; apply Z.div_0_l; lia).
    rewrite Hmz. split; [reflexivity | exact Hz].
  - assert (Hq : shr_m mrs'' * 2 ^ n2 = m'' /\ Zdigits2 (shr_m mrs'') = Zdigits2 m'' - n2).
    { rewrite Hmf. destruct Hn2c as [-> | (-> & Hdg & Hev)].
      - rewrite Z.pow_0_r, Z.div_1_r. lia.
      - change (2 ^ 1) with 2. split; [lia|].
        apply (Zdigits2_div m'' 1); lia. }
    destruct Hq as [Hq Hdq].
    destruct (shr_m mrs'') as [|mz|mz] eqn:Hs.
    + assert (0 < 2 ^ n2) by (apply Z.pow_pos_nonneg; lia). lia.
    + destruct (Z.leb_spec e'' (128 - 24)) as [Hle104|Hgt];
        [|split; [reflexivity | split; [exact Hpos | lia]]].
      split; [reflexivity|]. split; [lia|]. split.
      * replace (e'' - (E + n)) with n2 by lia. exact Hq.
      * cbn [valid_binary]. unfold bounded, canonical_mantissa.
        cbn [Zdigits2] in Hdq. rewrite Hdq.
        replace (Zdigits2 m'' - n2 + e'') with (Zdigits2 m'' + e') by lia.
        rewrite Hfx.
        replace (e' + n2 =? e'') with true by (symmetry; apply Z.eqb_eq; lia).
        cbn [andb]. apply Z.leb_le. lia.
    + assert (0 < 2 ^ n2) by (apply Z.pow_pos_nonneg; lia). lia.
Qed.

Lemma digits2_pos_bounds (m : positive) :
  2 ^ (Zpos (digits2_pos m) - 1) <= Zpos m < 2 ^ Zpos (digits2_pos m).
Proof. exact (Zdigits2_spec (Zpos m) ltac:(lia)). Qed.

(** Two positive numbers in the canonical form of one format compare as
    their values do.  Values are written as multiples of [2^-K]. *)
Lemma canonical_compare (prec emax : Z) (m1 m2 : positive) (e1 e2 K : Z) :
  0 < prec ->
  canonical_mantissa prec emax m1 e1 = true ->
  canonical_mantissa prec emax m2 e2 = true ->
  0 <= e1 + K -> 0 <= e2 + K ->
  match e1 ?= e2 with
  | Lt => Lt
  | Gt => Gt
  | Eq => Pos.compare_cont Eq m1 m2
  end = (Zpos m1 * 2 ^ (e1 + K) ?= Zpos m2 * 2 ^ (e2 + K)).
Proof.
  intros Hp H1 H2 Hk1 Hk2.
  unfold canonical_mantissa, fexp, emin in H1, H2.
  apply Z.eqb_eq in H1, H2.
  pose proof (digits2_pos_bounds m1) as [Hl1 Hu1].
  pose proof (digits2_pos_bounds m2) as [Hl2 Hu2].
  set (d1 := Zpos (digits2_pos m1)) in *. set (d2 := Zpos (digits2_pos m2)) in *.
  assert (Hd1 : 0 < d1) by (subst d1; lia).
  assert (Hd2 : 0 < d2) by (subst d2; lia).
  assert (Hlow : forall m d e e', 0 < d -> 0 <= e + K -> e < e' ->
            Zpos m < 2 ^ d -> d <= prec ->
            forall m' d', 2 ^ (d' - 1) <= Zpos m' -> d' = prec ->
            Zpos m * 2 ^ (e + K) < Zpos m' * 2 ^ (e' + K)).
  { intros m d e e' Hd He Hlt Hm Hdp m' d' Hm' Hd'. subst d'.
    assert (Hp1 : 0 < 2 ^ (e + K)) by (apply Z.pow_pos_nonneg; lia).
    assert (Hmd : Zpos m < 2 ^ prec).
    { assert (2 ^ d <= 2 ^ prec) by (apply Z.pow_le_mono_r; lia). lia. }
    assert (He' : 2 ^ (e' + K) = 2 ^ (e' - e) * 2 ^ (e + K)).
    { rewrite <- Z.pow_add_r by lia. f_equal. lia. }
    assert (H2e : 2 <= 2 ^ (e' - e)).
    { change 2 with (2 ^ 1) at 1. apply Z.pow_le_mono_r; lia. }
    assert (Hpp : 2 ^ prec = 2 * 2 ^ (prec - 1)).
    { rewrite <- Z.pow_succ_r by lia. f_equal. lia. }
    rewrite He'. 
    assert (Zpos m * 2 ^ (e + K) < 2 * 2 ^ (prec - 1) * 2 ^ (e + K)) by nia.
    assert (2 * 2 ^ (prec - 1) * 2 ^ (e + K)
            <= Zpos m' * (2 ^ (e' - e) * 2 ^ (e + K))) by nia.
    lia. }
  destruct (Z.compare_spec e1 e2) as [Heq | Hlt | Hgt].
  - subst e2. fold (Pos.compare m1 m2).
    assert (Hp1 : 0 < 2 ^ (e1 + K)) by (apply Z.pow_pos_nonneg; lia).
    destruct (Pos.compare_spec m1 m2) as [-> | Hm | Hm]; symmetry.
    + apply Z.compare_refl.
    + apply Z.compare_lt_iff. apply Z.mul_lt_mono_pos_r; lia.
    + apply Z.compare_gt_iff. apply Z.mul_lt_mono_pos_r; lia.
  - symmetry. apply Z.compare_lt_iff.
    apply (Hlow m1 d1 e1 e2 Hd1 Hk1 Hlt Hu1 ltac:(lia) m2 d2 Hl2 ltac:(lia)).
  - symmetry. apply Z.compare_gt_iff.
    apply (Hlow m2 d2 e2 e1 Hd2 Hk2 Hgt Hu2 ltac:(lia) m1 d1 Hl1 ltac:(lia)).
Qed.

Lemma geb_canonical (prec emax : Z) (m1 m2 : positive) (e1 e2 K : Z) :
  0 < prec ->
  canonical_mantissa prec emax m1 e1 = true ->
  canonical_mantissa prec emax m2 e2 = true ->
  0 <= e1 + K -> 0 <= e2 + K ->
  geb (S754_finite false m1 e1) (S754_finite false m2 e2) = true
  <-> Zpos m2 * 2 ^ (e2 + K) <= Zpos m1 * 2 ^ (e1 + K).
Proof.
  intros Hp H1 H2 Hk1 Hk2. unfold geb. cbn [SFcompare].
  rewrite (canonical_compare prec emax m1 m2 e1 e2 K Hp H1 H2 Hk1 Hk2).
  destruct (Z.compare_spec (Zpos m1 * 2 ^ (e1 + K)) (Zpos m2 * 2 ^ (e2 + K)));
    split; intros; try reflexivity; try discriminate; lia.
Qed.

Lemma valid_canonical prec emax s m e :
  valid_binary prec emax (S754_finite s m e) = true ->
  canonical_mantissa prec emax m e = true /\ e <= emax - prec.
Proof.
  cbn [valid_binary]. unfold bounded. rewrite andb_true_iff, Z.leb_le. tauto.
Qed.

(** The promoted [float] is in the canonical form of [double]. *)
Lemma widened_canonical (m : positive) (e : Z) :
  valid_binary 24 128 (S754_finite false m e) = true ->
  canonical_mantissa 53 1024 (fst (widened m e)) (snd (widened m e)) = true
  /\ Zpos (fst (widened m e)) = Zpos m * 2 ^ (53 - Zpos (digits2_pos m))
  /\ snd (widened m e) = e - (53 - Zpos (digits2_pos m)).
Proof.
  intros Hv. apply valid32_inv in Hv as [Hc He].
  unfold widened. cbv zeta. cbn [fst snd].
  assert (Hk : 0 < 53 - Zpos (digits2_pos m)) by lia.
  split; [|split; [|reflexivity]].
  - unfold canonical_mantissa, fexp, emin. apply Z.eqb_eq.
    rewrite digits2_pos_iter_xO, Pos2Z.inj_add, Z2Pos.id by lia. lia.
  - rewrite iter_xO_mul, Pos2Z.inj_mul, Pos2Z.inj_pow, Z2Pos.id by lia.
    reflexivity.
Qed.

(** Narrowing the positive [double] [mx * 2^ex] gives a neighbour of it
    on the [float] grid: with [f] the exponent of the format at that
    value, the result is [q * 2^f] with [(q - 1) * 2^f <= mx * 2^ex <
    (q + 1) * 2^f].  Values are written as multiples of [2^-K]. *)
Lemma f64_to_f32_grid (mx : positive) (ex K : Z) :
  0 <= ex + K -> 149 <= K ->
  let f := fexp 24 128 (Zpos (digits2_pos mx) + ex) in
  exists q,
    (q - 1) * 2 ^ (f + K) <= Zpos mx * 2 ^ (ex + K) < (q + 1) * 2 ^ (f + K)
    /\ match f64_to_f32 (S754_finite false mx ex) with
       | S754_zero s => s = false /\ q = 0
       | S754_finite s mz ez =>
           s = false /\ f <= ez /\ Zpos mz * 2 ^ (ez - f) = q
           /\ valid_binary 24 128 (S754_finite s mz ez) = true
       | S754_infinity s => s = false /\ 0 < q /\ 104 <= f
       | S754_nan => False
       end.
Proof.
  intros Hex HK f. cbn [f64_to_f32]. unfold binary_round.
  fold f.
  pose proof (shl_align_spec mx ex f) as [HE HP].
  destruct (shl_align mx ex f) as [P E] eqn:Hsh. cbn [fst snd] in HE, HP.
  assert (Hf : -149 <= f) by (subst f; unfold fexp, emin; lia).
  assert (Hdig : Zpos (digits2_pos P) + E = Zpos (digits2_pos mx) + ex).
  { unfold shl_align in Hsh.
    destruct (f - ex) as [|k|k] eqn:Hk; injection Hsh as <- <-; try reflexivity.
    rewrite digits2_pos_iter_xO. lia. }
  assert (HEf : E <= fexp 24 128 (Zpos (digits2_pos P) + E))
    by (rewrite Hdig; fold f; lia).
  destruct (binary_round_aux_grid P E HEf) as (q & Hq & Hres).
  cbv zeta in Hq, Hres. rewrite Hdig in Hq, Hres. fold f in Hq, Hres.
  exists q. split.
  - assert (Hn : 0 <= f - E) by lia.
    assert (Hpn : 0 < 2 ^ (f - E)) by (apply Z.pow_pos_nonneg; lia).
    assert (HpE : 0 < 2 ^ (E + K)) by (apply Z.pow_pos_nonneg; lia).
    assert (Hx : Zpos mx * 2 ^ (ex + K) = Zpos P * 2 ^ (E + K)).
    { rewrite HP, <- Z.mul_assoc, <- Z.pow_add_r by lia.
      f_equal. f_equal. lia. }
    assert (Hu : 2 ^ (f + K) = 2 ^ (f - E) * 2 ^ (E + K)).
    { rewrite <- Z.pow_add_r by lia. f_equal. lia. }
    rewrite Hx, Hu.
    pose proof (Z.mul_div_le (Zpos P) (2 ^ (f - E)) Hpn) as Hlo.
    pose proof (Z.mul_succ_div_gt (Zpos P) (2 ^ (f - E)) Hpn) as Hhi.
    split.
    + rewrite Z.mul_assoc. apply Z.mul_le_mono_nonneg_r; [lia|]. nia.
    + rewrite Z.mul_assoc. apply Z.mul_lt_mono_pos_r; [lia|]. nia.
  - destruct (binary_round_aux 24 128 false (Z.pos P) E loc_Exact)
      as [s|s| |s mz ez]; try exact Hres.
    { destruct Hres as (Hs & Hq0 & Hov).
      replace (E + (f - E)) with f in Hov by lia. repeat split; assumption. }
    destruct Hres as (Hs & Hez & Hm & Hv).
    replace (E + (f - E)) with f in Hez, Hm by lia.
    repeat split; assumption.
Qed.

(** A [float] [mt * 2^et] that is at most [mx * 2^ex] is at most every
    grid point [q * 2^f] whose successor lies above [mx * 2^ex]. *)
Lemma float_below_grid (mt mx : positive) (et ex q K : Z) :
  valid_binary 24 128 (S754_finite false mt et) = true ->
  0 <= ex + K -> 149 <= K ->
  let f := fexp 24 128 (Zpos (digits2_pos mx) + ex) in
  Zpos mt * 2 ^ (et + K) <= Zpos mx * 2 ^ (ex + K) ->
  Zpos mx * 2 ^ (ex + K) < (q + 1) * 2 ^ (f + K) ->
  Zpos mt * 2 ^ (et + K) <= q * 2 ^ (f + K).
Proof.
  intros Hv Hex HK f HTX HXq.
  apply valid32_inv in Hv as [Hc He].
  pose proof (digits2_pos_bounds mt) as [Hlt Hut].
  pose proof (digits2_pos_bounds mx) as [Hlx Hux].
  set (dt := Zpos (digits2_pos mt)) in *. set (dx := Zpos (digits2_pos mx)) in *.
  assert (Hdt : 0 < dt) by (subst dt; lia).
  assert (Hdx : 0 < dx) by (subst dx; lia).
  assert (Hf : f = Z.max (dx + ex - 24) (-149)) by reflexivity.
  clearbody dt dx f.
  assert (Het : et = Z.max (dt + et - 24) (-149)) by lia.
  assert (HpT : 0 < 2 ^ (et + K)) by (apply Z.pow_pos_nonneg; lia).
  assert (HpX : 0 < 2 ^ (ex + K)) by (apply Z.pow_pos_nonneg; lia).
  assert (Hpf : 0 < 2 ^ (f + K)) by (apply Z.pow_pos_nonneg; lia).
  (* magnitudes *)
  assert (HTlow : 2 ^ (dt - 1 + et + K) <= Zpos mt * 2 ^ (et + K)).
  { replace (dt - 1 + et + K) with ((dt - 1) + (et + K)) by lia.
    rewrite (Z.pow_add_r 2 (dt - 1) (et + K)) by lia.
    apply Z.mul_le_mono_nonneg_r; lia. }
  assert (HTup : Zpos mt * 2 ^ (et + K) < 2 ^ (dt + et + K)).
  { replace (dt + et + K) with (dt + (et + K)) by lia.
    rewrite (Z.pow_add_r 2 dt (et + K)) by lia.
    apply Z.mul_lt_mono_pos_r; lia. }
  assert (HXlow : 2 ^ (dx - 1 + ex + K) <= Zpos mx * 2 ^ (ex + K)).
  { replace (dx - 1 + ex + K) with ((dx - 1) + (ex + K)) by lia.
    rewrite (Z.pow_add_r 2 (dx - 1) (ex + K)) by lia.
    apply Z.mul_le_mono_nonneg_r; lia. }
  assert (HXup : Zpos mx * 2 ^ (ex + K) < 2 ^ (dx + ex + K)).
  { replace (dx + ex + K) with (dx + (ex + K)) by lia.
    rewrite (Z.pow_add_r 2 dx (ex + K)) by lia.
    apply Z.mul_lt_mono_pos_r; lia. }
  assert (Hd : dt + et <= dx + ex).
  { assert (Hlt' : 2 ^ (dt - 1 + et + K) < 2 ^ (dx + ex + K)) by lia.
    apply Z.pow_lt_mono_r_iff in Hlt'; lia. }
  destruct (Z.eq_dec (dt + et) (dx + ex)) as [Heq | Hne].
  - assert (Hef : et = f) by lia.
    rewrite Hef in *.
    assert (Zpos mt < q + 1) by nia.
    apply Z.mul_le_mono_nonneg_r; lia.
  - assert (Hge : f <= dx + ex - 1) by lia.
    assert (Hgrid : 2 ^ (dx - 1 + ex + K) = 2 ^ (dx + ex - 1 - f) * 2 ^ (f + K)).
    { rewrite <- Z.pow_add_r by lia. f_equal. lia. }
    assert (Hq : 2 ^ (dx + ex - 1 - f) < q + 1).
    { rewrite Hgrid in HXlow. nia. }
    assert (HT2 : 2 ^ (dt + et + K) <= 2 ^ (dx - 1 + ex + K))
      by (apply Z.pow_le_mono_r; lia).
    rewrite Hgrid in HT2.
    assert (2 ^ (dx + ex - 1 - f) * 2 ^ (f + K) <= q * 2 ^ (f + K))
      by (apply Z.mul_le_mono_nonneg_r; lia).
    lia.
Qed.

(** Narrowing is monotone against a non-negative [float] bound: a
    [double] that is at least the promoted [float] narrows to a value
    that is at least that [float]. *)
Lemma f64_to_f32_geb (x : double) (t : float) :
  valid_binary 53 1024 x = true ->
  valid_binary 24 128 t = true ->
  SFleb f32_zero t = true ->
  geb x (f32_to_f64 t) = true ->
  geb (f64_to_f32 x) t = true.
Proof.
  intros Hvx Hvt H0 Hg.
  assert (Hpos : forall mx ex,
            valid_binary 53 1024 (S754_finite false mx ex) = true ->
            -1074 <= ex).
  { intros mx ex Hv. apply valid_canonical in Hv as [Hc _].
    unfold canonical_mantissa, fexp, emin in Hc. apply Z.eqb_eq in Hc. lia. }
  destruct t as [st|st| |st mt et]; try discriminate H0.
  - (* t = 0 *)
    cbn [f32_to_f64] in Hg.
    destruct x as [sx|sx| |sx mx ex]; try discriminate Hg; try reflexivity.
    + destruct sx; [discriminate Hg | reflexivity].
    + destruct sx; [discriminate Hg|].
      destruct (f64_to_f32_grid mx ex 1074 ltac:(pose proof (Hpos _ _ Hvx); lia)
                  ltac:(lia)) as (q & _ & Hres).
      destruct (f64_to_f32 (S754_finite false mx ex)) as [s|s| |s mz ez].
      * reflexivity.
      * destruct Hres as [-> _]. reflexivity.
      * contradiction.
      * destruct Hres as (-> & _). reflexivity.
  - (* t = +inf *)
    destruct st; [discriminate H0|].
    cbn [f32_to_f64] in Hg.
    destruct x as [sx|sx| |sx mx ex]; try discriminate Hg.
    destruct sx; [discriminate Hg | reflexivity].
  - (* t finite *)
    destruct st; [discriminate H0|].
    rewrite f32_to_f64_finite in Hg by exact Hvt.
    destruct x as [sx|sx| |sx mx ex]; try discriminate Hg.
    + destruct sx; [discriminate Hg | reflexivity].
    + destruct sx; [discriminate Hg|].
      pose proof (widened_canonical mt et Hvt) as (Hcw & Hmw & Hew).
      pose proof (valid32_inv _ _ _ Hvt) as [Hc32 Het].
      pose proof (Hpos _ _ Hvx) as Hex.
      assert (Hdt24 : Zpos (digits2_pos mt) <= 24) by lia.
      apply valid_canonical in Hvx as [Hcx _].
      apply (geb_canonical 53 1024 mx (fst (widened mt et)) ex
               (snd (widened mt et)) 1074) in Hg;
        [| lia | exact Hcx | exact Hcw | lia | rewrite Hew; lia].
      assert (HT : Zpos mt * 2 ^ (et + 1074) <= Zpos mx * 2 ^ (ex + 1074)).
      { rewrite Hmw, Hew in Hg.
        rewrite <- Z.mul_assoc, <- Z.pow_add_r in Hg by lia.
        replace (53 - Zpos (digits2_pos mt)
                 + (et - (53 - Zpos (digits2_pos mt)) + 1074))
          with (et + 1074) in Hg by lia.
        exact Hg. }
      destruct (f64_to_f32_grid mx ex 1074 ltac:(lia) ltac:(lia))
        as (q & [_ Hq] & Hres).
      pose proof (float_below_grid mt mx et ex q 1074 Hvt ltac:(lia) ltac:(lia)
                    HT Hq) as HTq.
      set (f := fexp 24 128 (Zpos (digits2_pos mx) + ex)) in *.
      assert (Hf : -149 <= f) by (subst f; unfold fexp, emin; lia).
      assert (HpT : 0 < Zpos mt * 2 ^ (et + 1074))
        by (apply Z.mul_pos_pos; [lia | apply Z.pow_pos_nonneg; lia]).
      destruct (f64_to_f32 (S754_finite false mx ex)) as [s|s| |s mz ez].
      * destruct Hres as [_ ->]. lia.
      * destruct Hres as [-> _]. reflexivity.
      * contradiction.
      * destruct Hres as (-> & Hez & Hm & Hv).
        apply valid_canonical in Hv as [Hcz _].
        apply valid_canonical in Hvt as [Hct _].
        apply (geb_canonical 24 128 mz mt ez et 1074); try assumption; try lia.
        replace (ez + 1074) with ((ez - f) + (f + 1074)) by lia.
        rewrite (Z.pow_add_r 2 (ez - f) (f + 1074)), Z.mul_assoc, Hm by lia.
        exact HTq.
Qed.

(** X26: whenever a match is reported, the score written is at least the
    threshold: with a threshold that is NaN or lies between 0 and 1 (as
    every stored threshold is) and a well-formed maximum, the narrowed
    score is not below the threshold it was compared with before
    narrowing. *)
Theorem matched_score_at_least_threshold `{cv : OpenCV}
    (frame_gray templ_gray : Mat) (threshold : float) (outs : outputs) :
  unit_or_nan threshold ->
  valid_binary 53 1024
    (max_val (cv_minMaxLoc
       (cv_matchTemplate_ccoeff_normed frame_gray templ_gray))) = true ->
  fst (detect_template frame_gray templ_gray threshold outs) = true ->
  forall score,
    out_score (snd (detect_template frame_gray templ_gray threshold outs))
      = Some score ->
    geb score threshold = true.
Proof.
  intros Ht Hv Hm score Hs.
  destruct (fails_closed frame_gray templ_gray) eqn:Hf.
  - rewrite (detect_template_degenerate _ _ _ _ Hf) in Hm. discriminate Hm.
  - rewrite (detect_template_regular _ _ _ _ Hf) in Hm, Hs. cbv zeta in Hm, Hs.
    destruct (geb _ (f32_to_f64 threshold)) eqn:Hg; [|discriminate Hm].
    cbn [snd out_score] in Hs.
    destruct (out_score outs); [|discriminate Hs].
    injection Hs as <-.
    destruct Ht as [Hn | (Hvt & H0 & _)].
    + rewrite (f32_to_f64_nan _ Hn), geb_nan_r in Hg. discriminate Hg.
    + apply f64_to_f32_geb; assumption.
Qed.

Lemma matched_score_at_least_threshold_witness :
  geb (f64_to_f32 f64_0_9) f32_0_8 = true.
Proof.
  apply (matched_score_at_least_threshold
           (cv := fixed_cv f64_0_9 (mkPoint 2 0))
           (mkMat 3 4 1 4 []) sample_template f32_0_8
           (mkOutputs (Some 0) (Some 0) (Some f32_zero))).
  - right. repeat split.
  - reflexivity.
  - reflexivity.
  - reflexivity.
Defined.

Lemma detect_step_score `{cv : OpenCV} filter fr now d :
  valid_binary 53 1024
    (max_val (cv_minMaxLoc
       (cv_matchTemplate_ccoeff_normed (frame_gray_of fr) (template_gray filter))))
    = true ->
  unit_or_nan (threshold filter) ->
  only_when_matched filter = true ->
  d_valid (detect_step filter fr now d) = true ->
  geb (d_score (detect_step filter fr now d)) (threshold filter) = true.
Proof.
  intros Hcv Ht Howm. unfold detect_step. fold (frame_gray_of fr).
  destruct (fails_closed (frame_gray_of fr) (template_gray filter)) eqn:Hf.
  - rewrite (detect_template_degenerate _ _ _ _ Hf). rewrite Howm.
    cbn. discriminate.
  - rewrite (detect_template_regular _ _ _ _ Hf). cbv zeta.
    destruct (geb _ (f32_to_f64 (threshold filter))) eqn:Hg.
    + intros _. cbn [out_score assign default d_score].
      destruct Ht as [Hn | (Hvt & H0 & _)].
      * rewrite (f32_to_f64_nan _ Hn), geb_nan_r in Hg. discriminate Hg.
      * apply f64_to_f32_geb; [exact Hcv | assumption | assumption | exact Hg].
    + rewrite Howm. cbn. discriminate.
Qed.

(** X27: with [only_when_matched] set, a call that runs a detection attempt
    draws the overlay only if the score it measured on this frame, which
    is the score it stores, is at least the threshold it read.  If the
    call leaves the match marked valid, the stored score is at least that
    threshold and the overlay is blended once; if it leaves it marked not
    valid, the frame is returned as it came and nothing is blended.  (The
    threshold is NaN or lies between 0 and 1, as every stored threshold
    does, and the maximum OpenCV reports for this frame is a well-formed
    [double].) *)
Theorem attempt_draws_at_threshold `{cv : OpenCV}
    (filter : shape_overlay_filter_data) (fr : obs_source_frame) (now : Z) :
  supported_format (frame_format fr) = true ->
  Mat_empty (template_gray filter) = false ->
  Mat_empty (overlay_draw filter) = false ->
  should_detect (interval_ms filter) now (last_detect_ts filter) = true ->
  only_when_matched filter = true ->
  unit_or_nan (threshold filter) ->
  valid_binary 53 1024
    (max_val (cv_minMaxLoc
       (cv_matchTemplate_ccoeff_normed (frame_gray_of fr) (template_gray filter))))
    = true ->
  let r := shape_overlay_filter_video filter (Some fr) now in
  (last_valid (state_after r) = true ->
     geb (last_score (state_after r)) (threshold filter) = true
     /\ count_events is_blend (events_of r) = 1%nat)
  /\ (last_valid (state_after r) = false ->
        returned_frame r = Some fr
        /\ count_events is_blend (events_of r) = 0%nat).
Proof.
  intros Hs Ht Ho Hdue Howm Hthr Hcv. cbv zeta.
  rewrite (video_supported filter fr now Hs Ht Ho). cbv zeta.
  cbn [snapshot d_ts]. rewrite Hdue.
  pose proof (detect_step_score filter fr now
                (mkDetection (last_detect_ts filter) (last_x filter) (last_y filter)
                   (last_valid filter) (last_score filter)) Hcv Hthr Howm) as Hsc.
  destruct (d_valid (detect_step filter fr now _)) eqn:Hv;
    cbn [state_after events_of returned_frame fst snd set_detection
         last_valid last_score];
    rewrite ?Hv; split; intros H; try discriminate H.
  - split; [apply Hsc; reflexivity | reflexivity].
  - split; reflexivity.
Qed.

(** A frame on which the matcher finds 0.9 against a threshold of 0.8: the
    match is stored as valid, 0.9 is at least 0.8 and the overlay is
    blended once. *)
Lemma attempt_draws_at_threshold_witness :
  only_when_matched (sample_filter 0 true true) = true
  /\ unit_or_nan (threshold (sample_filter 0 true true))
  /\ last_valid
       (state_after
          (shape_overlay_filter_video (cv := fixed_cv f64_0_9 (mkPoint 2 0))
             (sample_filter 0 true true) (Some (sample_frame VIDEO_FORMAT_BGRA))
             2000000000)) = true
  /\ geb (f64_to_f32 f64_0_9) f32_0_8 = true
  /\ count_events is_blend
       (events_of
          (shape_overlay_filter_video (cv := fixed_cv f64_0_9 (mkPoint 2 0))
             (sample_filter 0 true true) (Some (sample_frame VIDEO_FORMAT_BGRA))
             2000000000)) = 1%nat.
Proof.
  assert (Hu : unit_or_nan (threshold (sample_filter 0 true true)))
    by (right; repeat split).
  assert (Hv : last_valid
       (state_after
          (shape_overlay_filter_video (cv := fixed_cv f64_0_9 (mkPoint 2 0))
             (sample_filter 0 true true) (Some (sample_frame VIDEO_FORMAT_BGRA))
             2000000000)) = true) by (vm_compute; reflexivity).
  split; [reflexivity|]. split; [exact Hu|]. split; [exact Hv|].
  destruct (attempt_draws_at_threshold (cv := fixed_cv f64_0_9 (mkPoint 2 0))
              (sample_filter 0 true true) (sample_frame VIDEO_FORMAT_BGRA)
              2000000000 eq_refl eq_refl eq_refl eq_refl eq_refl Hu eq_refl)
    as [Hy _].
  exact (Hy Hv).
Defined.

Lemma SFltb_of_leb (x y : spec_float) : SFleb x y = true -> SFltb y x = false.
Proof.
  unfold SFltb, SFleb.
  destruct x as [sx|sx| |sx mx ex], y as [sy|sy| |sy my ey]; cbn;
    try discriminate; try reflexivity;
    try (destruct sx, sy; cbn; intros; (discriminate || reflexivity));
    try (destruct sx; cbn; intros; (discriminate || reflexivity));
    try (destruct sy; cbn; intros; (discriminate || reflexivity)).
  destruct sx, sy; cbn; try discriminate; try reflexivity;
    rewrite (Z.compare_antisym ex ey);
    destruct (ex ?= ey); cbn; try discriminate; try reflexivity;
    change (Pos.compare_cont Eq) with Pos.compare;
    rewrite (Pos.compare_antisym mx my);
    destruct (mx ?= my)%positive; cbn; try discriminate; reflexivity.
Qed.

Lemma clamp_id (v : float) : in_unit_interval v -> clamp v f32_zero f32_one = v.
Proof.
  intros (_ & H0 & H1). unfold clamp, f32_ltb.
  rewrite (SFltb_of_leb _ _ H0), (SFltb_of_leb _ _ H1). reflexivity.
Qed.

Lemma f64_one_eq : f64_one = S754_finite false 4503599627370496 (-52).
Proof. vm_compute. reflexivity. Qed.

Lemma f64_to_f32_one :
  in_unit_interval (f64_to_f32 (S754_finite false 4503599627370496 (-52))).
Proof. repeat split; vm_compute; reflexivity. Qed.

Lemma pow2_shift (c m K : Z) :
  - K <= m <= 0 -> c = 2 ^ (- m) -> c * 2 ^ (m + K) = 2 ^ K.
Proof.
  intros Hm ->. rewrite <- Z.pow_add_r by lia. f_equal. lia.
Qed.

(** The canonical [double] of value one. *)
Lemma canonical_one (mx : positive) (ex K : Z) :
  canonical_mantissa 53 1024 mx ex = true ->
  1074 <= K ->
  Zpos mx * 2 ^ (ex + K) = 2 ^ K ->
  mx = 4503599627370496%positive /\ ex = -52.
Proof.
  intros Hc HK Hx.
  unfold canonical_mantissa, fexp, emin in Hc. apply Z.eqb_eq in Hc.
  pose proof (digits2_pos_bounds mx) as [Hl Hu].
  set (d := Zpos (digits2_pos mx)) in *.
  assert (Hd : 0 < d) by (subst d; lia). clearbody d.
  assert (Hex : 0 <= ex + K) by lia.
  assert (Hp : 0 < 2 ^ (ex + K)) by (apply Z.pow_pos_nonneg; lia).
  assert (Hlow : 2 ^ (d - 1 + (ex + K)) <= 2 ^ K).
  { rewrite (Z.pow_add_r 2 (d - 1) (ex + K)) by lia. rewrite <- Hx.
    apply Z.mul_le_mono_nonneg_r; lia. }
  assert (Hup : 2 ^ K < 2 ^ (d + (ex + K))).
  { rewrite (Z.pow_add_r 2 d (ex + K)) by lia. rewrite <- Hx.
    apply Z.mul_lt_mono_pos_r; lia. }
  apply Z.pow_le_mono_r_iff in Hlow; [|lia|lia].
  apply Z.pow_lt_mono_r_iff in Hup; [|lia|lia].
  assert (He : ex = -52) by lia.
  split; [|exact He]. subst ex.
  rewrite <- (pow2_shift 4503599627370496 (-52) K) in Hx by (try reflexivity; lia).
  apply Z.mul_cancel_r in Hx; [|lia]. lia.
Qed.

(** [y >= x] read as [x <= y]. *)
Lemma geb_SFleb (x y : spec_float) : geb y x = true -> SFleb x y = true.
Proof.
  unfold SFleb, geb.
  destruct x as [sx|sx| |sx mx ex], y as [sy|sy| |sy my ey]; cbn;
    try discriminate; try reflexivity;
    try (destruct sx, sy; cbn; (discriminate || reflexivity));
    try (destruct sx; cbn; (discriminate || reflexivity));
    try (destruct sy; cbn; (discriminate || reflexivity)).
  destruct sx, sy; cbn; try discriminate; try reflexivity;
    rewrite (Z.compare_antisym ex ey);
    destruct (ex ?= ey); cbn; try discriminate; try reflexivity;
    change (Pos.compare_cont Eq) with Pos.compare;
    rewrite (Pos.compare_antisym mx my);
    destruct (mx ?= my)%positive; cbn; try discriminate; reflexivity.
Qed.

(** A positive [float] on the grid below one is at most one. *)
Lemma grid_le_one (mz : positive) (ez f q K : Z) :
  canonical_mantissa 24 128 mz ez = true ->
  1074 <= K -> -149 <= f <= -24 -> f <= ez ->
  Zpos mz * 2 ^ (ez - f) = q ->
  q * 2 ^ (f + K) <= 2 ^ K ->
  SFleb (S754_finite false mz ez) f32_one = true.
Proof.
  intros Hcz HK Hf Hez Hm Hq1.
  assert (Hg : geb (S754_finite false 8388608 (-23))
                 (S754_finite false mz ez) = true).
  { apply (geb_canonical 24 128 8388608 mz (-23) ez K);
      [lia | reflexivity | exact Hcz | lia | lia |].
    rewrite (pow2_shift 8388608 (-23) K) by (try reflexivity; lia).
    replace (ez + K) with ((ez - f) + (f + K)) by lia.
    rewrite (Z.pow_add_r 2 (ez - f) (f + K)), Z.mul_assoc, Hm by lia.
    exact Hq1. }
  apply geb_SFleb. exact Hg.
Qed.

(** A positive [double] at most one, as a multiple of [2^-K]. *)
Lemma le_one_numeric (mx : positive) (ex K : Z) :
  valid_binary 53 1024 (S754_finite false mx ex) = true ->
  SFleb (S754_finite false mx ex) f64_one = true ->
  1074 <= K ->
  Zpos mx * 2 ^ (ex + K) <= 2 ^ K.
Proof.
  intros Hv H1 HK. rewrite f64_one_eq in H1.
  apply valid_canonical in Hv as [Hcx _].
  assert (Hex : -1074 <= ex).
  { unfold canonical_mantissa, fexp, emin in Hcx. apply Z.eqb_eq in Hcx. lia. }
  apply SFleb_geb in H1.
  apply (geb_canonical 53 1024 4503599627370496 mx (-52) ex K) in H1;
    [| lia | reflexivity | exact Hcx | lia | lia].
  rewrite (pow2_shift 4503599627370496 (-52) K) in H1 by (try reflexivity; lia).
  exact H1.
Qed.

(** A [double] between 0 and 1 narrows to a [float] between 0 and 1. *)
Lemma f64_to_f32_unit (x : double) :
  in_unit_interval64 x -> in_unit_interval (f64_to_f32 x).
Proof.
  intros (Hv & H0 & H1).
  destruct x as [s|s| |s mx ex].
  - destruct s; repeat split.
  - rewrite f64_one_eq in H1. destruct s; [discriminate H0 | discriminate H1].
  - discriminate H0.
  - destruct s; [discriminate H0|].
    pose proof Hv as Hv'. apply valid_canonical in Hv' as [Hcx _].
    assert (Hex : -1074 <= ex).
    { unfold canonical_mantissa, fexp, emin in Hcx. apply Z.eqb_eq in Hcx. lia. }
    assert (HK : exists K, K = 1074) by (eexists; reflexivity).
    destruct HK as [K HK].
    pose proof (le_one_numeric mx ex K Hv H1 ltac:(lia)) as Hle.
    destruct (Z.eq_dec (Zpos mx * 2 ^ (ex + K)) (2 ^ K)) as [Heq | Hne].
    + destruct (canonical_one mx ex K Hcx ltac:(lia) Heq) as [-> ->].
      exact f64_to_f32_one.
    + assert (Hlt : Zpos mx * 2 ^ (ex + K) < 2 ^ K) by lia.
      destruct (f64_to_f32_grid mx ex K ltac:(lia) ltac:(lia))
        as (q & [Hq _] & Hres).
      set (f := fexp 24 128 (Zpos (digits2_pos mx) + ex)) in *.
      pose proof (digits2_pos_bounds mx) as [Hl Hu].
      set (d := Zpos (digits2_pos mx)) in *.
      assert (Hd : 0 < d) by (subst d; lia).
      assert (Hf : f = Z.max (d + ex - 24) (-149)) by reflexivity.
      clearbody f d.
      assert (Hp : 0 < 2 ^ (ex + K)) by (apply Z.pow_pos_nonneg; lia).
      assert (Hde : d + ex <= 0).
      { assert (Hlow : 2 ^ (d - 1 + (ex + K)) < 2 ^ K).
        { rewrite (Z.pow_add_r 2 (d - 1) (ex + K)) by lia.
          assert (2 ^ (d - 1) * 2 ^ (ex + K) <= Zpos mx * 2 ^ (ex + K))
            by (apply Z.mul_le_mono_nonneg_r; lia).
          lia. }
        apply Z.pow_lt_mono_r_iff in Hlow; lia. }
      assert (Hf24 : -149 <= f <= -24) by lia.
      assert (Hu1 : 2 ^ K = 2 ^ (- f) * 2 ^ (f + K)).
      { rewrite <- Z.pow_add_r by lia. f_equal. lia. }
      assert (Hpf : 0 < 2 ^ (f + K)) by (apply Z.pow_pos_nonneg; lia).
      assert (Hq1 : q * 2 ^ (f + K) <= 2 ^ K).
      { assert (q - 1 < 2 ^ (- f)) by (rewrite Hu1 in Hlt; nia).
        rewrite Hu1. apply Z.mul_le_mono_nonneg_r; lia. }
      destruct (f64_to_f32 (S754_finite false mx ex)) as [s|s| |s mz ez].
      * destruct Hres as [-> _]. repeat split.
      * destruct Hres as (_ & _ & Hov). lia.
      * contradiction.
      * destruct Hres as (-> & Hez & Hm & Hvz).
        split; [exact Hvz|]. split; [reflexivity|].
        apply valid_canonical in Hvz as [Hcz _].
        apply (grid_le_one mz ez f q K); assumption || lia.
Qed.

(** X28: a threshold setting between 0 and 1 is stored as the nearest
    [float]: the clamp changes nothing. *)
Theorem update_threshold_in_range `{cv : OpenCV}
    (filter : shape_overlay_filter_data) (settings : obs_data_t) :
  in_unit_interval64 (obs_data_get_double settings "threshold") ->
  threshold (shape_overlay_filter_update filter settings)
  = f64_to_f32 (obs_data_get_double settings "threshold")
  /\ in_unit_interval (threshold (shape_overlay_filter_update filter settings)).
Proof.
  intros Hin.
  cbn [shape_overlay_filter_update threshold].
  pose proof (f64_to_f32_unit _ Hin) as Hu.
  rewrite (clamp_id _ Hu). split; [reflexivity | exact Hu].
Qed.

Lemma update_threshold_in_range_witness :
  threshold (shape_overlay_filter_update (cv := fixed_cv f64_0_9 (mkPoint 2 0))
               filter_new sample_settings) = f32_0_8.
Proof.
  destruct (update_threshold_in_range (cv := fixed_cv f64_0_9 (mkPoint 2 0))
              filter_new sample_settings) as [H _].
  - repeat split.
  - rewrite H. reflexivity.
Defined.
